(** * pi-recorder: the session controller of [record.py]

    A shallow embedding of [record_session] and of the recording loop of
    [main], with the theorems that settle the specification's claims.

    The program talks to a camera, a clock, a disk and a console.  Those
    collaborators are kept as oracles (an [Env] record of answer streams);
    the program itself is an executable function in a state-and-exception
    monad that consumes the oracles and logs every effect it performs.
    What is on storage is obtained by replaying the log. *)

#[local] Set Warnings "-register-all,-abstract-large-number".
From Stdlib Require Import QArith Qround.
From Stdlib Require Import Ascii String Sorted.
From stdpp Require Import gmap strings list.

Local Open Scope string_scope.
Local Open Scope list_scope.

(** ** Python values the recorder manipulates *)

(** Exception classes (all instances of Python's [Exception]); both
    [except Exception] and the bare [except:] of the source catch them. *)
Inductive exn : Type :=
| AttributeError (attribute : string)
| TypeError
| IndexError
| ZeroDivisionError
| OSError (what : string)
| RuntimeError (what : string).

(** A Python number: [int] or [float] (floats are idealised as rationals). *)
Inductive number : Type :=
| NInt (z : Z)
| NFloat (q : Q).

(** What [json.dumps] is handed: dictionaries keep their insertion order. *)
Inductive json : Type :=
| JNull
| JBool (b : bool)
| JInt (z : Z)
| JFloat (q : Q)
| JStr (s : string)
| JList (items : list json)
| JObj (fields : list (string * json)).

(** A numpy array, as far as [.tolist()] sees it. *)
Inductive ndarray : Type :=
| Scalar (x : number)
| Arr (rows : list ndarray).

Definition json_of_number (x : number) : json :=
  match x with
  | NInt z => JInt z
  | NFloat q => JFloat q
  end.

Fixpoint tolist (a : ndarray) : json :=
  match a with
  | Scalar x => json_of_number x
  | Arr rows => JList (List.map tolist rows)
  end.

(** [float(x)] on a number. *)
Definition py_float (x : number) : Q :=
  match x with
  | NInt z => inject_Z z
  | NFloat q => q
  end.

(** [int(x)] on a float: truncation towards zero. *)
Definition py_int (q : Q) : Z := Z.quot (Qnum q) (Zpos (Qden q)).

(** An attribute of a duck-typed object: not there at all, there and
    [None], or there with a value. *)
Inductive attr (A : Type) : Type :=
| Missing
| IsNone
| Has (a : A).
Arguments Missing {A}.
Arguments IsNone {A}.
Arguments Has {A} a.

(** [hasattr(o, name)] *)
Definition hasattr {A} (x : attr A) : bool :=
  match x with
  | Missing => false
  | _ => true
  end.

(** [hasattr(o, name) and o.name is not None] *)
Definition present {A} (x : attr A) : option A :=
  match x with
  | Has a => Some a
  | _ => None
  end.

(** The palm position is an array (it has [tolist]) or a plain sequence. *)
Inductive xyz_value : Type :=
| XyzArray (a : ndarray)
| XyzSeq (l : list number).

(** A hand detection as the tracker hands it over. *)
Record hand : Type := mkHand {
  label : attr string;
  lm_score : attr number;
  landmarks : attr ndarray;
  world_landmarks : attr ndarray;
  xyz : attr xyz_value
}.

(** A body detection of the auxiliary bag. *)
Record body : Type := mkBody {
  keypoints : attr ndarray;
  scores : attr ndarray
}.

(** The auxiliary bag: [None] or a dictionary; the values of interest are
    the ones stored under ["body"] ([None] is a legal value). *)
Definition bag : Type := option (list (string * option body)).

(** A captured image; the payload identifies the frame. *)
Definition image : Type := nat.

(** ** The fixed schemas *)

Definition HAND_LANDMARK_NAMES : list string :=
  [ "WRIST";
    "THUMB_CMC"; "THUMB_MCP"; "THUMB_IP"; "THUMB_TIP";
    "INDEX_FINGER_MCP"; "INDEX_FINGER_PIP"; "INDEX_FINGER_DIP"; "INDEX_FINGER_TIP";
    "MIDDLE_FINGER_MCP"; "MIDDLE_FINGER_PIP"; "MIDDLE_FINGER_DIP"; "MIDDLE_FINGER_TIP";
    "RING_FINGER_MCP"; "RING_FINGER_PIP"; "RING_FINGER_DIP"; "RING_FINGER_TIP";
    "PINKY_MCP"; "PINKY_PIP"; "PINKY_DIP"; "PINKY_TIP" ].

Definition BODY_KEYPOINT_NAMES : list string :=
  [ "NOSE";
    "LEFT_EYE"; "RIGHT_EYE";
    "LEFT_EAR"; "RIGHT_EAR";
    "LEFT_SHOULDER"; "RIGHT_SHOULDER";
    "LEFT_ELBOW"; "RIGHT_ELBOW";
    "LEFT_WRIST"; "RIGHT_WRIST";
    "LEFT_HIP"; "RIGHT_HIP";
    "LEFT_KNEE"; "RIGHT_KNEE";
    "LEFT_ANKLE"; "RIGHT_ANKLE" ].

(** ** String helpers *)

Definition upper_ascii (c : ascii) : ascii :=
  let n := nat_of_ascii c in
  if (97 <=? n)%nat && (n <=? 122)%nat then ascii_of_nat (n - 32) else c.

Definition lower_ascii (c : ascii) : ascii :=
  let n := nat_of_ascii c in
  if (65 <=? n)%nat && (n <=? 90)%nat then ascii_of_nat (n + 32) else c.

Fixpoint lower_string (s : string) : string :=
  match s with
  | EmptyString => EmptyString
  | String c s' => String (lower_ascii c) (lower_string s')
  end.

(** [str.capitalize()]: first character upper case, the rest lower case. *)
Definition capitalize (s : string) : string :=
  match s with
  | EmptyString => EmptyString
  | String c s' => String (upper_ascii c) (lower_string s')
  end.

Definition digit_char (d : nat) : ascii := ascii_of_nat (48 + d).

(** The decimal digits of [n], least significant first, [fuel] bounding
    their number. *)
Fixpoint digits_rev (fuel n : nat) : list ascii :=
  match fuel with
  | O => []
  | S fuel' =>
      if (n <? 10)%nat then [digit_char n]
      else digit_char (n mod 10) :: digits_rev fuel' (n / 10)
  end.

Definition decimal (n : nat) : list ascii := rev (digits_rev (S n) n).

(** The format specification [{n:06d}]: decimal, padded with zeros on the
    left to six characters (longer numbers are written in full). *)
Definition fmt_06d (n : nat) : string :=
  let ds := decimal n in
  string_of_list_ascii (repeat "0"%char (6 - length ds) ++ ds).

(** [frame_name = f"frame_{frame_count:06d}"] *)
Definition frame_name (frame_count : nat) : string := "frame_" ++ fmt_06d frame_count.

(** ** The effect log *)

(** A [pathlib.Path], as its components. *)
Definition path : Type := list string.

(** [p / name] *)
Definition child (p : path) (name : string) : path := p ++ [name].

(** A string handed to [write]. *)
Inductive text : Type :=
| JsonLine (v : json)                  (* json.dumps(v) + "\n" *)
| JsonDoc (indent : nat) (v : json).   (* what json.dump(v, f, indent=n) writes *)

Inductive mode : Type := ModeW | ModeA.

(** Console lines. *)
Inductive message : Type :=
| MsgInitializing
| MsgInitError (e : exn)
| MsgRetry
| MsgTesting
| MsgCameraSilent
| MsgFirstFrameError (e : exn)
| MsgStarted (name : string)
| MsgNoCalibration (e : exn)
| MsgLimit (max_duration : Q)
| MsgDiskHigh (percent : Q)
| MsgStatus (frame_count : nat) (percent : Q)
| MsgFrameError (e : exn)
| MsgNoFrame
| MsgComplete (frame_count : nat) (duration : number)
| MsgNoFramesRecorded
| MsgRule
| MsgTitle
| MsgRecordingsDir (p : path)
| MsgSessionDuration (seconds : Q)
| MsgMaxDisk (percent : Q)
| MsgPressCtrlC
| MsgNewSession
| MsgStopped.

(** Everything the program does to the outside world, in order. *)
Inductive event : Type :=
| EPrint (m : message)
| ESleep (seconds : Z)
| ETrackerInit (call : nat)
| ENextFrame (call : nat)
| ETrackerExit (call : nat)
| EDiskUsage (p : path) (percent : Q)
| EMkdir (p : path) (parents : bool)
| EOpen (p : path) (m : mode)
| EWrite (p : path) (t : text)
| EClose (p : path)
| EImwrite (p : path) (img : image) (quality : Z) (written : bool).

(** ** Collaborators *)

(** A constructed [HandTracker]: its nominal resolution and what reading
    the calibration (import of [depthai], [readCalibration],
    [getCameraIntrinsics]) gives. *)
Record tracker : Type := mkTracker {
  resolution : Z * Z;
  calibration : exn + list (list Q)
}.

(** What [next_frame()] returns. *)
Definition pulled : Type := option image * list hand * bag.

Record datetime : Type := mkDatetime {
  isoformat : string;        (* .isoformat() *)
  stamp : string             (* .strftime("%Y%m%d_%H%M%S") *)
}.

(** The answers of the outside world, call by call. *)
Record Env : Type := mkEnv {
  tracker_init : nat -> exn + tracker;       (* HandTracker(...) *)
  next_frame : nat -> exn + pulled;          (* tracker.next_frame() *)
  tracker_exit : nat -> option exn;          (* tracker.exit() *)
  time_time : nat -> Q;                      (* time.time() *)
  disk_usage : nat -> exn + (Z * Z * Z);     (* shutil.disk_usage(path) *)
  signal_seen : nat -> bool;                 (* SIGINT/SIGTERM delivered before this read of [running] *)
  storage_fault : nat -> option exn;         (* mkdir/open/write/close raising *)
  imwrite_result : nat -> exn + bool;        (* cv2.imwrite(...) *)
  datetime_now : nat -> datetime             (* datetime.now() *)
}.

(** The mutable state: the global [running] flag, the log, and how many
    answers of each oracle were consumed. *)
Record World : Type := mkWorld {
  running : bool;
  log : list event;
  n_init : nat;
  n_frame : nat;
  n_exit : nat;
  n_time : nat;
  n_disk : nat;
  n_signal : nat;
  n_storage : nat;
  n_imwrite : nat;
  n_now : nat
}.

Definition set_running_flag (b : bool) (w : World) : World :=
  mkWorld b (log w) (n_init w) (n_frame w) (n_exit w) (n_time w) (n_disk w)
          (n_signal w) (n_storage w) (n_imwrite w) (n_now w).
Definition add_event (ev : event) (w : World) : World :=
  mkWorld (running w) (log w ++ [ev]) (n_init w) (n_frame w) (n_exit w) (n_time w)
          (n_disk w) (n_signal w) (n_storage w) (n_imwrite w) (n_now w).
Definition bump_init (w : World) : World :=
  mkWorld (running w) (log w) (S (n_init w)) (n_frame w) (n_exit w) (n_time w)
          (n_disk w) (n_signal w) (n_storage w) (n_imwrite w) (n_now w).
Definition bump_frame (w : World) : World :=
  mkWorld (running w) (log w) (n_init w) (S (n_frame w)) (n_exit w) (n_time w)
          (n_disk w) (n_signal w) (n_storage w) (n_imwrite w) (n_now w).
Definition bump_exit (w : World) : World :=
  mkWorld (running w) (log w) (n_init w) (n_frame w) (S (n_exit w)) (n_time w)
          (n_disk w) (n_signal w) (n_storage w) (n_imwrite w) (n_now w).
Definition bump_time (w : World) : World :=
  mkWorld (running w) (log w) (n_init w) (n_frame w) (n_exit w) (S (n_time w))
          (n_disk w) (n_signal w) (n_storage w) (n_imwrite w) (n_now w).
Definition bump_disk (w : World) : World :=
  mkWorld (running w) (log w) (n_init w) (n_frame w) (n_exit w) (n_time w)
          (S (n_disk w)) (n_signal w) (n_storage w) (n_imwrite w) (n_now w).
Definition bump_signal (w : World) : World :=
  mkWorld (running w) (log w) (n_init w) (n_frame w) (n_exit w) (n_time w)
          (n_disk w) (S (n_signal w)) (n_storage w) (n_imwrite w) (n_now w).
Definition bump_storage (w : World) : World :=
  mkWorld (running w) (log w) (n_init w) (n_frame w) (n_exit w) (n_time w)
          (n_disk w) (n_signal w) (S (n_storage w)) (n_imwrite w) (n_now w).
Definition bump_imwrite (w : World) : World :=
  mkWorld (running w) (log w) (n_init w) (n_frame w) (n_exit w) (n_time w)
          (n_disk w) (n_signal w) (n_storage w) (S (n_imwrite w)) (n_now w).
Definition bump_now (w : World) : World :=
  mkWorld (running w) (log w) (n_init w) (n_frame w) (n_exit w) (n_time w)
          (n_disk w) (n_signal w) (n_storage w) (n_imwrite w) (S (n_now w)).

(** ** The monad: state, exceptions, and running out of fuel *)

Inductive outcome (A : Type) : Type :=
| Ret (a : A)
| Raise (e : exn)
| Timeout.
Arguments Ret {A} a.
Arguments Raise {A} e.
Arguments Timeout {A}.

Definition M (A : Type) : Type := World -> outcome A * World.

Definition ret {A} (a : A) : M A := fun w => (Ret a, w).

Definition bind {A B} (m : M A) (k : A -> M B) : M B :=
  fun w =>
    match m w with
    | (Ret a, w') => k a w'
    | (Raise e, w') => (Raise e, w')
    | (Timeout, w') => (Timeout, w')
    end.

Definition raise {A} (e : exn) : M A := fun w => (Raise e, w).

Definition out_of_fuel {A} : M A := fun w => (Timeout, w).

(** [try: m  except Exception as e: h e] *)
Definition try_except {A} (m : M A) (h : exn -> M A) : M A :=
  fun w =>
    match m w with
    | (Raise e, w') => h e w'
    | r => r
    end.

(** [try: m  finally: cleanup] *)
Definition finally {A} (m : M A) (cleanup : M unit) : M A :=
  fun w =>
    match m w with
    | (Ret a, w') => bind cleanup (fun _ => ret a) w'
    | (Raise e, w') => bind cleanup (fun _ => raise e) w'
    | (Timeout, w') => (Timeout, w')
    end.

(** A pure computation that may raise. *)
Definition lift {A} (r : exn + A) : M A :=
  match r with
  | inl e => raise e
  | inr a => ret a
  end.

#[global] Instance M_ret : MRet M := @ret.
#[global] Instance M_bind : MBind M := fun A B k m => bind m k.

(** ** Pure parts of the frame loop *)

Definition Qgt_bool (a b : Q) : bool := negb (Qle_bool a b).

(** The dictionary built for one hand (lines 205-224): [label] and
    [lm_score] are read unguarded, the three other attributes are probed. *)
Definition palm (v : xyz_value) : json :=
  match v with
  | XyzArray a => tolist a                            (* xyz.tolist() *)
  | XyzSeq l => JList (List.map json_of_number l)     (* list(xyz) *)
  end.

Definition hand_entry (h : hand) : exn + json :=
  match label h with
  | Missing => inl (AttributeError "label")
  | IsNone => inl (AttributeError "capitalize")
  | Has s =>
      match lm_score h with
      | Missing => inl (AttributeError "lm_score")
      | IsNone => inl TypeError
      | Has x =>
          inr (JObj
            ([ ("handedness", JStr (capitalize s));
               ("confidence", JFloat (py_float x));
               ("landmarks_2d",
                 match present (landmarks h) with
                 | Some a => tolist a
                 | None => JList []
                 end);
               ("landmarks_3d",
                 match present (world_landmarks h) with
                 | Some a => tolist a
                 | None => JList []
                 end) ]
             ++ match present (xyz h) with
                | Some v => [ ("palm_xyz", palm v) ]
                | None => []
                end))
      end
  end.

(** [for hand in hands: ... hands_data.append(hand_data)] *)
Fixpoint hands_entries (hands : list hand) : exn + list json :=
  match hands with
  | [] => inr []
  | h :: rest =>
      match hand_entry h with
      | inl e => inl e
      | inr d =>
          match hands_entries rest with
          | inl e => inl e
          | inr ds => inr (d :: ds)
          end
      end
  end.

(** [d.get(key, None)] on a dictionary kept as an association list. *)
Fixpoint dict_get {V} (key : string) (d : list (string * V)) : option V :=
  match d with
  | [] => None
  | (k, v) :: rest => if String.eqb k key then Some v else dict_get key rest
  end.

(** [bag.get("body", None) if bag else None]: an empty or absent bag has
    no body, and the stored value may itself be [None]. *)
Definition bag_body (b : bag) : option body :=
  match b with
  | None => None
  | Some [] => None
  | Some d =>
      match dict_get "body" d with
      | Some (Some bd) => Some bd
      | _ => None
      end
  end.

(** Lines 227-233. *)
Definition body_entry (b : bag) : exn + json :=
  match bag_body b with
  | None => inr JNull
  | Some bd =>
      if hasattr (keypoints bd) then
        match keypoints bd with
        | Has k =>
            match scores bd with
            | Missing => inr (JObj [ ("keypoints_2d", tolist k); ("scores", JList []) ])
            | IsNone => inl (AttributeError "tolist")
            | Has s => inr (JObj [ ("keypoints_2d", tolist k); ("scores", tolist s) ])
            end
        | _ => inl (AttributeError "tolist")
        end
      else inr JNull
  end.

(** The Frame Record of lines 240-246. *)
Definition frame_pose (frame_count : nat) (timestamp_ms : Z) (hands_data : list json)
    (body_data : json) : json :=
  JObj [ ("_type", JStr "frame");
         ("frame_idx", JInt (Z.of_nat frame_count));
         ("timestamp_ms", JInt timestamp_ms);
         ("hands", JList hands_data);
         ("body", body_data) ].

(** The header of lines 158-163. *)
Definition header (intrinsics : json) : json :=
  JObj [ ("_type", JStr "header");
         ("intrinsics", intrinsics);
         ("landmark_names", JList (List.map JStr HAND_LANDMARK_NAMES));
         ("body_keypoint_names", JList (List.map JStr BODY_KEYPOINT_NAMES)) ].

(** Lines 127-134: intrinsics estimated from the nominal resolution. *)
Definition estimated_intrinsics (t : tracker) : json :=
  let '(w, h) := resolution t in
  JObj [ ("fx", JFloat (inject_Z w * (8 # 10)));
         ("fy", JFloat (inject_Z w * (8 # 10)));
         ("cx", JFloat (inject_Z w / 2));
         ("cy", JFloat (inject_Z h / 2));
         ("width", JInt w);
         ("height", JInt h) ].

(** [m[i][j]], [IndexError] out of range. *)
Definition entry (m : list (list Q)) (i j : nat) : exn + Q :=
  match nth_error m i with
  | None => inl IndexError
  | Some row =>
      match nth_error row j with
      | None => inl IndexError
      | Some x => inr x
      end
  end.

(** The body of the [try] of lines 137-147. *)
Definition calibrated_intrinsics (t : tracker) : exn + json :=
  match calibration t with
  | inl e => inl e
  | inr m =>
      match entry m 0 0, entry m 1 1, entry m 0 2, entry m 1 2 with
      | inr fx, inr fy, inr cx, inr cy =>
          inr (JObj [ ("fx", JFloat fx); ("fy", JFloat fy);
                      ("cx", JFloat cx); ("cy", JFloat cy);
                      ("width", JInt 1920); ("height", JInt 1080) ])
      | inl e, _, _, _ => inl e
      | _, inl e, _, _ => inl e
      | _, _, inl e, _ => inl e
      | _, _, _, inl e => inl e
      end
  end.

(** Lines 261-269: the summary written at a clean session end.
    [timestamps[-1] / 1000.0 if timestamps else 0] *)
Definition actual_duration (timestamps : list Z) : number :=
  match timestamps with
  | [] => NInt 0
  | _ => NFloat (inject_Z (List.last timestamps 0%Z) / 1000)
  end.

(** [frame_count / actual_duration if actual_duration > 0 else 0] *)
Definition fps_field (frame_count : nat) (duration : number) : json :=
  if Qgt_bool (py_float duration) 0
  then JFloat (inject_Z (Z.of_nat frame_count) / py_float duration)
  else JInt 0.

Definition metadata (now : datetime) (frame_count : nat) (timestamps : list Z) : json :=
  let duration := actual_duration timestamps in
  JObj [ ("recording_date", JStr (isoformat now));
         ("duration_seconds", json_of_number duration);
         ("frame_count", JInt (Z.of_nat frame_count));
         ("fps", fps_field frame_count duration) ].

(** ** Effectful primitives *)

Section Recorder.

Context (env : Env).

Definition emit (ev : event) : M unit := fun w => (Ret tt, add_event ev w).

Definition print (m : message) : M unit := emit (EPrint m).

(** [time.sleep(seconds)] *)
Definition sleep (seconds : Z) : M unit := emit (ESleep seconds).

(** Reading the global [running].  The signal handler only ever clears the
    flag, and only reads can tell: a delivered signal takes effect at the
    next read. *)
Definition read_running : M bool :=
  fun w =>
    let r := running w && negb (signal_seen env (n_signal w)) in
    (Ret r, bump_signal (set_running_flag r w)).

(** [running = False] *)
Definition clear_running : M unit := fun w => (Ret tt, set_running_flag false w).

(** [HandTracker(input_src="rgb", ...)] *)
Definition HandTracker : M tracker :=
  fun w =>
    let w' := bump_init (add_event (ETrackerInit (n_init w)) w) in
    match tracker_init env (n_init w) with
    | inl e => (Raise e, w')
    | inr t => (Ret t, w')
    end.

(** [tracker.next_frame()] *)
Definition pull_frame : M pulled :=
  fun w =>
    let w' := bump_frame (add_event (ENextFrame (n_frame w)) w) in
    match next_frame env (n_frame w) with
    | inl e => (Raise e, w')
    | inr p => (Ret p, w')
    end.

(** [tracker.exit()] *)
Definition exit_tracker : M unit :=
  fun w =>
    let w' := bump_exit (add_event (ETrackerExit (n_exit w)) w) in
    match tracker_exit env (n_exit w) with
    | Some e => (Raise e, w')
    | None => (Ret tt, w')
    end.

(** [try: tracker.exit()  except: pass] *)
Definition release : M unit := try_except exit_tracker (fun _ => ret tt).

(** [time.time()] *)
Definition now_seconds : M Q :=
  fun w => (Ret (time_time env (n_time w)), bump_time w).

(** [datetime.now()] *)
Definition now_datetime : M datetime :=
  fun w => (Ret (datetime_now env (n_now w)), bump_now w).

(** [get_disk_usage_percent(path)]: [(used / total) * 100]. *)
Definition get_disk_usage_percent (p : path) : M Q :=
  fun w =>
    match disk_usage env (n_disk w) with
    | inl e => (Raise e, bump_disk w)
    | inr (total, used, _) =>
        if (total =? 0)%Z then (Raise ZeroDivisionError, bump_disk w)
        else
          let percent := (inject_Z used / inject_Z total * 100)%Q in
          (Ret percent, bump_disk (add_event (EDiskUsage p percent) w))
    end.

(** A storage operation: it raises and changes nothing, or it is logged. *)
Definition storage_op (ev : event) : M unit :=
  fun w =>
    match storage_fault env (n_storage w) with
    | Some e => (Raise e, bump_storage w)
    | None => (Ret tt, bump_storage (add_event ev w))
    end.

(** [p.mkdir(parents=..., exist_ok=True)] *)
Definition mkdir (p : path) (parents : bool) : M unit := storage_op (EMkdir p parents).

(** [with open(p, mode) as f: body]: the file is closed on the way out,
    also when the body raises. *)
Definition with_open {A} (p : path) (m : mode) (body : M A) : M A :=
  storage_op (EOpen p m);; finally body (storage_op (EClose p)).

(** [f.write(t)] *)
Definition write (p : path) (t : text) : M unit := storage_op (EWrite p t).

(** [cv2.imwrite(str(p), frame, [cv2.IMWRITE_JPEG_QUALITY, quality])]; the
    source ignores the boolean it returns. *)
Definition imwrite (p : path) (img : image) (quality : Z) : M bool :=
  fun w =>
    match imwrite_result env (n_imwrite w) with
    | inl e => (Raise e, bump_imwrite w)
    | inr ok => (Ret ok, bump_imwrite (add_event (EImwrite p img quality ok) w))
    end.

(** ** [record_session] *)

(** What a step of the [while] loop decides. *)
Inductive flow : Type := Break | Continue.

(** The locals the frame loop updates. *)
Record loop_state : Type := mkLoop {
  frame_count : nat;
  timestamps : list Z;
  last_status_time : Q
}.

(** The common tail of the failure paths of lines 100-117. *)
Definition back_off_after_release : M bool :=
  print MsgRetry;;
  release;;
  sleep 5;;
  read_running.

(** Lines 76-94 (ACQUIRING): [inl r] is [return r], [inr t] goes on. *)
Definition acquire : M (bool + tracker) :=
  print MsgInitializing;;
  try_except
    (t ← HandTracker; mret (inr t))
    (fun e =>
       print (MsgInitError e);;
       print MsgRetry;;
       sleep 5;;
       r ← read_running;
       mret (inl r)).

(** Lines 96-117 (VERIFYING): one frame is pulled and thrown away. *)
Definition verify (t : tracker) : M (bool + tracker) :=
  print MsgTesting;;
  try_except
    (p ← pull_frame;
     match fst (fst p) with
     | None =>
         print MsgCameraSilent;;
         r ← back_off_after_release;
         mret (inl r)
     | Some _ => mret (inr t)
     end)
    (fun e =>
       print (MsgFirstFrameError e);;
       r ← back_off_after_release;
       mret (inl r)).

Definition rgb_dir (output_dir : path) : path := child output_dir "rgb_frames".
Definition poses_file (output_dir : path) : path := child output_dir "hand_poses.jsonl".
Definition camera_info_file (output_dir : path) : path := child output_dir "camera_info.json".
Definition metadata_file (output_dir : path) : path := child output_dir "metadata.json".

(** [rgb_dir / f"{frame_name}.jpg"] *)
Definition image_file (output_dir : path) (frame_count : nat) : path :=
  child (rgb_dir output_dir) (frame_name frame_count ++ ".jpg").

(** Lines 119-169 (entering ACTIVE): folders, camera descriptor, header,
    and the loop's initial locals. *)
Definition open_session (output_dir : path) (t : tracker) : M (Q * loop_state) :=
  mkdir output_dir true;;
  mkdir (rgb_dir output_dir) false;;
  print (MsgStarted (List.last output_dir ""));;
  intrinsics ← try_except
    (lift (calibrated_intrinsics t))
    (fun e => print (MsgNoCalibration e);; mret (estimated_intrinsics t));
  with_open (camera_info_file output_dir) ModeW
    (write (camera_info_file output_dir) (JsonDoc 2 (JObj [ ("intrinsics", intrinsics) ])));;
  with_open (poses_file output_dir) ModeW
    (write (poses_file output_dir) (JsonLine (header intrinsics)));;
  start_time ← now_seconds;
  mret (start_time, mkLoop 0 [] start_time).

(** Lines 179-187: the 30-second disk check. *)
Definition disk_check (output_dir : path) (max_disk_usage : Q) (st : loop_state)
    : M (flow * loop_state) :=
  t ← now_seconds;
  if Qgt_bool (t - last_status_time st) 30 then
    usage ← get_disk_usage_percent output_dir;
    if Qgt_bool usage max_disk_usage then
      print (MsgDiskHigh usage);;
      clear_running;;
      mret (Break, st)
    else
      print (MsgStatus (frame_count st) usage);;
      t' ← now_seconds;
      mret (Continue, mkLoop (frame_count st) (timestamps st) t')
  else mret (Continue, st).

(** Lines 200-251: what is done with a frame that was delivered. *)
Definition persist_frame (output_dir : path) (elapsed : Q) (st : loop_state)
    (img : image) (hands : list hand) (b : bag) : M loop_state :=
  let timestamp_ms := py_int (elapsed * 1000) in
  hands_data ← lift (hands_entries hands);
  body_data ← lift (body_entry b);
  imwrite (image_file output_dir (frame_count st)) img 85;;
  with_open (poses_file output_dir) ModeA
    (write (poses_file output_dir)
       (JsonLine (frame_pose (frame_count st) timestamp_ms hands_data body_data)));;
  mret (mkLoop (S (frame_count st)) (timestamps st ++ [timestamp_ms]) (last_status_time st)).

(** One turn of [while running:] (lines 171-251), the test included. *)
Definition frame_step (output_dir : path) (max_duration max_disk_usage start_time : Q)
    (st : loop_state) : M (flow * loop_state) :=
  r ← read_running;
  if negb r then mret (Break, st) else
  t ← now_seconds;
  let elapsed := (t - start_time)%Q in
  if Qgt_bool elapsed max_duration then
    print (MsgLimit max_duration);;
    mret (Break, st)
  else
    checked ← disk_check output_dir max_disk_usage st;
    match checked with
    | (Break, st1) => mret (Break, st1)
    | (Continue, st1) =>
        got ← try_except
          (p ← pull_frame; mret (Some p))
          (fun e => print (MsgFrameError e);; mret None);
        match got with
        | None => mret (Break, st1)
        | Some (None, _, _) => print MsgNoFrame;; mret (Break, st1)
        | Some (Some img, hands, b) =>
            st2 ← persist_frame output_dir elapsed st1 img hands b;
            mret (Continue, st2)
        end
    end.

(** The [while] loop; [fuel] bounds the number of turns. *)
Fixpoint frame_loop (fuel : nat) (output_dir : path)
    (max_duration max_disk_usage start_time : Q) (st : loop_state) : M loop_state :=
  match fuel with
  | O => out_of_fuel
  | S fuel' =>
      r ← frame_step output_dir max_duration max_disk_usage start_time st;
      match r with
      | (Break, st') => mret st'
      | (Continue, st') =>
          frame_loop fuel' output_dir max_duration max_disk_usage start_time st'
      end
  end.

(** Lines 253-275 (DRAINING, CLOSED). *)
Definition close_session (output_dir : path) (st : loop_state) : M bool :=
  release;;
  (if (0 <? frame_count st)%nat then
     with_open (metadata_file output_dir) ModeW
       (now ← now_datetime;
        write (metadata_file output_dir)
          (JsonDoc 2 (metadata now (frame_count st) (timestamps st))));;
     print (MsgComplete (frame_count st) (actual_duration (timestamps st)))
   else print MsgNoFramesRecorded);;
  read_running.

(** [record_session(output_dir, max_duration, max_disk_usage)] *)
Definition record_session (fuel : nat) (output_dir : path)
    (max_duration max_disk_usage : Q) : M bool :=
  a ← acquire;
  match a with
  | inl r => mret r
  | inr t =>
      v ← verify t;
      match v with
      | inl r => mret r
      | inr t =>
          '(start_time, st) ← open_session output_dir t;
          st' ← frame_loop fuel output_dir max_duration max_disk_usage start_time st;
          close_session output_dir st'
      end
  end.

(** ** [main] *)

(** The parsed command line. *)
Record arguments : Type := mkArgs {
  recordings_dir : path;
  session_duration : Q;
  max_disk_usage_arg : Q
}.

(** Lines 307-322: the session loop; [sessions] bounds its turns. *)
Fixpoint session_loop (sessions fuel : nat) (args : arguments) : M unit :=
  match sessions with
  | O => out_of_fuel
  | S sessions' =>
      r ← read_running;
      if negb r then mret tt else
      now ← now_datetime;
      let session_dir := child (recordings_dir args) ("session_" ++ stamp now) in
      should_continue ← record_session fuel session_dir
                          (session_duration args) (max_disk_usage_arg args);
      if negb should_continue then mret tt else
      print MsgNewSession;;
      sleep 2;;
      session_loop sessions' fuel args
  end.

(** Lines 294-324. *)
Definition main (sessions fuel : nat) (args : arguments) : M unit :=
  mkdir (recordings_dir args) true;;
  print MsgRule;;
  print MsgTitle;;
  print MsgRule;;
  print (MsgRecordingsDir (recordings_dir args));;
  print (MsgSessionDuration (session_duration args));;
  print (MsgMaxDisk (max_disk_usage_arg args));;
  print MsgPressCtrlC;;
  print MsgRule;;
  session_loop sessions fuel args;;
  print MsgStopped.

End Recorder.

(** ** Storage, by replaying the log *)

(** What a file holds: the strings flushed to it, or an encoded image. *)
Inductive fcontent : Type :=
| Text (chunks : list text)
| Jpeg (img : image) (quality : Z).

(** Directories, files, and the buffers of the handles that are open.
    Only [dirs] and [files] survive an abrupt stop. *)
Record storage : Type := mkStorage {
  dirs : gset (list string);
  files : gmap (list string) fcontent;
  buffers : gmap (list string) (list text)
}.

(** The non-empty prefixes of a path: what [parents=True] creates. *)
Fixpoint ancestors (p : path) : list path :=
  match p with
  | [] => []
  | c :: rest => [c] :: List.map (cons c) (ancestors rest)
  end.

Definition flushed (old : option fcontent) (buffer : list text) : fcontent :=
  match old with
  | Some (Text chunks) => Text (chunks ++ buffer)
  | _ => Text buffer
  end.

Definition apply_event (s : storage) (ev : event) : storage :=
  match ev with
  | EMkdir p parents =>
      mkStorage (dirs s ∪ (if parents then list_to_set (ancestors p) else {[ p ]}))
                (files s) (buffers s)
  | EOpen p ModeW =>
      mkStorage (dirs s) (<[ p := Text [] ]> (files s)) (<[ p := [] ]> (buffers s))
  | EOpen p ModeA =>
      mkStorage (dirs s)
                (match files s !! p with
                 | Some _ => files s
                 | None => <[ p := Text [] ]> (files s)
                 end)
                (<[ p := [] ]> (buffers s))
  | EWrite p t =>
      mkStorage (dirs s) (files s)
                (<[ p := default [] (buffers s !! p) ++ [t] ]> (buffers s))
  | EClose p =>
      mkStorage (dirs s)
                (<[ p := flushed (files s !! p) (default [] (buffers s !! p)) ]> (files s))
                (delete p (buffers s))
  | EImwrite p img quality true =>
      mkStorage (dirs s) (<[ p := Jpeg img quality ]> (files s)) (buffers s)
  | _ => s
  end.

Definition replay (s : storage) (evs : list event) : storage :=
  fold_left apply_event evs s.

(** Events that touch storage. *)
Definition touches_storage (ev : event) : bool :=
  match ev with
  | EMkdir _ _ | EOpen _ _ | EWrite _ _ | EClose _ | EImwrite _ _ _ _ => true
  | _ => false
  end.

(** The storage of one path, followed through the log without the maps:
    what the file holds and the buffer of its open handle. *)
Definition view : Type := option fcontent * option (list text).

Definition path_eqb (p q : path) : bool := bool_decide (p = q).

Definition local_event (p : path) (v : view) (ev : event) : view :=
  match ev with
  | EOpen q ModeW => if path_eqb q p then (Some (Text []), Some []) else v
  | EOpen q ModeA =>
      if path_eqb q p
      then (match fst v with Some c => Some c | None => Some (Text []) end, Some [])
      else v
  | EWrite q t => if path_eqb q p then (fst v, Some (default [] (snd v) ++ [t])) else v
  | EClose q =>
      if path_eqb q p then (Some (flushed (fst v) (default [] (snd v))), None) else v
  | EImwrite q img quality true =>
      if path_eqb q p then (Some (Jpeg img quality), snd v) else v
  | _ => v
  end.

Definition view_of (p : path) (s : storage) : view := (files s !! p, buffers s !! p).

(** ** The shape of a session's log *)

(** [int(elapsed * 1000)] for the clock reading number [i]. *)
Definition stamp_ms (env : Env) (start_time : Q) (i : nat) : Z :=
  py_int ((time_time env i - start_time) * 1000).

(** [with open(p, m) as f: f.write(t)], completed ... *)
Definition write_events (p : path) (m : mode) (t : text) : list event :=
  [ EOpen p m; EWrite p t; EClose p ].

(** ... and cut short by storage raising at [open], at [write] (the handle
    is still closed, or closing raises too) or at [close]. *)
Definition aborted_write (p : path) (m : mode) (t : text) : list (list event) :=
  [ []; [ EOpen p m ]; [ EOpen p m; EClose p ]; [ EOpen p m; EWrite p t ] ].

(** A frame, from the pull to the flushed record. *)
Definition frame_events (out : path) (n k : nat) (img : image) (ok : bool) (line : json)
    : list event :=
  ENextFrame k :: EImwrite (image_file out n) img 85 ok
    :: write_events (poses_file out) ModeA (JsonLine line).

Definition aborted_frames (out : path) (n k : nat) (img : image) (ok : bool) (line : json)
    : list (list event) :=
  [] :: [ ENextFrame k ]
     :: List.map (app [ ENextFrame k; EImwrite (image_file out n) img 85 ok ])
          (aborted_write (poses_file out) ModeA (JsonLine line)).

(** What a disk check that lets the loop go on leaves in the log. *)
Inductive check_noise (out : path) (max_disk_usage : Q) (n : nat) : list event -> Prop :=
| no_check : check_noise out max_disk_usage n []
| check_passed usage :
    Qgt_bool usage max_disk_usage = false ->
    check_noise out max_disk_usage n [ EDiskUsage out usage; EPrint (MsgStatus n usage) ].

(** A recorded frame: what went into its record and its image. *)
Record row : Type := mkRow {
  row_ts : Z;
  row_hands : list json;
  row_body : json;
  row_image : image;
  row_written : bool           (* what cv2.imwrite returned *)
}.

(** The pose line of the [i]-th row. *)
Definition row_line (i : nat) (r : row) : text :=
  JsonLine (frame_pose i (row_ts r) (row_hands r) (row_body r)).

(** The frames recorded so far: [n] of them, pulled by the calls [k0],
    [k0 + 1], ..., stamped from clock readings of increasing number (the
    next one is at least [c]). *)
Inductive frames_logged (env : Env) (out : path) (max_disk_usage start_time : Q)
    (k0 c0 : nat) : nat -> nat -> list row -> list event -> Prop :=
| frames_none : frames_logged env out max_disk_usage start_time k0 c0 0 c0 [] []
| frames_snoc n c rows evs noise i img ok hands b hands_data body_data :
    frames_logged env out max_disk_usage start_time k0 c0 n c rows evs ->
    check_noise out max_disk_usage n noise ->
    (c <= i)%nat ->
    next_frame env (k0 + n) = inr (Some img, hands, b) ->
    hands_entries hands = inr hands_data ->
    body_entry b = inr body_data ->
    frames_logged env out max_disk_usage start_time k0 c0 (S n) (S i)
      (rows ++ [ mkRow (stamp_ms env start_time i) hands_data body_data img ok ])
      (evs ++ noise
           ++ frame_events out n (k0 + n) img ok
                (frame_pose n (stamp_ms env start_time i) hands_data body_data)).

(** How the loop is left without an exception: the flag was cleared, the
    duration limit was reached, the disk check tripped, or the source
    raised or ran dry.  The boolean is [running] at that point. *)
Inductive loop_exit (env : Env) (out : path) (max_duration max_disk_usage start_time : Q)
    (n k : nat) : bool -> list event -> Prop :=
| exit_stopped :
    loop_exit env out max_duration max_disk_usage start_time n k false []
| exit_limit i :
    Qgt_bool (time_time env i - start_time) max_duration = true ->
    loop_exit env out max_duration max_disk_usage start_time n k true
      [ EPrint (MsgLimit max_duration) ]
| exit_disk usage :
    Qgt_bool usage max_disk_usage = true ->
    loop_exit env out max_duration max_disk_usage start_time n k false
      [ EDiskUsage out usage; EPrint (MsgDiskHigh usage) ]
| exit_pull_error noise e :
    check_noise out max_disk_usage n noise ->
    next_frame env k = inl e ->
    loop_exit env out max_duration max_disk_usage start_time n k true
      (noise ++ [ ENextFrame k; EPrint (MsgFrameError e) ])
| exit_no_frame noise hands b :
    check_noise out max_disk_usage n noise ->
    next_frame env k = inr (None, hands, b) ->
    loop_exit env out max_duration max_disk_usage start_time n k true
      (noise ++ [ ENextFrame k; EPrint MsgNoFrame ]).

(** The intrinsics a session ends up with, and the console line of the
    fallback. *)
Definition session_intrinsics (t : tracker) : json :=
  match calibrated_intrinsics t with
  | inr j => j
  | inl _ => estimated_intrinsics t
  end.

Definition calibration_note (t : tracker) : list event :=
  match calibrated_intrinsics t with
  | inr _ => []
  | inl e => [ EPrint (MsgNoCalibration e) ]
  end.

Definition camera_info_text (t : tracker) : text :=
  JsonDoc 2 (JObj [ ("intrinsics", session_intrinsics t) ]).

Definition header_text (t : tracker) : text := JsonLine (header (session_intrinsics t)).

Definition folders_events (out : path) (t : tracker) : list event :=
  [ EMkdir out true; EMkdir (rgb_dir out) false; EPrint (MsgStarted (List.last out "")) ]
    ++ calibration_note t.

Definition opening_events (out : path) (t : tracker) : list event :=
  folders_events out t
    ++ write_events (camera_info_file out) ModeW (camera_info_text t)
    ++ write_events (poses_file out) ModeW (header_text t).

Definition aborted_openings (out : path) (t : tracker) : list (list event) :=
  [] :: [ EMkdir out true ]
     :: List.map (app (folders_events out t))
          (aborted_write (camera_info_file out) ModeW (camera_info_text t))
     ++ List.map (app (folders_events out t
                         ++ write_events (camera_info_file out) ModeW (camera_info_text t)))
          (aborted_write (poses_file out) ModeW (header_text t)).

Definition metadata_text (now : datetime) (n : nat) (tss : list Z) : text :=
  JsonDoc 2 (metadata now n tss).

Definition closing_events (out : path) (exit_call : nat) (now : datetime) (n : nat)
    (tss : list Z) : list event :=
  ETrackerExit exit_call
    :: (if (0 <? n)%nat
        then write_events (metadata_file out) ModeW (metadata_text now n tss)
               ++ [ EPrint (MsgComplete n (actual_duration tss)) ]
        else [ EPrint MsgNoFramesRecorded ]).

Definition aborted_closings (out : path) (exit_call : nat) (now : datetime) (n : nat)
    (tss : list Z) : list (list event) :=
  List.map (cons (ETrackerExit exit_call))
    (aborted_write (metadata_file out) ModeW (metadata_text now n tss)).

(** Collaborators under which nothing but the tracker can raise: storage
    works, the disk can be sampled, and every detection carries what the
    loop reads unguarded. *)
Definition cooperative (env : Env) : Prop :=
  (forall k, storage_fault env k = None)
  /\ (forall k, exists ok, imwrite_result env k = inr ok)
  /\ (forall k, exists total used free,
         disk_usage env k = inr (total, used, free) /\ total <> 0%Z)
  /\ (forall k img hands b,
         next_frame env k = inr (Some img, hands, b) ->
         (exists hands_data, hands_entries hands = inr hands_data)
         /\ (exists body_data, body_entry b = inr body_data)).

Definition storage_faulty (env : Env) : Prop :=
  exists k e, storage_fault env k = Some e.

(** A hand the loop can normalise: the two attributes it reads unguarded,
    [label] and [lm_score], are there and not [None]. *)
Definition hand_ok (h : hand) : Prop :=
  (exists s, label h = Has s) /\ (exists x, lm_score h = Has x).

(** A bag whose body, if it has one, can be normalised: [keypoints] is
    not [None], and [scores] is not [None] beside existing keypoints. *)
Definition body_ok (b : bag) : Prop :=
  forall bd,
    bag_body b = Some bd ->
    keypoints bd <> IsNone /\ (keypoints bd = Missing \/ scores bd <> IsNone).

(** The image and the record of frame [n] come from the call number [k]
    of [next_frame]. *)
Definition from_pull (env : Env) (start_time : Q) (k n : nat) (img : image) (line : json)
    : Prop :=
  exists hands b hands_data body_data i,
    next_frame env k = inr (Some img, hands, b)
    /\ hands_entries hands = inr hands_data
    /\ body_entry b = inr body_data
    /\ line = frame_pose n (stamp_ms env start_time i) hands_data body_data.

(** The verification gate: the tracker was constructed and the first pull
    delivered a frame. *)
Definition verified (env : Env) (w : World) : bool :=
  match tracker_init env (n_init w) with
  | inl _ => false
  | inr _ =>
      match next_frame env (n_frame w) with
      | inr (Some _, _, _) => true
      | _ => false
      end
  end.

(** The log up to the gate. *)
Definition gate_events (w : World) : list event :=
  [ EPrint MsgInitializing; ETrackerInit (n_init w);
    EPrint MsgTesting; ENextFrame (n_frame w) ].

(** How a session that passed the gate and opened its folder ends: by
    returning, by an exception while a frame is persisted, by an exception
    while the summary is written, or (in the model) by running out of fuel.
    The boolean is [running] when it ends. *)
Inductive session_end (env : Env) (out : path) (max_duration max_disk_usage start_time : Q)
    (k0 n : nat) (tss : list Z) : outcome bool -> bool -> list event -> list event -> Prop :=
| end_returned r0 r last exit_call now :
    loop_exit env out max_duration max_disk_usage start_time n (k0 + n) r0 last ->
    (r0 = false -> r = false) ->
    session_end env out max_duration max_disk_usage start_time k0 n tss
      (Ret r) r last (closing_events out exit_call now n tss)
| end_frame_aborted e r noise img ok line blk :
    ~ cooperative env ->
    check_noise out max_disk_usage n noise ->
    In blk (aborted_frames out n (k0 + n) img ok line) ->
    blk = [] \/ blk = [ ENextFrame (k0 + n) ]
      \/ from_pull env start_time (k0 + n) n img line ->
    session_end env out max_duration max_disk_usage start_time k0 n tss
      (Raise e) r (noise ++ blk) []
| end_closing_aborted e r r0 last exit_call now closing :
    storage_faulty env ->
    loop_exit env out max_duration max_disk_usage start_time n (k0 + n) r0 last ->
    (0 < n)%nat ->
    In closing (aborted_closings out exit_call now n tss) ->
    session_end env out max_duration max_disk_usage start_time k0 n tss
      (Raise e) r last closing
| end_out_of_fuel r :
    session_end env out max_duration max_disk_usage start_time k0 n tss Timeout r [] [].

(** Console lines and calls of the tracker. *)
Definition console_or_tracker (ev : event) : bool :=
  match ev with
  | EPrint _ | ETrackerInit _ | ENextFrame _ | ETrackerExit _ => true
  | _ => false
  end.

Definition is_sleep (ev : event) : bool :=
  match ev with
  | ESleep _ => true
  | _ => false
  end.

(** ** Reading the layout back *)

(** [v[key]] on a decoded JSON object. *)
Definition field (key : string) (v : json) : option json :=
  match v with
  | JObj fields => dict_get key fields
  | _ => None
  end.

(** The frame records among the lines of a pose stream. *)
Definition frame_records (chunks : list text) : list json :=
  flat_map (fun c =>
              match c with
              | JsonLine v =>
                  match field "_type" v with
                  | Some (JStr "frame") => [ v ]
                  | _ => []
                  end
              | _ => []
              end) chunks.

Definition int_field (key : string) (v : json) : list Z :=
  match field key v with
  | Some (JInt z) => [ z ]
  | _ => []
  end.

(** The [frame_idx] and [timestamp_ms] columns of a pose stream. *)
Definition frame_indices (chunks : list text) : list Z :=
  flat_map (int_field "frame_idx") (frame_records chunks).

Definition frame_timestamps (chunks : list text) : list Z :=
  flat_map (int_field "timestamp_ms") (frame_records chunks).

(** The strings a file holds (none when it is absent or an image). *)
Definition stored_text (s : storage) (p : path) : list text :=
  match files s !! p with
  | Some (Text chunks) => chunks
  | _ => []
  end.

(** The lines of the rows recorded by a session. *)
Definition session_lines (rows : list row) : list text := imap row_line rows.

(** The wall clock never steps back. *)
Definition clock_monotone (env : Env) : Prop :=
  forall i j, (i <= j)%nat -> (time_time env i <= time_time env j)%Q.

(** The calls of [cv2.imwrite] in a log, in order. *)
Definition image_writes (evs : list event) : list (path * image * bool) :=
  flat_map (fun ev =>
              match ev with
              | EImwrite p img _ ok => [ (p, img, ok) ]
              | _ => []
              end) evs.

(** The strings handed to [write] on a path, in order. *)
Definition written (p : path) (evs : list event) : list text :=
  flat_map (fun ev =>
              match ev with
              | EWrite q t => if path_eqb q p then [ t ] else []
              | _ => []
              end) evs.

(** A disk sample above the threshold. *)
Definition tripped (max_disk_usage : Q) (ev : event) : bool :=
  match ev with
  | EDiskUsage _ usage => Qgt_bool usage max_disk_usage
  | _ => false
  end.

(** An event on the file [p]. *)
Definition concerns (p : path) (ev : event) : bool :=
  match ev with
  | EOpen q _ | EWrite q _ | EClose q | EImwrite q _ _ _ => path_eqb q p
  | _ => false
  end.

(** ** Scenarios *)

(** A world at program start. *)
Definition fresh : World := mkWorld true [] 0 0 0 0 0 0 0 0 0.

Definition empty_storage : storage := mkStorage ∅ ∅ ∅.

(** A tracker whose calibration cannot be read. *)
Definition plain_tracker : tracker :=
  mkTracker (1920, 1080)%Z (inl (RuntimeError "no calibration")).

Definition right_hand : hand :=
  mkHand (Has "right") (Has (NFloat (9 # 10)))
         (Has (Arr [ Arr [ Scalar (NInt 10); Scalar (NInt 20) ] ]))
         Missing IsNone.

(** A camera that delivers three frames after the verification frame and
    then runs dry, with a clock that advances by one second per reading. *)
Definition steady : Env :=
  {| tracker_init := fun _ => inr plain_tracker;
     next_frame := fun k =>
       if (k <? 4)%nat then inr (Some k, [ right_hand ], None) else inr (None, [], None);
     tracker_exit := fun _ => None;
     time_time := fun i => inject_Z (Z.of_nat i);
     disk_usage := fun _ => inr (100, 50, 50)%Z;
     signal_seen := fun _ => false;
     storage_fault := fun _ => None;
     imwrite_result := fun _ => inr true;
     datetime_now := fun _ => mkDatetime "2024-05-01T10:00:00" "20240501_100000" |}.

Definition session_dir : path := [ "recordings"; "session_20240501_100000" ].

(** The same camera under a wall clock that is set back two seconds
    between the first and the second frame (readings 1 and 3). *)
Definition stepping_back : Env :=
  {| tracker_init := tracker_init steady;
     next_frame := next_frame steady;
     tracker_exit := tracker_exit steady;
     time_time := fun i =>
       match i with
       | 0%nat => 100
       | 1%nat | 2%nat => 105
       | 3%nat => 103
       | _ => 106
       end%Q;
     disk_usage := disk_usage steady;
     signal_seen := signal_seen steady;
     storage_fault := storage_fault steady;
     imwrite_result := imwrite_result steady;
     datetime_now := datetime_now steady |}.

(** A detection without a [label] attribute. *)
Definition unlabelled_hand : hand :=
  mkHand Missing (Has (NFloat (9 # 10)))
         (Has (Arr [ Arr [ Scalar (NInt 10); Scalar (NInt 20) ] ]))
         Missing Missing.

(** The steady camera, except that its detections carry no label. *)
Definition unlabelled : Env :=
  {| tracker_init := tracker_init steady;
     next_frame := fun k =>
       if (k <? 4)%nat then inr (Some k, [ unlabelled_hand ], None)
       else inr (None, [], None);
     tracker_exit := tracker_exit steady;
     time_time := time_time steady;
     disk_usage := disk_usage steady;
     signal_seen := signal_seen steady;
     storage_fault := storage_fault steady;
     imwrite_result := imwrite_result steady;
     datetime_now := datetime_now steady |}.

(** What the optional attributes of a detection turn into. *)
Definition landmarks_or_empty (a : attr ndarray) : json :=
  match present a with
  | Some arr => tolist arr
  | None => JList []
  end.

(** The number of names a header line lists under [key]. *)
Definition names_count (key : string) (chunks : list text) : option nat :=
  match chunks with
  | JsonLine h :: _ =>
      match field key h with
      | Some (JList names) => Some (length names)
      | _ => None
      end
  | _ => None
  end.

(** A pose stream as the layout describes it: a header line with the two
    fixed schemas, then frame lines only. *)
Definition header_then_frames (chunks : list text) : Prop :=
  exists h rest,
    chunks = JsonLine h :: rest
    /\ field "_type" h = Some (JStr "header")
    /\ field "landmark_names" h = Some (JList (List.map JStr HAND_LANDMARK_NAMES))
    /\ field "body_keypoint_names" h = Some (JList (List.map JStr BODY_KEYPOINT_NAMES))
    /\ names_count "landmark_names" chunks = Some 21%nat
    /\ names_count "body_keypoint_names" chunks = Some 17%nat
    /\ Forall (fun c => exists v, c = JsonLine v /\ field "_type" v = Some (JStr "frame"))
         rest.

(** The steady camera on a disk that fills up: the flush of the first
    frame record (the eleventh storage operation) raises. *)
Definition disk_full : Env :=
  {| tracker_init := tracker_init steady;
     next_frame := next_frame steady;
     tracker_exit := tracker_exit steady;
     time_time := time_time steady;
     disk_usage := disk_usage steady;
     signal_seen := signal_seen steady;
     storage_fault := fun k =>
       if (k =? 10)%nat then Some (OSError "No space left on device") else None;
     imwrite_result := imwrite_result steady;
     datetime_now := datetime_now steady |}.

(** The folder and the world with which a turn of the session loop calls
    [record_session]: the flag has been read, the clock has named the
    folder. *)
Definition next_session (env : Env) (args : arguments) (w : World) : path * World :=
  (child (recordings_dir args) ("session_" ++ stamp (datetime_now env (n_now w))),
   bump_now (bump_signal
               (set_running_flag (running w && negb (signal_seen env (n_signal w))) w))).

(** The steady camera on a disk that is 95% full; the clock advances by
    ten seconds per reading, so that the second turn of the loop samples
    the disk, after one frame. *)
Definition nearly_full : Env :=
  {| tracker_init := tracker_init steady;
     next_frame := next_frame steady;
     tracker_exit := tracker_exit steady;
     time_time := fun i => inject_Z (10 * Z.of_nat i);
     disk_usage := fun _ => inr (100, 95, 5)%Z;
     signal_seen := signal_seen steady;
     storage_fault := storage_fault steady;
     imwrite_result := imwrite_result steady;
     datetime_now := datetime_now steady |}.

Definition default_arguments : arguments := mkArgs [ "recordings" ] 3600 90.

(** The steady camera under a clock that does not advance: every frame is
    stamped 0. *)
Definition frozen : Env :=
  {| tracker_init := tracker_init steady;
     next_frame := next_frame steady;
     tracker_exit := tracker_exit steady;
     time_time := fun _ => 0%Q;
     disk_usage := disk_usage steady;
     signal_seen := signal_seen steady;
     storage_fault := storage_fault steady;
     imwrite_result := imwrite_result steady;
     datetime_now := datetime_now steady |}.

(** The nearly full disk on which the summary cannot be written any more:
    opening [metadata.json], the twelfth storage operation of the session,
    raises. *)
Definition summary_unwritable : Env :=
  {| tracker_init := tracker_init nearly_full;
     next_frame := next_frame nearly_full;
     tracker_exit := tracker_exit nearly_full;
     time_time := time_time nearly_full;
     disk_usage := disk_usage nearly_full;
     signal_seen := signal_seen nearly_full;
     storage_fault := fun k =>
       if (k =? 11)%nat then Some (OSError "No space left on device") else None;
     imwrite_result := imwrite_result nearly_full;
     datetime_now := datetime_now nearly_full |}.

(** ** The handle discipline of the pose stream *)

(** The handle of one file as a session may use it: not touched yet,
    closed, open with nothing written, open with one line written. *)
Inductive handle : Type := Untouched | HClosed | HOpen | HPending.

(** One event under the discipline "truncate once, then one complete line
    per handle": [None] when the event breaks it. *)
Definition handle_step (p : path) (h : handle) (ev : event) : option handle :=
  match ev with
  | EOpen q m =>
      if path_eqb q p then
        match m, h with
        | ModeW, Untouched => Some HOpen
        | ModeA, HClosed => Some HOpen
        | _, _ => None
        end
      else Some h
  | EWrite q t =>
      if path_eqb q p then
        match t, h with
        | JsonLine _, HOpen => Some HPending
        | _, _ => None
        end
      else Some h
  | EClose q =>
      if path_eqb q p then
        match h with
        | HOpen | HPending => Some HClosed
        | _ => None
        end
      else Some h
  | EImwrite q _ _ _ => if path_eqb q p then None else Some h
  | _ => Some h
  end.

Fixpoint handle_run (p : path) (h : handle) (evs : list event) : option handle :=
  match evs with
  | [] => Some h
  | ev :: rest =>
      match handle_step p h ev with
      | Some h' => handle_run p h' rest
      | None => None
      end
  end.

(** What the handle state says about the file and the buffer, [lines]
    being the strings handed to [write] so far and [initial] what the file
    held before. *)
Definition handle_view (initial : option fcontent) (h : handle) (v : view)
    (lines : list text) : Prop :=
  match h with
  | Untouched => lines = [] /\ fst v = initial
  | HClosed => v = (Some (Text lines), None)
  | HOpen => v = (Some (Text lines), Some [])
  | HPending => exists flushed_lines l,
      lines = flushed_lines ++ [ l ] /\ v = (Some (Text flushed_lines), Some [ l ])
  end.

Definition is_line (t : text) : Prop := exists v, t = JsonLine v.

(** ** Vocabulary of the further properties *)



(** The number a list of digits stands for, least significant first. *)
Fixpoint digits_value (ds : list ascii) : nat :=
  match ds with
  | [] => 0
  | d :: rest => (nat_of_ascii d - 48) + 10 * digits_value rest
  end.

(** Every run of [m] takes a world to one that [R] relates to it. *)
Definition respects {A} (R : World -> World -> Prop) (m : M A) : Prop :=
  forall w, R w (snd (m w)).

(** The reads of [running] numbered [a], ..., [b - 1] saw no signal. *)
Definition quiet (env : Env) (a b : nat) : Prop :=
  forall k, (a <= k < b)%nat -> signal_seen env k = false.

(** A signal was seen at one of the reads numbered [a], ..., [b - 1]. *)
Definition signalled (env : Env) (a b : nat) : Prop :=
  exists k, (a <= k < b)%nat /\ signal_seen env k = true.

(** What can happen to the run flag between a world and a later one: the
    log and the number of reads grow; the flag is still set only if it
    was set and no read in between saw a signal; and it is cleared only
    by such a signal or beside a disk sample above the threshold. *)
Definition flag_step (env : Env) (max_disk_usage : Q) (w w' : World) : Prop :=
  exists evs,
    log w' = log w ++ evs
    /\ (n_signal w <= n_signal w')%nat
    /\ (running w' = true -> running w = true /\ quiet env (n_signal w) (n_signal w'))
    /\ (running w = true -> running w' = false ->
        signalled env (n_signal w) (n_signal w')
        \/ Exists (fun ev => tripped max_disk_usage ev = true) evs).

(** The steady camera with Ctrl+C pressed while the second frame is being
    recorded: the third read of the flag is the first to see it. *)
Definition interrupted : Env :=
  {| tracker_init := tracker_init steady;
     next_frame := next_frame steady;
     tracker_exit := tracker_exit steady;
     time_time := time_time steady;
     disk_usage := disk_usage steady;
     signal_seen := fun k => (2 <=? k)%nat;
     storage_fault := storage_fault steady;
     imwrite_result := imwrite_result steady;
     datetime_now := datetime_now steady |}.

(** The path an event names, if it names one. *)
Definition event_path (ev : event) : option path :=
  match ev with
  | EDiskUsage p _ | EMkdir p _ | EOpen p _ | EWrite p _ | EClose p | EImwrite p _ _ _ =>
      Some p
  | _ => None
  end.

(** [ev] names no path outside the directory [root]. *)
Definition within (root : path) (ev : event) : Prop :=
  match event_path ev with
  | Some p => root `prefix_of` p
  | None => True
  end.

(** From [w] to [w'] the log grew by events within [root] only. *)
Definition stays_within (root : path) (w w' : World) : Prop :=
  exists evs, log w' = log w ++ evs /\ Forall (within root) evs.

(** A file that is none of the recorder's business. *)
Definition elsewhere : path := [ "home"; "pi"; "notes.txt" ].

(** The world in which a session that passed the gate starts to write. *)
Definition gate_world (w : World) : World :=
  bump_frame
    (add_event (ENextFrame (n_frame w))
       (add_event (EPrint MsgTesting)
          (bump_init
             (add_event (ETrackerInit (n_init w))
                (add_event (EPrint MsgInitializing) w))))).

(** A world whose run flag was cleared before the session starts. *)
Definition flag_down : World := set_running_flag false fresh.

(** The life of the tracker object, as the log tells it: constructing
    needs no live tracker, pulling and releasing need a live one. *)
Inductive lifecycle : Type := NotBuilt | Live | Released.

Definition lifecycle_step (env : Env) (s : lifecycle) (ev : event) : option lifecycle :=
  match ev with
  | ETrackerInit k =>
      match s with
      | Live => None
      | _ =>
          match tracker_init env k with
          | inr _ => Some Live
          | inl _ => Some s
          end
      end
  | ENextFrame _ =>
      match s with
      | Live => Some Live
      | _ => None
      end
  | ETrackerExit _ =>
      match s with
      | Live => Some Released
      | _ => None
      end
  | _ => Some s
  end.

Fixpoint lifecycle_run (env : Env) (s : lifecycle) (evs : list event) : option lifecycle :=
  match evs with
  | [] => Some s
  | ev :: rest =>
      match lifecycle_step env s ev with
      | Some s' => lifecycle_run env s' rest
      | None => None
      end
  end.

(** An event that is no call of the tracker. *)
Definition idle (ev : event) : bool :=
  match ev with
  | ETrackerInit _ | ENextFrame _ | ETrackerExit _ => false
  | _ => true
  end.

(** What a turn of the session loop logs when the tracker cannot be
    constructed: the failed attempt, its back-off, and the pause before
    the next turn. *)
Definition failed_attempt (k : nat) (e : exn) : list event :=
  [ EPrint MsgInitializing; ETrackerInit k; EPrint (MsgInitError e); EPrint MsgRetry;
    ESleep 5; EPrint MsgNewSession; ESleep 2 ].

Fixpoint retries (env : Env) (k n : nat) : list event :=
  match n with
  | O => []
  | S n' =>
      match tracker_init env k with
      | inl e => failed_attempt k e ++ retries env (S k) n'
      | inr _ => []
      end
  end.

(** The banner of [main]. *)
Definition banner (args : arguments) : list event :=
  [ EPrint MsgRule; EPrint MsgTitle; EPrint MsgRule;
    EPrint (MsgRecordingsDir (recordings_dir args));
    EPrint (MsgSessionDuration (session_duration args));
    EPrint (MsgMaxDisk (max_disk_usage_arg args));
    EPrint MsgPressCtrlC; EPrint MsgRule ].

(** No camera is plugged in. *)
Definition unplugged : Env :=
  {| tracker_init := fun _ => inl (RuntimeError "No available devices");
     next_frame := next_frame steady;
     tracker_exit := tracker_exit steady;
     time_time := time_time steady;
     disk_usage := disk_usage steady;
     signal_seen := signal_seen steady;
     storage_fault := storage_fault steady;
     imwrite_result := imwrite_result steady;
     datetime_now := datetime_now steady |}.

Definition is_mkdir (ev : event) : bool :=
  match ev with
  | EMkdir _ _ => true
  | _ => false
  end.

(** A tracker whose calibration can be read, at a resolution that is not
    the one the calibration is asked for. *)
Definition calibrated_tracker : tracker :=
  mkTracker (1280, 720)%Z
    (inr [ [ 1500; 0; 960 ]; [ 0; 1500; 540 ]; [ 0; 0; 1 ] ]%Q).

Definition calibrated : Env :=
  {| tracker_init := fun _ => inr calibrated_tracker;
     next_frame := next_frame steady;
     tracker_exit := tracker_exit steady;
     time_time := time_time steady;
     disk_usage := disk_usage steady;
     signal_seen := signal_seen steady;
     storage_fault := storage_fault steady;
     imwrite_result := imwrite_result steady;
     datetime_now := datetime_now steady |}.

(** The oracles of storage, of [cv2.imwrite] and of the disk sample were
    consulted as often in [w'] as in [w]. *)
Definition same_counters (w w' : World) : Prop :=
  n_storage w' = n_storage w /\ n_imwrite w' = n_imwrite w /\ n_disk w' = n_disk w.

(** From [w] to [w'] no storage operation raised, [cv2.imwrite] did not
    raise, and every disk sample could be taken and divided. *)
Definition met_no_fault (env : Env) (w w' : World) : Prop :=
  ((n_storage w <= n_storage w')%nat
   /\ forall k, (n_storage w <= k < n_storage w')%nat -> storage_fault env k = None)
  /\ ((n_imwrite w <= n_imwrite w')%nat
      /\ forall k, (n_imwrite w <= k < n_imwrite w')%nat ->
                   exists ok, imwrite_result env k = inr ok)
  /\ ((n_disk w <= n_disk w')%nat
      /\ forall k, (n_disk w <= k < n_disk w')%nat ->
                   exists total used free,
                     disk_usage env k = inr (total, used, free) /\ total <> 0%Z).

(** A computation that returns only if it met no such fault: none is
    swallowed on the way to a result. *)
Definition faultless {A} (env : Env) (m : M A) : Prop :=
  forall w,
    match m w with
    | (Ret _, w') => met_no_fault env w w'
    | _ => True
    end.

(** * Proofs *)

(** ** Symbolic execution *)

Ltac unfold_monad :=
  cbv beta iota zeta delta
    [mbind M_bind bind mret M_ret ret raise out_of_fuel try_except finally lift
     emit print sleep read_running clear_running HandTracker pull_frame exit_tracker
     release now_seconds now_datetime get_disk_usage_percent storage_op mkdir
     with_open write imwrite
     set_running_flag add_event bump_init bump_frame bump_exit bump_time bump_disk
     bump_signal bump_storage bump_imwrite bump_now
     running log n_init n_frame n_exit n_time n_disk n_signal n_storage n_imwrite n_now
     frame_count timestamps last_status_time
     fst snd].

Ltac unfold_monad_in H :=
  cbv beta iota zeta delta
    [mbind M_bind bind mret M_ret ret raise out_of_fuel try_except finally lift
     emit print sleep read_running clear_running HandTracker pull_frame exit_tracker
     release now_seconds now_datetime get_disk_usage_percent storage_op mkdir
     with_open write imwrite
     set_running_flag add_event bump_init bump_frame bump_exit bump_time bump_disk
     bump_signal bump_storage bump_imwrite bump_now
     running log n_init n_frame n_exit n_time n_disk n_signal n_storage n_imwrite n_now
     frame_count timestamps last_status_time
     fst snd] in H.

(** Case split on the scrutinee of an innermost [match] of the goal. *)
Ltac split_match :=
  match goal with
  | |- context [match ?x with _ => _ end] =>
      lazymatch x with
      | context [match _ with _ => _ end] => fail
      | _ => destruct x eqn:?
      end
  end.

Ltac run := unfold_monad; repeat (split_match; unfold_monad).

Ltac tidy_log := rewrite <- ?app_assoc; cbn [app].

(** [lg ++ evs = lg ++ ?x] *)
Ltac log_eq := cbn [app]; first [ reflexivity | symmetry; apply app_nil_r ].

(** Membership in an explicit list of shapes. *)
Ltac one_of := cbn; repeat first [ left; reflexivity | right ].

(** The disk check of the turn left nothing, or a status line. *)
Ltac with_noise tac :=
  first [ solve [ exists []; tac ] | solve [ eexists [ _; _ ]; tac ] ].

(** What a test of [running] has told. *)
Ltac flag_facts :=
  repeat match goal with
    | H : negb ?b = true |- _ => apply negb_true_iff in H; rewrite ?H
    | H : negb ?b = false |- _ => apply negb_false_iff in H; rewrite ?H
    end.

(** A raise that the oracles explain is impossible among cooperative
    collaborators. *)
Ltac not_cooperative :=
  let H := fresh in
  intros (Hs & Hi & Hd & Hn);
  repeat match goal with
    | E : storage_fault _ ?k = Some _ |- _ => rewrite (Hs k) in E; discriminate E
    | E : imwrite_result _ ?k = inl _ |- _ =>
        destruct (Hi k) as [? H]; rewrite H in E; discriminate E
    | E : disk_usage _ ?k = inl _ |- _ =>
        destruct (Hd k) as (? & ? & ? & H & _); rewrite H in E; discriminate E
    | E : disk_usage _ ?k = inr _, E0 : (_ =? 0)%Z = true |- _ =>
        destruct (Hd k) as (? & ? & ? & H & H0); rewrite H in E;
        injection E as <- <- <-; apply Z.eqb_eq in E0; contradiction
    | E : next_frame _ ?k = inr (Some _, _, _), E1 : hands_entries _ = inl _ |- _ =>
        destruct (Hn _ _ _ _ E) as [[? H] _]; rewrite H in E1; discriminate E1
    | E : next_frame _ ?k = inr (Some _, _, _), E1 : body_entry _ = inl _ |- _ =>
        destruct (Hn _ _ _ _ E) as [_ [? H]]; rewrite H in E1; discriminate E1
    end.

(** The storage oracle raised. *)
Ltac storage_raised :=
  match goal with
  | E : storage_fault _ ?k = Some ?e |- storage_faulty _ => exists k, e; exact E
  end.

(** One turn of the frame loop. *)
Lemma frame_step_spec env out maxd maxu start st w :
  match frame_step env out maxd maxu start st w with
  | (Ret (Continue, st'), w') =>
      exists noise img ok hands b hd bd,
        check_noise out maxu (frame_count st) noise
        /\ next_frame env (n_frame w) = inr (Some img, hands, b)
        /\ hands_entries hands = inr hd
        /\ body_entry b = inr bd
        /\ frame_count st' = S (frame_count st)
        /\ timestamps st' = timestamps st ++ [ stamp_ms env start (n_time w) ]
        /\ log w' = log w ++ noise
                      ++ frame_events out (frame_count st) (n_frame w) img ok
                           (frame_pose (frame_count st) (stamp_ms env start (n_time w)) hd bd)
        /\ n_frame w' = S (n_frame w)
        /\ (n_time w < n_time w')%nat
        /\ Qgt_bool (time_time env (n_time w) - start) maxd = false
  | (Ret (Break, st'), w') =>
      frame_count st' = frame_count st
      /\ timestamps st' = timestamps st
      /\ exists last,
           loop_exit env out maxd maxu start (frame_count st) (n_frame w) (running w') last
           /\ log w' = log w ++ last
  | (Raise e, w') =>
      ~ cooperative env
      /\ exists noise img ok line blk,
           check_noise out maxu (frame_count st) noise
           /\ In blk (aborted_frames out (frame_count st) (n_frame w) img ok line)
           /\ log w' = log w ++ noise ++ blk
           /\ (blk = [] \/ blk = [ ENextFrame (n_frame w) ]
               \/ from_pull env start (n_frame w) (frame_count st) img line)
  | (Timeout, _) => False
  end.
Proof.
  destruct w as [rn lg ni nf ne nt nd ns nst nim nn].
  destruct st as [fc tss last].
  unfold frame_step, disk_check, persist_frame.
  run; tidy_log; flag_facts.
  all: try (split; [ not_cooperative | ]).
  all: try (split; [ reflexivity | split; [ reflexivity | ] ];
            eexists; split; cycle 1; [ log_eq | ]).
  all: try solve [ constructor; assumption | econstructor; eassumption ].
  all: try solve [ apply (exit_pull_error _ _ _ _ _ _ _ []); [ constructor | assumption ]
                 | apply (exit_no_frame _ _ _ _ _ _ _ []) with (hands := l) (b := b);
                     [ constructor | assumption ]
                 | apply (exit_pull_error _ _ _ _ _ _ _ [ _; _ ]);
                     [ constructor; assumption | assumption ]
                 | apply (exit_no_frame _ _ _ _ _ _ _ [ _; _ ]) with (hands := l) (b := b);
                     [ constructor; assumption | assumption ] ].
  all: try solve [ with_noise ltac:(
           exists 0%nat, true, JNull; eexists;
           split; [ constructor; eassumption | ];
           split; [ | split; [ log_eq | auto ] ]; one_of) ].
  all: try solve [ with_noise ltac:(
           do 3 eexists; eexists;
           split; [ constructor; eassumption | ];
           split; [ | split; [ log_eq | ] ];
           [ one_of
           | right; right; unfold from_pull, stamp_ms; do 4 eexists; exists nt;
             repeat split; try eassumption; reflexivity ]) ].
  all: try solve [ with_noise ltac:(
           do 6 eexists; split; [ constructor; eassumption | ];
           repeat split; try eassumption; try reflexivity; lia) ].
Qed.

(** The whole loop: the frames recorded, then how it was left. *)
Lemma frame_loop_spec env out maxd maxu start k0 c0 base fuel :
  forall st w n c rows evs,
    frames_logged env out maxu start k0 c0 n c rows evs ->
    frame_count st = n ->
    timestamps st = List.map row_ts rows ->
    log w = base ++ evs ->
    n_frame w = (k0 + n)%nat ->
    (c <= n_time w)%nat ->
    match frame_loop env fuel out maxd maxu start st w with
    | (o, w') =>
        exists n' c' rows' evs' last,
          frames_logged env out maxu start k0 c0 n' c' rows' evs'
          /\ log w' = base ++ evs' ++ last
          /\ match o with
             | Ret st' =>
                 frame_count st' = n' /\ timestamps st' = List.map row_ts rows'
                 /\ loop_exit env out maxd maxu start n' (k0 + n') (running w') last
             | Raise e =>
                 ~ cooperative env
                 /\ exists noise img ok line blk,
                      check_noise out maxu n' noise
                      /\ In blk (aborted_frames out n' (k0 + n') img ok line)
                      /\ last = noise ++ blk
                      /\ (blk = [] \/ blk = [ ENextFrame (k0 + n') ]
                          \/ from_pull env start (k0 + n') n' img line)
             | Timeout => last = []
             end
    end.
Proof.
  induction fuel as [ | fuel IH ]; intros st w n c rows evs Hfr Hn Hts Hlog Hk Hc.
  - cbn. exists n, c, rows, evs, []. rewrite app_nil_r. auto.
  - cbn [frame_loop]. unfold mbind, M_bind, bind.
    pose proof (frame_step_spec env out maxd maxu start st w) as Hstep.
    destruct (frame_step env out maxd maxu start st w) as [ [ [ [ | ] st' ] | e | ] w' ].
    + destruct Hstep as (Hn' & Hts' & last & Hexit & Hlog').
      exists n, c, rows, evs, last. split; [ exact Hfr | ].
      split; [ rewrite Hlog', Hlog, <- app_assoc; reflexivity | ].
      cbn. rewrite Hn', Hts', Hn, Hk in *. auto.
    + destruct Hstep as (noise & img & ok & hands & b & hd & bd & Hnoise & Hpull & Hhd & Hbd
                         & Hn' & Hts' & Hlog' & Hk' & Hc' & _).
      rewrite Hn, Hk in *.
      apply (IH st' w' (S n) (S (n_time w))
               (rows ++ [ mkRow (stamp_ms env start (n_time w)) hd bd img ok ])
               (evs ++ noise
                  ++ frame_events out n (k0 + n) img ok
                       (frame_pose n (stamp_ms env start (n_time w)) hd bd))).
      * econstructor; eassumption.
      * exact Hn'.
      * rewrite Hts', Hts, List.map_app. reflexivity.
      * rewrite Hlog', Hlog, <- app_assoc. reflexivity.
      * rewrite Hk'. lia.
      * lia.
    + destruct Hstep as (Hcoop & noise & img & ok & line & blk & Hnoise & Hblk & Hlog'
                         & Hfrom).
      exists n, c, rows, evs, (noise ++ blk). split; [ exact Hfr | ].
      split; [ rewrite Hlog', Hlog, <- app_assoc; reflexivity | ].
      rewrite Hn, Hk in *. split; [ exact Hcoop | ].
      exists noise, img, ok, line, blk. auto.
    + destruct Hstep.
Qed.

(** Entering ACTIVE. *)
Lemma open_session_spec env out t w :
  match open_session env out t w with
  | (Ret (start, st), w') =>
      start = time_time env (n_time w)
      /\ st = mkLoop 0 [] start
      /\ log w' = log w ++ opening_events out t
      /\ running w' = running w
      /\ n_frame w' = n_frame w
      /\ n_time w' = S (n_time w)
  | (Raise e, w') =>
      storage_faulty env
      /\ exists evs, In evs (aborted_openings out t) /\ log w' = log w ++ evs
  | (Timeout, _) => False
  end.
Proof.
  destruct w as [rn lg ni nf ne nt nd ns nst nim nn].
  unfold open_session.
  unfold aborted_openings, opening_events, folders_events, camera_info_text, header_text,
    session_intrinsics, calibration_note.
  run; tidy_log.
  all: try (split; [ storage_raised | ]; eexists; split; cycle 1; [ log_eq | one_of ]).
  all: repeat split; reflexivity.
Qed.

(** DRAINING and CLOSED. *)
Lemma close_session_spec env out st w :
  match close_session env out st w with
  | (Ret r, w') =>
      r = running w'
      /\ (running w = false -> r = false)
      /\ log w' = log w
                    ++ closing_events out (n_exit w) (datetime_now env (n_now w))
                         (frame_count st) (timestamps st)
  | (Raise e, w') =>
      storage_faulty env
      /\ (0 < frame_count st)%nat
      /\ exists evs,
           In evs (aborted_closings out (n_exit w) (datetime_now env (n_now w))
                     (frame_count st) (timestamps st))
           /\ log w' = log w ++ evs
  | (Timeout, _) => False
  end.
Proof.
  destruct w as [rn lg ni nf ne nt nd ns nst nim nn].
  destruct st as [fc tss last].
  unfold close_session, closing_events, aborted_closings, metadata_text.
  run; tidy_log.
  all: try (split; [ storage_raised | ];
            split; [ apply Nat.ltb_lt; assumption | ];
            eexists; split; cycle 1; [ log_eq | one_of ]).
  all: repeat split; try reflexivity; intros ->; reflexivity.
Qed.

(** A session that passed the gate, from the first line of the log to
    the last. *)
Lemma record_session_spec env fuel out maxd maxu w :
  verified env w = true ->
  exists t,
    tracker_init env (n_init w) = inr t
    /\ match record_session env fuel out maxd maxu w with
       | (o, w') =>
           exists body,
             log w' = log w ++ gate_events w ++ body
             /\ ((exists e, o = Raise e /\ storage_faulty env
                            /\ In body (aborted_openings out t))
                 \/ exists n c rows frames last closing,
                      frames_logged env out maxu (time_time env (n_time w))
                        (S (n_frame w)) (S (n_time w)) n c rows frames
                      /\ body = opening_events out t ++ frames ++ last ++ closing
                      /\ session_end env out maxd maxu (time_time env (n_time w))
                           (S (n_frame w)) n (List.map row_ts rows) o (running w')
                           last closing)
       end.
Proof.
  intros Hv. unfold verified in Hv.
  destruct w as [rn lg ni nf ne nt nd ns nst nim nn]. cbn [n_init n_frame] in Hv.
  destruct (tracker_init env ni) as [ | t ] eqn:Ht; [ discriminate | ].
  destruct (next_frame env nf) as [ | [ [ [ img | ] hs ] b ] ] eqn:Hp; try discriminate.
  exists t. split; [ exact Ht | ].
  destruct (record_session env fuel out maxd maxu _) as [ o w' ] eqn:Hrun.
  unfold record_session, acquire, verify, gate_events in *.
  unfold_monad_in Hrun. rewrite Ht in Hrun. unfold_monad_in Hrun.
  rewrite Hp in Hrun. unfold_monad_in Hrun. cbn [log n_init n_frame].
  match type of Hrun with
  | context [open_session env out t ?w1] =>
      pose proof (open_session_spec env out t w1) as Ho;
      destruct (open_session env out t w1) as [ [ [ start st ] | e | ] w2 ]
  end; cbn [log n_frame n_time running] in Ho.
  - destruct Ho as (-> & -> & Hlog2 & Hrun2 & Hk2 & Hc2).
    match type of Hrun with
    | context [frame_loop env fuel out maxd maxu ?s ?st0 w2] =>
        pose proof (frame_loop_spec env out maxd maxu s (S nf) (S nt) (log w2) fuel
                      st0 w2 0%nat (S nt) [] [] (frames_none _ _ _ _ _ _)
                      eq_refl eq_refl) as Hl;
        destruct (frame_loop env fuel out maxd maxu s st0 w2) as [ o3 w3 ]
    end.
    destruct Hl as (n & c & rows & frames & last & Hfr & Hlog3 & Hend);
      [ symmetry; apply app_nil_r | rewrite Hk2; lia | rewrite Hc2; lia | ].
    destruct o3 as [ st3 | e | ].
    + destruct Hend as (Hn & Hts & Hexit).
      pose proof (close_session_spec env out st3 w3) as Hc.
      destruct (close_session env out st3 w3) as [ [ r | e | ] w4 ];
        injection Hrun as <- <-.
      * destruct Hc as (-> & Hstop & Hlog4). rewrite Hn, Hts in Hlog4.
        eexists. split; [ rewrite Hlog4, Hlog3, Hlog2; tidy_log; reflexivity | ].
        right. exists n, c, rows, frames, last. eexists.
        split; [ exact Hfr | ]. split; [ reflexivity | ].
        econstructor; eassumption.
      * destruct Hc as (Hcoop & Hpos & closing & Hin & Hlog4). rewrite Hn, Hts in *.
        eexists. split; [ rewrite Hlog4, Hlog3, Hlog2; tidy_log; reflexivity | ].
        right. exists n, c, rows, frames, last, closing.
        split; [ exact Hfr | ]. split; [ reflexivity | ].
        econstructor; eassumption.
      * destruct Hc.
    + injection Hrun as <- <-.
      destruct Hend as (Hcoop & noise & img' & ok & line & blk & Hnoise & Hin & -> & Hfrom).
      eexists. split; [ rewrite Hlog3, Hlog2; tidy_log; reflexivity | ].
      right. exists n, c, rows, frames, (noise ++ blk), [].
      split; [ exact Hfr | ]. split; [ rewrite app_nil_r; reflexivity | ].
      econstructor; eassumption.
    + injection Hrun as <- <-. subst last.
      eexists. split; [ rewrite Hlog3, Hlog2; tidy_log; reflexivity | ].
      right. exists n, c, rows, frames, [], [].
      split; [ exact Hfr | ]. split; [ reflexivity | ].
      constructor.
  - injection Hrun as <- <-. destruct Ho as (Hcoop & evs & Hin & Hlog2).
    exists evs. split; [ rewrite Hlog2; tidy_log; reflexivity | ].
    left. exists e. auto.
  - destruct Ho.
Qed.

(** ** Replaying logs *)

Lemma replay_app s evs1 evs2 : replay s (evs1 ++ evs2) = replay (replay s evs1) evs2.
Proof. apply fold_left_app. Qed.

Lemma apply_event_untouched s ev : touches_storage ev = false -> apply_event s ev = s.
Proof. destruct ev; cbn; intros H; try discriminate H; reflexivity. Qed.

Lemma replay_untouched s evs :
  Forall (fun ev => touches_storage ev = false) evs -> replay s evs = s.
Proof.
  intros H. induction H as [ | ev evs Hev _ IH ]; [ reflexivity | ].
  cbn. rewrite (apply_event_untouched s ev Hev). exact IH.
Qed.

(** ** The verification gate *)

(** A session attempt that does not pass the gate: what it returns and
    what it logs. *)
Lemma gate_failure env fuel out maxd maxu w :
  verified env w = false ->
  exists evs,
    fst (record_session env fuel out maxd maxu w)
      = Ret (running (snd (record_session env fuel out maxd maxu w)))
    /\ log (snd (record_session env fuel out maxd maxu w)) = log w ++ evs
    /\ evs = removelast evs ++ [ ESleep 5 ]
    /\ Forall (fun ev => console_or_tracker ev = true) (removelast evs).
Proof.
  intros Hv. unfold verified in Hv.
  destruct w as [rn lg ni nf ne nt nd ns nst nim nn]. cbn [n_init n_frame] in Hv.
  unfold record_session, acquire, verify, back_off_after_release.
  unfold_monad.
  destruct (tracker_init env ni) as [ e | t ].
  - eexists. split; [ reflexivity | ]. split; [ tidy_log; reflexivity | ].
    split; [ reflexivity | cbn; repeat constructor ].
  - destruct (next_frame env nf) as [ e | [ [ [ img | ] hs ] b ] ];
      [ | discriminate Hv | ];
      destruct (tracker_exit env ne);
      (eexists; split; [ reflexivity | ]; split; [ tidy_log; reflexivity | ];
       split; [ reflexivity | cbn; repeat constructor ]).
Qed.

Lemma gate_failure_untouched env fuel out maxd maxu w :
  verified env w = false ->
  exists evs,
    log (snd (record_session env fuel out maxd maxu w)) = log w ++ evs
    /\ Forall (fun ev => touches_storage ev = false) evs.
Proof.
  intros Hv.
  destruct (gate_failure env fuel out maxd maxu w Hv) as (evs & _ & Hlog & Hlast & Hquiet).
  exists evs. split; [ exact Hlog | ]. rewrite Hlast.
  apply List.Forall_app. split; [ | repeat constructor ].
  eapply List.Forall_impl; [ | exact Hquiet ].
  intros ev H. destruct ev; try discriminate H; reflexivity.
Qed.

Lemma gate_failure_replay env fuel out maxd maxu w s :
  verified env w = false ->
  replay s (log (snd (record_session env fuel out maxd maxu w))) = replay s (log w).
Proof.
  intros Hv.
  destruct (gate_failure_untouched env fuel out maxd maxu w Hv) as (evs & Hlog & Hquiet).
  rewrite Hlog, replay_app. apply replay_untouched. exact Hquiet.
Qed.

(** C1.  A session attempt whose Pose Source cannot be constructed, or
    whose verification pull raises or returns no frame, logs no storage
    operation at all: no folder is created and no file is written, so the
    storage replayed from the log is what it was.  It sleeps five seconds,
    once, as the last thing it does, and returns the run flag as it then
    stands.  Conversely a session that does touch storage has passed the
    gate: the tracker was constructed, the verification pull delivered a
    frame, and both come first in its log. *)
Theorem gate_failure_leaves_no_trace env fuel out maxd maxu w :
  exists evs,
    log (snd (record_session env fuel out maxd maxu w)) = log w ++ evs
    /\ (verified env w = false ->
          fst (record_session env fuel out maxd maxu w)
            = Ret (running (snd (record_session env fuel out maxd maxu w)))
          /\ (exists before,
                evs = before ++ [ ESleep 5 ]
                /\ Forall (fun ev => touches_storage ev = false /\ is_sleep ev = false)
                     before)
          /\ forall s,
               replay s (log (snd (record_session env fuel out maxd maxu w)))
                 = replay s (log w))
    /\ (Exists (fun ev => touches_storage ev = true) evs -> verified env w = true)
    /\ (verified env w = true -> exists body, evs = gate_events w ++ body).
Proof.
  destruct (verified env w) eqn:Hv.
  - destruct (record_session_spec env fuel out maxd maxu w Hv) as (t & _ & H).
    destruct (record_session env fuel out maxd maxu w) as [ o w' ].
    destruct H as (body & Hlog & _). cbn [fst snd].
    exists (gate_events w ++ body). split; [ exact Hlog | ].
    split; [ discriminate | ]. split; [ reflexivity | ]. intros _. exists body. reflexivity.
  - destruct (gate_failure env fuel out maxd maxu w Hv)
      as (evs & Hret & Hlog & Hlast & Hquiet).
    set (before := removelast evs) in *. rewrite Hlast in Hlog.
    exists (before ++ [ ESleep 5 ]). split; [ exact Hlog | ].
    split; [ intros _ | split; [ | discriminate ] ].
    + split; [ exact Hret | ]. split.
      { exists before. split; [ reflexivity | ].
        eapply List.Forall_impl; [ | exact Hquiet ].
        intros ev H. destruct ev; try discriminate H; auto. }
      intros s. apply gate_failure_replay. exact Hv.
    + intros Hex. exfalso. apply List.Exists_exists in Hex as (ev & Hin & Hev).
      apply in_app_or in Hin as [ Hin | [ <- | [] ] ]; [ | discriminate Hev ].
      rewrite List.Forall_forall in Hquiet. specialize (Hquiet ev Hin).
      destruct ev; discriminate.
Qed.

(** ** One path at a time *)

Lemma view_apply_event p s ev :
  view_of p (apply_event s ev) = local_event p (view_of p s) ev.
Proof.
  unfold view_of.
  destruct ev as [ | | | | | | | q [ | ] | q t | q | q img quality [ | ] ];
    cbn [apply_event local_event files buffers dirs fst snd];
    try reflexivity.
  all: unfold path_eqb; destruct (bool_decide_reflect (q = p)) as [ -> | Hne ].
  all: rewrite ?lookup_insert_eq, ?lookup_delete_eq,
      ?lookup_insert_ne, ?lookup_delete_ne by assumption;
    try reflexivity.
  - destruct (files s !! p) eqn:E; rewrite ?E, ?lookup_insert_eq; reflexivity.
  - destruct (files s !! q) eqn:E; rewrite ?lookup_insert_ne by assumption; reflexivity.
Qed.

Lemma view_replay p evs :
  forall s, view_of p (replay s evs) = fold_left (local_event p) evs (view_of p s).
Proof.
  unfold replay.
  induction evs as [ | ev evs IH ]; intros s; [ reflexivity | ].
  cbn [fold_left]. rewrite IH, view_apply_event. reflexivity.
Qed.

Lemma local_untouched p v ev : touches_storage ev = false -> local_event p v ev = v.
Proof. destruct ev; cbn; intros H; try discriminate H; reflexivity. Qed.

Lemma fold_local_untouched p evs :
  Forall (fun ev => touches_storage ev = false) evs ->
  forall v, fold_left (local_event p) evs v = v.
Proof.
  intros H. induction H as [ | ev evs Hev _ IH ]; intros v; [ reflexivity | ].
  cbn. rewrite (local_untouched p v ev Hev). apply IH.
Qed.

(** The files of a session are pairwise distinct. *)
Lemma path_eqb_refl p : path_eqb p p = true.
Proof. unfold path_eqb. apply bool_decide_eq_true. reflexivity. Qed.

Lemma child_inj p q a b : child p a = child q b -> p = q /\ a = b.
Proof. unfold child. apply app_inj_tail. Qed.

Lemma child_not_self p a : child p a <> p.
Proof.
  unfold child. intros H. apply (f_equal (@List.length _)) in H.
  rewrite List.length_app in H. cbn in H. lia.
Qed.

Lemma path_eqb_child p a b : path_eqb (child p a) (child p b) = String.eqb a b.
Proof.
  unfold path_eqb. destruct (String.eqb_spec a b) as [ -> | Hne ].
  - apply bool_decide_eq_true. reflexivity.
  - apply bool_decide_eq_false. intros H. apply child_inj in H as [ _ H ]. contradiction.
Qed.

Lemma path_eqb_grandchild_l p a b c : path_eqb (child (child p a) b) (child p c) = false.
Proof.
  unfold path_eqb. apply bool_decide_eq_false. intros H.
  apply child_inj in H as [ H _ ]. exact (child_not_self _ _ H).
Qed.

Lemma path_eqb_grandchild_r p a b c : path_eqb (child p c) (child (child p a) b) = false.
Proof.
  unfold path_eqb. apply bool_decide_eq_false. intros H.
  apply child_inj in H as [ H _ ]. symmetry in H. exact (child_not_self _ _ H).
Qed.

(** Normalises the comparisons of a session's paths. *)
Ltac paths :=
  unfold poses_file, camera_info_file, metadata_file, image_file, rgb_dir in *;
  rewrite ?path_eqb_refl, ?path_eqb_child, ?path_eqb_grandchild_l, ?path_eqb_grandchild_r;
  cbn [String.eqb Ascii.eqb Bool.eqb].

(** ** What the recorded frames leave behind *)

Lemma check_noise_untouched out maxu n noise :
  check_noise out maxu n noise -> Forall (fun ev => touches_storage ev = false) noise.
Proof. intros [ | usage H ]; repeat constructor. Qed.

Lemma loop_exit_untouched env out maxd maxu start n k r last :
  loop_exit env out maxd maxu start n k r last ->
  Forall (fun ev => touches_storage ev = false) last.
Proof.
  intros [ | i H | usage H | noise e Hn H | noise hands b Hn H ]; repeat constructor;
    (apply List.Forall_app; split;
     [ eapply check_noise_untouched; eassumption | repeat constructor ]).
Qed.

Lemma frames_logged_length env out maxu start k0 c0 n c rows evs :
  frames_logged env out maxu start k0 c0 n c rows evs -> length rows = n.
Proof.
  induction 1 as [ | n c rows evs noise i img ok hands b hd bd _ IH _ _ _ _ _ ];
    [ reflexivity | ].
  rewrite List.length_app, IH. cbn. lia.
Qed.

Lemma frames_logged_none env out maxu start k0 c0 c rows evs :
  frames_logged env out maxu start k0 c0 0 c rows evs -> rows = [] /\ evs = [].
Proof. inversion 1. auto. Qed.

(** Each frame appends its line to the pose stream and leaves the handle
    closed. *)
Lemma frames_logged_poses env out maxu start k0 c0 n c rows evs :
  frames_logged env out maxu start k0 c0 n c rows evs ->
  forall lines,
    fold_left (local_event (poses_file out)) evs (Some (Text lines), None)
      = (Some (Text (lines ++ session_lines rows)), None).
Proof.
  unfold session_lines.
  induction 1 as [ | n c rows evs noise i img ok hands b hd bd Hfr IH Hnoise _ _ _ _ ];
    intros lines.
  - cbn. rewrite app_nil_r. reflexivity.
  - rewrite !fold_left_app, IH.
    rewrite (fold_local_untouched _ _ (check_noise_untouched _ _ _ _ Hnoise)).
    rewrite imap_app, (frames_logged_length _ _ _ _ _ _ _ _ _ _ Hfr).
    unfold frame_events, write_events. cbn [fold_left local_event imap].
    destruct ok; paths; cbn [fst snd default flushed];
      rewrite Nat.add_0_r, <- app_assoc; reflexivity.
Qed.

(** A path that is neither the pose stream nor an image is left alone. *)
Lemma frames_logged_elsewhere env out maxu start k0 c0 n c rows evs q :
  frames_logged env out maxu start k0 c0 n c rows evs ->
  path_eqb (poses_file out) q = false ->
  (forall i, path_eqb (image_file out i) q = false) ->
  forall v, fold_left (local_event q) evs v = v.
Proof.
  intros Hfr Hposes Himages.
  induction Hfr as [ | n c rows evs noise i img ok hands b hd bd Hfr IH Hnoise _ _ _ _ ];
    intros v; [ reflexivity | ].
  rewrite !fold_left_app, IH.
  rewrite (fold_local_untouched _ _ (check_noise_untouched _ _ _ _ Hnoise)).
  unfold frame_events, write_events. cbn [fold_left local_event].
  rewrite Hposes, Himages. destruct ok; reflexivity.
Qed.

(** Row [i] was built from the call number [k0 + i] of [next_frame]. *)
Lemma frames_logged_pulls env out maxu start k0 c0 n c rows evs :
  frames_logged env out maxu start k0 c0 n c rows evs ->
  forall i r,
    rows !! i = Some r ->
    exists hands b,
      next_frame env (k0 + i) = inr (Some (row_image r), hands, b)
      /\ hands_entries hands = inr (row_hands r)
      /\ body_entry b = inr (row_body r).
Proof.
  induction 1 as [ | n c rows evs noise j img ok hands b hd bd Hfr IH _ _ Hpull Hhd Hbd ];
    intros i r Hi; [ discriminate Hi | ].
  apply lookup_snoc_Some in Hi as [ [ _ Hi ] | [ -> <- ] ]; [ eauto | ].
  rewrite (frames_logged_length _ _ _ _ _ _ _ _ _ _ Hfr). cbn. eauto.
Qed.

(** The image writes of the frames: one per row, under the row's number. *)
Lemma frames_logged_images env out maxu start k0 c0 n c rows evs :
  frames_logged env out maxu start k0 c0 n c rows evs ->
  image_writes evs
    = imap (fun i r => (image_file out i, row_image r, row_written r)) rows.
Proof.
  unfold image_writes.
  induction 1 as [ | n c rows evs noise j img ok hands b hd bd Hfr IH Hnoise _ _ _ _ ];
    [ reflexivity | ].
  rewrite !flat_map_app, IH, imap_app, (frames_logged_length _ _ _ _ _ _ _ _ _ _ Hfr).
  f_equal. destruct Hnoise; cbn; rewrite Nat.add_0_r; reflexivity.
Qed.

(** The lines handed to [write] by the frames. *)
Lemma frames_logged_written env out maxu start k0 c0 n c rows evs :
  frames_logged env out maxu start k0 c0 n c rows evs ->
  written (poses_file out) evs = session_lines rows.
Proof.
  unfold written, session_lines.
  induction 1 as [ | n c rows evs noise j img ok hands b hd bd Hfr IH Hnoise _ _ _ _ ];
    [ reflexivity | ].
  rewrite !flat_map_app, IH, imap_app, (frames_logged_length _ _ _ _ _ _ _ _ _ _ Hfr).
  f_equal. destruct Hnoise; cbn; rewrite path_eqb_refl, Nat.add_0_r; reflexivity.
Qed.

(** No disk sample taken while frames were recorded was above the
    threshold. *)
Lemma check_noise_not_tripped out maxu n noise :
  check_noise out maxu n noise -> Forall (fun ev => tripped maxu ev = false) noise.
Proof. intros [ | usage H ]; repeat constructor. exact H. Qed.

Lemma frames_logged_not_tripped env out maxu start k0 c0 n c rows evs :
  frames_logged env out maxu start k0 c0 n c rows evs ->
  Forall (fun ev => tripped maxu ev = false) evs.
Proof.
  induction 1 as [ | n c rows evs noise j img ok hands b hd bd Hfr IH Hnoise _ _ _ _ ];
    [ constructor | ].
  apply List.Forall_app. split; [ exact IH | ].
  apply List.Forall_app. split; [ eapply check_noise_not_tripped; eassumption | ].
  repeat constructor.
Qed.

(** ** Timestamps *)

Lemma py_int_nonneg q : (0 <= Qnum q)%Z -> py_int q = Qfloor q.
Proof.
  destruct q as [ a d ]. unfold py_int, Qfloor. cbn. intros H.
  apply Z.quot_div_nonneg; lia.
Qed.

Lemma py_int_neg q : (Qnum q < 0)%Z -> py_int q = Qceiling q.
Proof.
  destruct q as [ a d ]. unfold py_int, Qceiling, Qfloor. cbn. intros H.
  rewrite <- (Z.opp_involutive a) at 1.
  rewrite Z.quot_opp_l by lia. rewrite Z.quot_div_nonneg by lia. reflexivity.
Qed.

(** Truncation towards zero is monotone. *)
Lemma py_int_le q1 q2 : (q1 <= q2)%Q -> (py_int q1 <= py_int q2)%Z.
Proof.
  intros H.
  destruct (Z_lt_le_dec (Qnum q1) 0) as [ H1 | H1 ], (Z_lt_le_dec (Qnum q2) 0) as [ H2 | H2 ].
  - rewrite !py_int_neg by assumption. apply Qceiling_resp_le. exact H.
  - rewrite py_int_neg, py_int_nonneg by assumption.
    transitivity 0%Z.
    + change 0%Z with (Qceiling 0). apply Qceiling_resp_le.
      unfold Qle. cbn. lia.
    + change 0%Z with (Qfloor 0). apply Qfloor_resp_le.
      unfold Qle. cbn. lia.
  - exfalso. unfold Qle in H.
    assert (0 <= Qnum q1 * Z.pos (Qden q2))%Z by (apply Z.mul_nonneg_nonneg; lia).
    assert (Qnum q2 * Z.pos (Qden q1) < 0)%Z by (apply Z.mul_neg_pos; lia).
    lia.
  - rewrite !py_int_nonneg by assumption. apply Qfloor_resp_le. exact H.
Qed.

Lemma stamp_ms_le env start i j :
  clock_monotone env -> (i <= j)%nat -> (stamp_ms env start i <= stamp_ms env start j)%Z.
Proof.
  intros Hmono Hij. unfold stamp_ms. apply py_int_le.
  apply Qmult_le_compat_r; [ | discriminate ].
  unfold Qminus. apply Qplus_le_compat; [ apply Hmono; exact Hij | apply Qle_refl ].
Qed.

Lemma StronglySorted_snoc {A} (R : A -> A -> Prop) l x :
  StronglySorted R l -> Forall (fun y => R y x) l -> StronglySorted R (l ++ [ x ]).
Proof.
  induction 1 as [ | a l Hl IH Ha ]; intros Hx; cbn.
  - repeat constructor.
  - apply List.Forall_cons_iff in Hx as [ Hax Hx ].
    constructor; [ apply IH; exact Hx | ].
    apply List.Forall_app. split; [ exact Ha | repeat constructor; exact Hax ].
Qed.

(** Under a clock that never steps back the stamps of the rows never
    decrease. *)
Lemma frames_logged_sorted env out maxu start k0 c0 n c rows evs :
  clock_monotone env ->
  frames_logged env out maxu start k0 c0 n c rows evs ->
  StronglySorted Z.le (List.map row_ts rows)
  /\ forall j, (c <= j)%nat ->
       Forall (fun t => (t <= stamp_ms env start j)%Z) (List.map row_ts rows).
Proof.
  intros Hmono.
  induction 1 as [ | n c rows evs noise i img ok hands b hd bd Hfr [ IHs IHb ] _ Hci _ _ _ ].
  - split; [ constructor | intros; constructor ].
  - rewrite List.map_app. cbn [List.map row_ts]. split.
    + apply StronglySorted_snoc; [ exact IHs | apply IHb; exact Hci ].
    + intros j Hj. apply List.Forall_app. split.
      * eapply List.Forall_impl; [ | apply (IHb i Hci) ].
        intros t Ht. etransitivity; [ exact Ht | ]. apply stamp_ms_le; [ exact Hmono | lia ].
      * repeat constructor. apply stamp_ms_le; [ exact Hmono | lia ].
Qed.

(** ** The columns of a session's pose stream *)

Lemma frame_records_lines k rows :
  frame_records (imap (fun i => row_line (k + i)) rows)
    = imap (fun i r => frame_pose (k + i) (row_ts r) (row_hands r) (row_body r)) rows.
Proof.
  revert k. induction rows as [ | r rows IH ]; intros k; [ reflexivity | ].
  cbn [imap]. change (frame_records (?x :: ?l)) with (frame_records [ x ] ++ frame_records l).
  cbn [frame_records flat_map row_line field frame_pose dict_get String.eqb Ascii.eqb
         Bool.eqb app].
  f_equal.
  rewrite (imap_ext _ (fun i => row_line (S k + i))),
          (imap_ext (_ ∘ S)
             (fun i r => frame_pose (S k + i) (row_ts r) (row_hands r) (row_body r))).
  - apply IH.
  - intros i x _. cbn. f_equal. lia.
  - intros i x _. cbn. f_equal. lia.
Qed.

Lemma frame_indices_lines k rows :
  frame_indices (imap (fun i => row_line (k + i)) rows)
    = List.map Z.of_nat (seq k (length rows)).
Proof.
  unfold frame_indices. rewrite frame_records_lines.
  revert k. induction rows as [ | r rows IH ]; intros k; [ reflexivity | ].
  cbn [imap flat_map length seq List.map].
  change (int_field "frame_idx" (frame_pose ?i ?t ?h ?b)) with [ Z.of_nat i ].
  rewrite Nat.add_0_r. cbn [app]. f_equal.
  rewrite (imap_ext _
             (fun i r => frame_pose (S k + i) (row_ts r) (row_hands r) (row_body r))).
  - apply IH.
  - intros i x _. cbn. f_equal. lia.
Qed.

Lemma frame_timestamps_lines k rows :
  frame_timestamps (imap (fun i => row_line (k + i)) rows) = List.map row_ts rows.
Proof.
  unfold frame_timestamps. rewrite frame_records_lines.
  revert k. induction rows as [ | r rows IH ]; intros k; [ reflexivity | ].
  cbn [imap flat_map List.map].
  change (int_field "timestamp_ms" (frame_pose ?i ?t ?h ?b)) with [ t ].
  cbn [app]. f_equal.
  rewrite (imap_ext _
             (fun i r => frame_pose (S k + i) (row_ts r) (row_hands r) (row_body r))).
  - apply IH.
  - intros i x _. cbn. f_equal. lia.
Qed.

(** Behind a header, the stream of a session reads back as its rows:
    indices 0, 1, 2, ... and the stamps in order. *)
Lemma session_stream_columns t rows :
  frame_records (header_text t :: session_lines rows)
    = imap (fun i r => frame_pose i (row_ts r) (row_hands r) (row_body r)) rows
  /\ frame_indices (header_text t :: session_lines rows)
       = List.map Z.of_nat (seq 0 (length rows))
  /\ frame_timestamps (header_text t :: session_lines rows) = List.map row_ts rows.
Proof.
  unfold session_lines.
  pose proof (frame_records_lines 0 rows) as H1.
  pose proof (frame_indices_lines 0 rows) as H2.
  pose proof (frame_timestamps_lines 0 rows) as H3.
  cbn in H1, H2, H3. auto.
Qed.

(** ** The files of a session, phase by phase *)

Lemma local_unconcerned p v ev : concerns p ev = false -> local_event p v ev = v.
Proof.
  destruct ev as [ | | | | | | | q [ | ] | q t | q | q img quality [ | ] ]; cbn;
    intros H; rewrite ?H; reflexivity.
Qed.

Lemma fold_local_unconcerned p evs :
  Forall (fun ev => concerns p ev = false) evs ->
  forall v, fold_left (local_event p) evs v = v.
Proof.
  intros H. induction H as [ | ev evs Hev _ IH ]; intros v; [ reflexivity | ].
  cbn. rewrite (local_unconcerned p v ev Hev). apply IH.
Qed.

(** Splits a membership in an explicit list of shapes into its cases. *)
Ltac shapes H :=
  cbn in H; repeat (destruct H as [ <- | H ]); [ .. | destruct H ].

Lemma calibration_note_untouched t :
  Forall (fun ev => touches_storage ev = false) (calibration_note t).
Proof. unfold calibration_note. destruct (calibrated_intrinsics t); repeat constructor. Qed.

Lemma folders_poses out t v :
  fold_left (local_event (poses_file out)) (folders_events out t) v = v.
Proof.
  unfold folders_events. rewrite fold_left_app. cbn [fold_left local_event].
  apply fold_local_untouched, calibration_note_untouched.
Qed.

Lemma folders_view out t q v : fold_left (local_event q) (folders_events out t) v = v.
Proof.
  unfold folders_events. rewrite fold_left_app. cbn [fold_left local_event].
  apply fold_local_untouched, calibration_note_untouched.
Qed.

(** After the opening the pose stream holds the header, whatever it held. *)
Lemma opening_poses out t v :
  fold_left (local_event (poses_file out)) (opening_events out t) v
    = (Some (Text [ header_text t ]), None).
Proof.
  unfold opening_events, write_events. rewrite !fold_left_app, folders_view.
  cbn [fold_left local_event]. paths. reflexivity.
Qed.

Lemma opening_elsewhere out t q v :
  path_eqb (camera_info_file out) q = false ->
  path_eqb (poses_file out) q = false ->
  fold_left (local_event q) (opening_events out t) v = v.
Proof.
  intros H1 H2. unfold opening_events, write_events. rewrite !fold_left_app, folders_view.
  cbn [fold_left local_event]. rewrite H1, H2. reflexivity.
Qed.

(** An opening that was cut short left the stream as it was, or empty. *)
Lemma aborted_opening_poses out t evs v :
  In evs (aborted_openings out t) ->
  fst (fold_left (local_event (poses_file out)) evs v) = fst v
  \/ fst (fold_left (local_event (poses_file out)) evs v) = Some (Text []).
Proof.
  intros H. unfold aborted_openings, aborted_write, write_events in H. shapes H;
    cbn [fold_left local_event];
    rewrite ?fold_left_app, ?(fold_local_untouched _ _ (calibration_note_untouched t));
    cbn [fold_left local_event]; paths; cbn [fst snd]; auto.
Qed.

Lemma closing_view out j now n tss q v :
  path_eqb (metadata_file out) q = false ->
  fold_left (local_event q) (closing_events out j now n tss) v = v.
Proof.
  intros H. unfold closing_events, write_events.
  destruct (0 <? n)%nat; cbn [fold_left local_event app]; rewrite ?H; reflexivity.
Qed.

Lemma closing_metadata out j now n tss v :
  fold_left (local_event (metadata_file out)) (closing_events out j now n tss) v
    = if (0 <? n)%nat then (Some (Text [ metadata_text now n tss ]), None) else v.
Proof.
  unfold closing_events, write_events.
  destruct (0 <? n)%nat; cbn [fold_left local_event app]; paths; reflexivity.
Qed.

Lemma aborted_closing_view out j now n tss q evs v :
  path_eqb (metadata_file out) q = false ->
  In evs (aborted_closings out j now n tss) ->
  fold_left (local_event q) evs v = v.
Proof.
  intros Hq H. unfold aborted_closings, aborted_write in H. shapes H;
    cbn [fold_left local_event]; rewrite ?Hq; reflexivity.
Qed.

(** A frame that was cut short did not change what the stream holds. *)
Lemma aborted_frame_poses out n k img ok line blk lines :
  In blk (aborted_frames out n k img ok line) ->
  fst (fold_left (local_event (poses_file out)) blk (Some (Text lines), None))
    = Some (Text lines).
Proof.
  intros H. unfold aborted_frames, aborted_write in H. shapes H;
    cbn [fold_left local_event]; destruct ok; paths; cbn [fst snd default flushed];
    rewrite ?app_nil_r; reflexivity.
Qed.

(** The storage of a path after a log, from its storage before. *)
Lemma view_after p s0 lg evs :
  view_of p (replay s0 (lg ++ evs))
    = fold_left (local_event p) evs (view_of p (replay s0 lg)).
Proof. rewrite replay_app. apply view_replay. Qed.

Lemma gate_view q w v : fold_left (local_event q) (gate_events w) v = v.
Proof. reflexivity. Qed.

Lemma image_writes_app evs1 evs2 :
  image_writes (evs1 ++ evs2) = image_writes evs1 ++ image_writes evs2.
Proof. apply flat_map_app. Qed.

Lemma written_app p evs1 evs2 : written p (evs1 ++ evs2) = written p evs1 ++ written p evs2.
Proof. apply flat_map_app. Qed.

Lemma image_writes_untouched evs :
  Forall (fun ev => touches_storage ev = false) evs -> image_writes evs = [].
Proof.
  induction 1 as [ | ev evs Hev _ IH ]; [ reflexivity | ].
  cbn. fold (image_writes evs). rewrite IH. destruct ev; try discriminate Hev; reflexivity.
Qed.

Lemma written_untouched p evs :
  Forall (fun ev => touches_storage ev = false) evs -> written p evs = [].
Proof.
  induction 1 as [ | ev evs Hev _ IH ]; [ reflexivity | ].
  cbn. fold (written p evs). rewrite IH. destruct ev; try discriminate Hev; reflexivity.
Qed.

Lemma image_writes_opening out t : image_writes (opening_events out t) = [].
Proof.
  unfold opening_events, folders_events. rewrite !image_writes_app.
  rewrite (image_writes_untouched _ (calibration_note_untouched t)). reflexivity.
Qed.

Lemma written_opening out t : written (poses_file out) (opening_events out t) = [ header_text t ].
Proof.
  unfold opening_events, folders_events. rewrite !written_app.
  rewrite (written_untouched _ _ (calibration_note_untouched t)).
  cbn. paths. reflexivity.
Qed.

Lemma aborted_opening_images out t evs :
  In evs (aborted_openings out t) -> image_writes evs = [].
Proof.
  intros H. unfold aborted_openings, aborted_write, write_events in H. shapes H;
    cbn [image_writes flat_map app];
    try (change (flat_map _ ?l) with (image_writes l));
    rewrite ?image_writes_app, ?(image_writes_untouched _ (calibration_note_untouched t));
    reflexivity.
Qed.

(** ** The pose stream of a session *)

(** The stream after a session attempt that passed the gate: untouched or
    empty when the opening was cut short, and otherwise the header
    followed by the lines of the recorded rows, however the session ended. *)
Lemma session_stream env fuel out maxd maxu w s0 :
  verified env w = true ->
  exists t,
    tracker_init env (n_init w) = inr t
    /\ ((exists e body,
           fst (record_session env fuel out maxd maxu w) = Raise e
           /\ log (snd (record_session env fuel out maxd maxu w))
                = log w ++ gate_events w ++ body
           /\ image_writes body = []
           /\ (files (replay s0 (log (snd (record_session env fuel out maxd maxu w))))
                 !! poses_file out
               = files (replay s0 (log w)) !! poses_file out
               \/ files (replay s0 (log (snd (record_session env fuel out maxd maxu w))))
                    !! poses_file out
                  = Some (Text [])))
        \/ exists n c rows frames rest,
             frames_logged env out maxu (time_time env (n_time w))
               (S (n_frame w)) (S (n_time w)) n c rows frames
             /\ log (snd (record_session env fuel out maxd maxu w))
                  = log w ++ gate_events w ++ opening_events out t ++ frames ++ rest
             /\ files (replay s0 (log (snd (record_session env fuel out maxd maxu w))))
                  !! poses_file out
                = Some (Text (header_text t :: session_lines rows))).
Proof.
  intros Hv. destruct (record_session_spec env fuel out maxd maxu w Hv) as (t & Ht & H).
  exists t. split; [ exact Ht | ].
  destruct (record_session env fuel out maxd maxu w) as [ o w' ]. cbn [fst snd].
  destruct H as (body & Hlog
                 & [ (e & -> & _ & Hin)
                   | (n & c & rows & frames & last & closing & Hfr & -> & Hend) ]).
  - left. exists e, body. split; [ reflexivity | ]. split; [ exact Hlog | ].
    split; [ apply (aborted_opening_images _ _ _ Hin) | ].
    pose proof (view_after (poses_file out) s0 (log w) (gate_events w ++ body)) as Hview.
    rewrite <- Hlog, fold_left_app, gate_view in Hview.
    apply (f_equal fst) in Hview. unfold view_of in Hview. cbn [fst] in Hview.
    rewrite Hview.
    exact (aborted_opening_poses out t body
             (files (replay s0 (log w)) !! poses_file out,
              buffers (replay s0 (log w)) !! poses_file out) Hin).
  - right. exists n, c, rows, frames, (last ++ closing).
    split; [ exact Hfr | ]. split; [ exact Hlog | ].
    pose proof (view_after (poses_file out) s0 (log w)
                  (gate_events w ++ opening_events out t ++ frames ++ last ++ closing))
      as Hview.
    rewrite <- Hlog, !fold_left_app, gate_view, opening_poses in Hview.
    rewrite (frames_logged_poses _ _ _ _ _ _ _ _ _ _ Hfr) in Hview.
    apply (f_equal fst) in Hview. unfold view_of in Hview. cbn [fst app] in Hview.
    rewrite Hview. clear Hview Hlog.
    inversion Hend as [ r0 r last' j now Hexit Hr
                      | e r noise img ok line blk Hcoop Hnoise Hin Hfrom
                      | e r r0 last' j now closing' Hf Hexit Hpos Hin
                      | r ]; subst.
    + rewrite (fold_local_untouched _ _ (loop_exit_untouched _ _ _ _ _ _ _ _ _ Hexit)).
      rewrite closing_view by (paths; reflexivity). reflexivity.
    + rewrite fold_left_app.
      rewrite (fold_local_untouched _ _ (check_noise_untouched _ _ _ _ Hnoise)).
      cbn [fold_left]. eapply aborted_frame_poses; eassumption.
    + rewrite (fold_local_untouched _ _ (loop_exit_untouched _ _ _ _ _ _ _ _ _ Hexit)).
      assert (path_eqb (metadata_file out) (poses_file out) = false) as Hq
        by (paths; reflexivity).
      rewrite (aborted_closing_view _ _ _ _ _ _ _ _ Hq Hin). reflexivity.
    + reflexivity.
Qed.

(** ** Numbering and stamps of the persisted records *)

(** C2 (as amended).  Whatever was on storage before, however the session
    ends and whatever the wall clock does, its pose stream is either left
    as it was or holds frame records numbered 0, 1, 2, ... without a gap,
    and the image written for record [i] goes to
    [rgb_frames/frame_<i, six digits>.jpg].  The [timestamp_ms] column
    never decreases provided the wall clock ([time.time()]) does not step
    back while the session runs: only this last part needs the clock. *)
Theorem frame_records_are_numbered env fuel out maxd maxu w s0 :
  let w' := snd (record_session env fuel out maxd maxu w) in
  let stream := stored_text (replay s0 (log w')) (poses_file out) in
  files (replay s0 (log w')) !! poses_file out = files (replay s0 (log w)) !! poses_file out
  \/ exists rows evs,
       log w' = log w ++ evs
       /\ frame_records stream
          = imap (fun i r => frame_pose i (row_ts r) (row_hands r) (row_body r)) rows
       /\ frame_indices stream = List.map Z.of_nat (seq 0 (length rows))
       /\ (forall i r,
             rows !! i = Some r ->
             image_writes evs !! i = Some (image_file out i, row_image r, row_written r))
       /\ (clock_monotone env -> StronglySorted Z.le (frame_timestamps stream)).
Proof.
  cbv zeta. destruct (verified env w) eqn:Hv.
  - destruct (session_stream env fuel out maxd maxu w s0 Hv)
      as (t & Ht & [ (e & body & _ & Hlog & _ & [ Hsame | Hempty ])
                   | (n & c & rows & frames & rest & Hfr & Hlog & Hfile) ]).
    + left. exact Hsame.
    + right. exists [], (gate_events w ++ body). unfold stored_text. rewrite Hempty.
      split; [ exact Hlog | ]. split; [ reflexivity | ]. split; [ reflexivity | ].
      split; [ intros i r Hi; discriminate Hi | intros _; constructor ].
    + right. exists rows, (gate_events w ++ opening_events out t ++ frames ++ rest).
      unfold stored_text. rewrite Hfile.
      destruct (session_stream_columns t rows) as (H1 & H2 & H3).
      split; [ exact Hlog | ]. split; [ exact H1 | ]. split; [ exact H2 | ].
      split; [ | intros Hmono; rewrite H3; eapply frames_logged_sorted; eassumption ].
      intros i r Hi.
      rewrite !image_writes_app, image_writes_opening.
      change (image_writes (gate_events w)) with (@nil (path * image * bool)).
      cbn [app].
      rewrite (frames_logged_images _ _ _ _ _ _ _ _ _ _ Hfr).
      rewrite lookup_app_l by (rewrite length_imap; eapply lookup_lt_Some; exact Hi).
      rewrite list_lookup_imap, Hi. reflexivity.
  - left. rewrite gate_failure_replay by exact Hv. reflexivity.
Qed.

Lemma steady_clock_monotone : clock_monotone steady.
Proof.
  intros i j Hij. cbn. rewrite <- Zle_Qle. lia.
Qed.

(** The numbering under the clock that steps back, where the theorem
    applies as it does everywhere. *)
Lemma frame_records_are_numbered_witness :
  let w' := snd (record_session stepping_back 10 session_dir 3600 90 fresh) in
  let stream := stored_text (replay empty_storage (log w')) (poses_file session_dir) in
  files (replay empty_storage (log w')) !! poses_file session_dir
    = files (replay empty_storage (log fresh)) !! poses_file session_dir
  \/ exists rows evs,
       log w' = log fresh ++ evs
       /\ frame_records stream
          = imap (fun i r => frame_pose i (row_ts r) (row_hands r) (row_body r)) rows
       /\ frame_indices stream = List.map Z.of_nat (seq 0 (length rows))
       /\ (forall i r,
             rows !! i = Some r ->
             image_writes evs !! i
               = Some (image_file session_dir i, row_image r, row_written r))
       /\ (clock_monotone stepping_back -> StronglySorted Z.le (frame_timestamps stream)).
Proof.
  exact (frame_records_are_numbered stepping_back 10 session_dir 3600 90 fresh
           empty_storage).
Defined.

Example stepping_back_session_indices :
  frame_indices
    (stored_text
       (replay empty_storage
          (log (snd (record_session stepping_back 10 session_dir 3600 90 fresh))))
       (poses_file session_dir))
    = [ 0; 1; 2 ]%Z.
Proof. vm_compute. reflexivity. Qed.

Example steady_session_indices :
  frame_indices
    (stored_text
       (replay empty_storage (log (snd (record_session steady 10 session_dir 3600 90 fresh))))
       (poses_file session_dir))
    = [ 0; 1; 2 ]%Z.
Proof. vm_compute. reflexivity. Qed.

(** C2, as the specification states it, fails: when the wall clock is set
    back between two frames, the second record carries the smaller
    [timestamp_ms] (5000, then 3000). *)
Lemma timestamps_decrease_when_clock_steps_back :
  frame_timestamps
    (stored_text
       (replay empty_storage
          (log (snd (record_session stepping_back 10 session_dir 3600 90 fresh))))
       (poses_file session_dir))
    = [ 5000; 3000; 6000 ]%Z
  /\ ~ StronglySorted Z.le
         (frame_timestamps
            (stored_text
               (replay empty_storage
                  (log (snd (record_session stepping_back 10 session_dir 3600 90 fresh))))
               (poses_file session_dir))).
Proof.
  assert (frame_timestamps
            (stored_text
               (replay empty_storage
                  (log (snd (record_session stepping_back 10 session_dir 3600 90 fresh))))
               (poses_file session_dir))
          = [ 5000; 3000; 6000 ]%Z) as E by (vm_compute; reflexivity).
  split; [ exact E | ]. rewrite E. intros H.
  inversion H as [ | a l _ Hall ]; subst.
  inversion Hall as [ | b l' Hle _ ]; subst. lia.
Qed.

(** ** Normalising detections *)

Lemma tolist_not_null a : tolist a <> JNull.
Proof. destruct a as [ [ z | q ] | rows ]; discriminate. Qed.

Lemma landmarks_or_empty_not_null a : landmarks_or_empty a <> JNull.
Proof.
  unfold landmarks_or_empty. destruct (present a); [ apply tolist_not_null | discriminate ].
Qed.

Lemma hand_entry_fields h s x :
  label h = Has s -> lm_score h = Has x ->
  exists d,
    hand_entry h = inr d
    /\ field "handedness" d = Some (JStr (capitalize s))
    /\ field "confidence" d = Some (JFloat (py_float x))
    /\ field "landmarks_2d" d = Some (landmarks_or_empty (landmarks h))
    /\ field "landmarks_3d" d = Some (landmarks_or_empty (world_landmarks h))
    /\ field "palm_xyz" d = option_map palm (present (xyz h)).
Proof.
  intros Hl Hs. unfold hand_entry. rewrite Hl, Hs. eexists. split; [ reflexivity | ].
  unfold landmarks_or_empty. destruct (present (xyz h)); cbn; auto.
Qed.

(** C5 (as amended).  A detection that carries a [label] and an
    [lm_score] never makes the derivation of the hand entries raise,
    whatever else it carries: [landmarks_2d] and [landmarks_3d] are the
    arrays as lists, or an empty list when the attribute is absent or
    [None] (never null), and [palm_xyz] is present exactly when [xyz] is
    there and not [None]. *)
Theorem labelled_detections_never_raise (hands : list hand) :
  Forall (fun h => exists s x, label h = Has s /\ lm_score h = Has x) hands ->
  exists entries,
    hands_entries hands = inr entries
    /\ Forall2 (fun h d =>
                  field "landmarks_2d" d = Some (landmarks_or_empty (landmarks h))
                  /\ field "landmarks_3d" d = Some (landmarks_or_empty (world_landmarks h))
                  /\ field "landmarks_2d" d <> Some JNull
                  /\ field "landmarks_3d" d <> Some JNull
                  /\ field "palm_xyz" d = option_map palm (present (xyz h)))
         hands entries.
Proof.
  induction 1 as [ | h hands (s & x & Hl & Hs) _ (entries & IH & IHall) ].
  - exists []. split; [ reflexivity | constructor ].
  - destruct (hand_entry_fields h s x Hl Hs) as (d & Hd & _ & _ & H2 & H3 & Hp).
    exists (d :: entries). cbn [hands_entries]. rewrite Hd, IH.
    split; [ reflexivity | ]. constructor; [ | exact IHall ].
    rewrite H2, H3. repeat split; try exact Hp;
      intros E; injection E as E; exact (landmarks_or_empty_not_null _ E).
Qed.

Lemma labelled_detections_never_raise_witness :
  Forall (fun h => exists s x, label h = Has s /\ lm_score h = Has x) [ right_hand ]
  /\ exists entries,
       hands_entries [ right_hand ] = inr entries
       /\ Forall2 (fun h d =>
                     field "landmarks_2d" d = Some (landmarks_or_empty (landmarks h))
                     /\ field "landmarks_3d" d
                        = Some (landmarks_or_empty (world_landmarks h))
                     /\ field "landmarks_2d" d <> Some JNull
                     /\ field "landmarks_3d" d <> Some JNull
                     /\ field "palm_xyz" d = option_map palm (present (xyz h)))
            [ right_hand ] entries.
Proof.
  assert (Forall (fun h => exists s x, label h = Has s /\ lm_score h = Has x)
            [ right_hand ]) as H.
  { constructor; [ | constructor ]. exists "right"%string, (NFloat (9 # 10)).
    split; reflexivity. }
  split; [ exact H | exact (labelled_detections_never_raise [ right_hand ] H) ].
Defined.

(** C5, as the specification states it, fails: a detection without a
    [label] makes the derivation raise [AttributeError], and the exception
    leaves [record_session]. *)
Lemma unlabelled_detection_raises :
  hands_entries [ unlabelled_hand ] = inl (AttributeError "label")
  /\ fst (record_session unlabelled 10 session_dir 3600 90 fresh)
     = Raise (AttributeError "label").
Proof. split; vm_compute; reflexivity. Qed.

(** ** The summary *)

Lemma duration_positive t : Qgt_bool (inject_Z t / 1000) 0 = true <-> (0 < t)%Z.
Proof.
  unfold Qgt_bool. rewrite negb_true_iff, <- not_true_iff_false, Qle_bool_iff.
  unfold Qle, Qdiv, Qmult, Qinv, inject_Z. cbn. lia.
Qed.

(** The [fps] field of a summary: [frame_count / duration] exactly when
    the duration, the last [timestamp_ms] over 1000, is strictly
    positive, and the integer 0 otherwise. *)
Lemma summary_fps_cases now n tss :
  tss <> [] ->
  field "duration_seconds" (metadata now n tss)
    = Some (JFloat (inject_Z (List.last tss 0%Z) / 1000))
  /\ ((0 < List.last tss 0)%Z ->
        field "fps" (metadata now n tss)
          = Some (JFloat (inject_Z (Z.of_nat n) / (inject_Z (List.last tss 0%Z) / 1000))))
  /\ ((List.last tss 0 <= 0)%Z -> field "fps" (metadata now n tss) = Some (JInt 0)).
Proof.
  intros Hne. unfold metadata, actual_duration, fps_field.
  destruct tss as [ | t tss ]; [ contradiction | ].
  set (l := List.last (t :: tss) 0%Z). cbn [field dict_get String.eqb Ascii.eqb Bool.eqb
                                              json_of_number py_float].
  split; [ reflexivity | ].
  destruct (Qgt_bool (inject_Z l / 1000) 0) eqn:E.
  - apply duration_positive in E. split; [ reflexivity | lia ].
  - split; [ | reflexivity ]. intros Hpos. apply duration_positive in Hpos. congruence.
Qed.


(** ** Sessions that return *)

Lemma returned_session env fuel out maxd maxu w r w' :
  verified env w = true ->
  record_session env fuel out maxd maxu w = (Ret r, w') ->
  exists t n c rows frames r0 last j now,
    tracker_init env (n_init w) = inr t
    /\ frames_logged env out maxu (time_time env (n_time w))
         (S (n_frame w)) (S (n_time w)) n c rows frames
    /\ loop_exit env out maxd maxu (time_time env (n_time w)) n (S (n_frame w) + n) r0 last
    /\ (r0 = false -> r = false)
    /\ r = running w'
    /\ log w' = log w ++ gate_events w ++ opening_events out t ++ frames ++ last
                  ++ closing_events out j now n (List.map row_ts rows).
Proof.
  intros Hv Hrun.
  destruct (record_session_spec env fuel out maxd maxu w Hv) as (t & Ht & H).
  rewrite Hrun in H.
  destruct H as (body & Hlog
                 & [ (e & He & _)
                   | (n & c & rows & frames & last & closing & Hfr & -> & Hend) ]);
    [ discriminate He | ].
  inversion Hend as [ r0 r' last' j now Hexit Hr | | | ]; subst.
  exists t, n, c, rows, frames, r0, last, j, now. auto 10.
Qed.

(** The files of a session that returned, from what storage held before. *)
Lemma returned_session_files out t w frames last j now n rows env maxu start k0 c0 c
    maxd r0 s0 lg lg' :
  frames_logged env out maxu start k0 c0 n c rows frames ->
  loop_exit env out maxd maxu start n (k0 + n) r0 last ->
  lg' = lg ++ gate_events w ++ opening_events out t ++ frames ++ last
           ++ closing_events out j now n (List.map row_ts rows) ->
  files (replay s0 lg') !! poses_file out = Some (Text (header_text t :: session_lines rows))
  /\ files (replay s0 lg') !! metadata_file out
     = (if (0 <? n)%nat
        then Some (Text [ metadata_text now n (List.map row_ts rows) ])
        else files (replay s0 lg) !! metadata_file out)
  /\ (n = 0%nat ->
      forall q, q <> camera_info_file out -> q <> poses_file out ->
                files (replay s0 lg') !! q = files (replay s0 lg) !! q).
Proof.
  intros Hfr Hexit ->.
  pose proof (loop_exit_untouched _ _ _ _ _ _ _ _ _ Hexit) as Hlast.
  split; [ | split ].
  - pose proof (view_after (poses_file out) s0 lg
                  (gate_events w ++ opening_events out t ++ frames ++ last
                     ++ closing_events out j now n (List.map row_ts rows))) as Hview.
    rewrite !fold_left_app, gate_view, opening_poses in Hview.
    rewrite (frames_logged_poses _ _ _ _ _ _ _ _ _ _ Hfr) in Hview.
    rewrite (fold_local_untouched _ _ Hlast) in Hview.
    rewrite closing_view in Hview by (paths; reflexivity).
    apply (f_equal fst) in Hview. exact Hview.
  - pose proof (view_after (metadata_file out) s0 lg
                  (gate_events w ++ opening_events out t ++ frames ++ last
                     ++ closing_events out j now n (List.map row_ts rows))) as Hview.
    rewrite !fold_left_app, gate_view in Hview.
    rewrite opening_elsewhere in Hview by (paths; reflexivity).
    rewrite (frames_logged_elsewhere _ _ _ _ _ _ _ _ _ _ _ Hfr) in Hview
      by (intros; paths; reflexivity).
    rewrite (fold_local_untouched _ _ Hlast), closing_metadata in Hview.
    apply (f_equal fst) in Hview. unfold view_of in Hview. cbn [fst] in Hview.
    rewrite Hview. destruct (0 <? n)%nat; reflexivity.
  - intros -> q Hci Hposes.
    apply frames_logged_none in Hfr as [ -> -> ].
    pose proof (view_after q s0 lg
                  (gate_events w ++ opening_events out t ++ [] ++ last
                     ++ closing_events out j now 0 (List.map row_ts []))) as Hview.
    rewrite !fold_left_app, gate_view in Hview.
    rewrite opening_elsewhere in Hview
      by (unfold path_eqb; apply bool_decide_eq_false; congruence).
    rewrite (fold_local_untouched _ _ Hlast) in Hview. cbn [fold_left] in Hview.
    apply (f_equal fst) in Hview. exact Hview.
Qed.



(** ** The frame rate in the summary *)

(** C9.  For a session that returns after passing the gate, let [rows] be
    the frames it recorded, whose stamps are the [timestamp_ms] column of
    its pose stream.  With at least one row, [metadata.json] holds the
    summary the session wrote: its [frame_count] is the number of rows,
    its [duration_seconds] the last [timestamp_ms] over 1000, and its
    [fps] is [frame_count / duration_seconds] exactly when the last
    [timestamp_ms] is strictly positive; when it is 0 (or less) the file
    reports the integer 0 and nothing is divided. *)
Theorem fps_is_zero_without_duration env fuel out maxd maxu w r w' s0 :
  record_session env fuel out maxd maxu w = (Ret r, w') ->
  verified env w = true ->
  exists rows doc,
    frame_records (stored_text (replay s0 (log w')) (poses_file out))
      = imap (fun i r => frame_pose i (row_ts r) (row_hands r) (row_body r)) rows
    /\ frame_timestamps (stored_text (replay s0 (log w')) (poses_file out))
       = List.map row_ts rows
    /\ ((1 <= length rows)%nat ->
        files (replay s0 (log w')) !! metadata_file out = Some (Text [ JsonDoc 2 doc ])
        /\ field "frame_count" doc = Some (JInt (Z.of_nat (length rows)))
        /\ field "duration_seconds" doc
           = Some (JFloat (inject_Z (List.last (List.map row_ts rows) 0%Z) / 1000))
        /\ ((0 < List.last (List.map row_ts rows) 0)%Z ->
            field "fps" doc
              = Some (JFloat (inject_Z (Z.of_nat (length rows))
                              / (inject_Z (List.last (List.map row_ts rows) 0%Z) / 1000))))
        /\ ((List.last (List.map row_ts rows) 0 <= 0)%Z ->
            field "fps" doc = Some (JInt 0))).
Proof.
  intros Hrun Hv.
  destruct (returned_session env fuel out maxd maxu w r w' Hv Hrun)
    as (t & n & c & rows & frames & r0 & last & j & now & Ht & Hfr & Hexit & _ & _ & Hlog).
  destruct (returned_session_files out t w frames last j now n rows env maxu _ _ _ c
              maxd r0 s0 (log w) (log w') Hfr Hexit Hlog) as (Hposes & Hmeta & _).
  pose proof (frames_logged_length _ _ _ _ _ _ _ _ _ _ Hfr) as Hlen.
  exists rows, (metadata now (length rows) (List.map row_ts rows)).
  unfold stored_text. rewrite Hposes.
  destruct (session_stream_columns t rows) as (H1 & _ & H3).
  split; [ exact H1 | ]. split; [ exact H3 | ].
  intros Hpos. rewrite Hmeta, Hlen.
  destruct (Nat.ltb_spec 0 n) as [ _ | ]; [ | lia ].
  split; [ reflexivity | ]. split; [ reflexivity | ].
  apply summary_fps_cases. intros E.
  apply (f_equal (@length _)) in E. rewrite List.length_map in E. cbn in E. lia.
Qed.

(** Three frames under the clock that does not advance. *)
Lemma fps_is_zero_without_duration_witness :
  record_session frozen 10 session_dir 3600 90 fresh
    = (Ret true, snd (record_session frozen 10 session_dir 3600 90 fresh))
  /\ verified frozen fresh = true
  /\ exists rows doc,
       frame_records
         (stored_text
            (replay empty_storage
               (log (snd (record_session frozen 10 session_dir 3600 90 fresh))))
            (poses_file session_dir))
         = imap (fun i r => frame_pose i (row_ts r) (row_hands r) (row_body r)) rows
       /\ frame_timestamps
            (stored_text
               (replay empty_storage
                  (log (snd (record_session frozen 10 session_dir 3600 90 fresh))))
               (poses_file session_dir))
          = List.map row_ts rows
       /\ ((1 <= length rows)%nat ->
           files (replay empty_storage
                    (log (snd (record_session frozen 10 session_dir 3600 90 fresh))))
             !! metadata_file session_dir
           = Some (Text [ JsonDoc 2 doc ])
           /\ field "frame_count" doc = Some (JInt (Z.of_nat (length rows)))
           /\ field "duration_seconds" doc
              = Some (JFloat (inject_Z (List.last (List.map row_ts rows) 0%Z) / 1000))
           /\ ((0 < List.last (List.map row_ts rows) 0)%Z ->
               field "fps" doc
                 = Some (JFloat (inject_Z (Z.of_nat (length rows))
                                 / (inject_Z (List.last (List.map row_ts rows) 0%Z)
                                    / 1000))))
           /\ ((List.last (List.map row_ts rows) 0 <= 0)%Z ->
               field "fps" doc = Some (JInt 0))).
Proof.
  assert (record_session frozen 10 session_dir 3600 90 fresh
          = (Ret true, snd (record_session frozen 10 session_dir 3600 90 fresh))) as H
    by (vm_compute; reflexivity).
  assert (verified frozen fresh = true) as Hv by reflexivity.
  split; [ exact H | ]. split; [ exact Hv | ].
  exact (fps_is_zero_without_duration frozen 10 session_dir 3600 90 fresh true _
           empty_storage H Hv).
Defined.

(** What that session left: three records stamped 0 and a summary that
    reports three frames, a duration of 0 and the integer 0 for [fps]. *)
Example frozen_session_summary :
  frame_timestamps
    (stored_text
       (replay empty_storage (log (snd (record_session frozen 10 session_dir 3600 90 fresh))))
       (poses_file session_dir))
    = [ 0; 0; 0 ]%Z
  /\ exists doc,
       files (replay empty_storage
                (log (snd (record_session frozen 10 session_dir 3600 90 fresh))))
         !! metadata_file session_dir
       = Some (Text [ JsonDoc 2 doc ])
       /\ field "frame_count" doc = Some (JInt 3)
       /\ field "fps" doc = Some (JInt 0).
Proof.
  split; [ vm_compute; reflexivity | ].
  eexists. split; [ vm_compute; reflexivity | ]. split; reflexivity.
Qed.

(** ** Layout of the pose stream *)

Lemma session_lines_are_frames rows :
  Forall (fun c => exists v, c = JsonLine v /\ field "_type" v = Some (JStr "frame"))
    (session_lines rows).
Proof.
  unfold session_lines. apply Forall_lookup_2. intros i c Hi.
  rewrite list_lookup_imap in Hi. destruct (rows !! i) as [ r | ]; [ | discriminate Hi ].
  injection Hi as <-. eexists. split; reflexivity.
Qed.

Lemma session_stream_layout t rows : header_then_frames (header_text t :: session_lines rows).
Proof.
  exists (header (session_intrinsics t)), (session_lines rows).
  repeat split; try reflexivity. apply session_lines_are_frames.
Qed.

(** C8.  After a session attempt the pose stream is as it was before (the
    attempt never opened it), or empty (the header write was cut short by
    storage raising), or a header line with [_type "header"] listing the
    21 landmark names and the 17 body keypoint names of the fixed schemas,
    followed by lines with [_type "frame"] only; reading the stored
    header back gives these two counts.  The last case is the one of
    every attempt that passes the gate and does not raise. *)
Theorem pose_stream_is_header_then_frames env fuel out maxd maxu w s0 :
  let w' := snd (record_session env fuel out maxd maxu w) in
  let stream := stored_text (replay s0 (log w')) (poses_file out) in
  (files (replay s0 (log w')) !! poses_file out = files (replay s0 (log w)) !! poses_file out
   \/ files (replay s0 (log w')) !! poses_file out = Some (Text [])
   \/ header_then_frames stream)
  /\ (verified env w = true ->
      (forall e, fst (record_session env fuel out maxd maxu w) <> Raise e) ->
      header_then_frames stream).
Proof.
  cbv zeta. destruct (verified env w) eqn:Hv.
  - destruct (session_stream env fuel out maxd maxu w s0 Hv)
      as (t & Ht & [ (e & body & He & _ & _ & Hfile)
                   | (n & c & rows & frames & rest & Hfr & Hlog & Hfile) ]).
    + split; [ tauto | ]. intros _ Hno. destruct (Hno e He).
    + assert (header_then_frames
                (stored_text (replay s0 (log (snd (record_session env fuel out maxd maxu w))))
                   (poses_file out))) as H
        by (unfold stored_text; rewrite Hfile; apply session_stream_layout).
      auto.
  - split; [ | discriminate ]. left. rewrite gate_failure_replay by exact Hv. reflexivity.
Qed.

Lemma pose_stream_is_header_then_frames_witness :
  verified steady fresh = true
  /\ (forall e, fst (record_session steady 10 session_dir 3600 90 fresh) <> Raise e)
  /\ header_then_frames
       (stored_text
          (replay empty_storage (log (snd (record_session steady 10 session_dir 3600 90 fresh))))
          (poses_file session_dir)).
Proof.
  assert (verified steady fresh = true) as Hv by reflexivity.
  assert (forall e, fst (record_session steady 10 session_dir 3600 90 fresh) <> Raise e)
    as Hno by (intros e; vm_compute; discriminate).
  split; [ exact Hv | ]. split; [ exact Hno | ].
  exact (proj2 (pose_stream_is_header_then_frames steady 10 session_dir 3600 90 fresh
                  empty_storage) Hv Hno).
Defined.

(** ** Where the persisted frames come from *)

Lemma image_writes_closing out j now n tss : image_writes (closing_events out j now n tss) = [].
Proof. unfold closing_events, write_events. destruct (0 <? n)%nat; reflexivity. Qed.

Lemma written_closing out j now n tss :
  written (poses_file out) (closing_events out j now n tss) = [].
Proof.
  unfold closing_events, write_events. destruct (0 <? n)%nat; cbn; paths; reflexivity.
Qed.

Lemma aborted_closing_projections out j now n tss evs :
  In evs (aborted_closings out j now n tss) ->
  image_writes evs = [] /\ written (poses_file out) evs = [].
Proof.
  intros H. unfold aborted_closings, aborted_write in H. shapes H; cbn; paths; auto.
Qed.

Lemma aborted_opening_written out t evs :
  In evs (aborted_openings out t) ->
  written (poses_file out) evs = [] \/ written (poses_file out) evs = [ header_text t ].
Proof.
  intros H. unfold aborted_openings, aborted_write, write_events in H. shapes H;
    cbn [written flat_map app];
    try (change (flat_map _ ?l) with (written (poses_file out) l));
    rewrite ?written_app, ?(written_untouched _ _ (calibration_note_untouched t));
    cbn; paths; auto.
Qed.

Lemma aborted_frame_projections env start out n k img ok line blk :
  In blk (aborted_frames out n k img ok line) ->
  blk = [] \/ blk = [ ENextFrame k ] \/ from_pull env start k n img line ->
  (image_writes blk = []
   \/ image_writes blk = [ (image_file out n, img, ok) ] /\ from_pull env start k n img line)
  /\ (written (poses_file out) blk = []
      \/ written (poses_file out) blk = [ JsonLine line ]
         /\ from_pull env start k n img line).
Proof.
  intros H Hfrom. unfold aborted_frames, aborted_write in H. shapes H;
    cbn; paths; (split; [ try (left; reflexivity) | try (left; reflexivity) ]); right;
    (split; [ reflexivity | ]);
    (destruct Hfrom as [ Hfrom | [ Hfrom | Hfrom ] ]; [ discriminate | discriminate | assumption ]).
Qed.

(** C10.  Let [k] be the number of the verification call of
    [next_frame()] (the last event of the gate).  Nothing is written for
    it: the [i]-th image that the session hands to [cv2.imwrite] goes to
    the file of frame [i] and is the frame delivered by call [k + 1 + i],
    and the record written after the header for frame [i] (so the one
    with [frame_idx] 0 for the first pull of the loop) is derived from the
    detections of that same call. *)
Theorem verification_frame_is_never_persisted env fuel out maxd maxu w :
  verified env w = true ->
  let w' := snd (record_session env fuel out maxd maxu w) in
  exists body,
    log w' = log w ++ gate_events w ++ body
    /\ (forall i p img ok,
          image_writes body !! i = Some (p, img, ok) ->
          p = image_file out i
          /\ exists hands b, next_frame env (S (n_frame w) + i) = inr (Some img, hands, b))
    /\ (forall i line,
          written (poses_file out) body !! S i = Some line ->
          exists img hands b hands_data body_data ts,
            next_frame env (S (n_frame w) + i) = inr (Some img, hands, b)
            /\ hands_entries hands = inr hands_data
            /\ body_entry b = inr body_data
            /\ line = JsonLine (frame_pose i ts hands_data body_data)).
Proof.
  intros Hv. cbv zeta.
  destruct (record_session_spec env fuel out maxd maxu w Hv) as (t & Ht & H).
  destruct (record_session env fuel out maxd maxu w) as [ o w' ]. cbn [snd].
  destruct H as (body & Hlog
                 & [ (e & -> & _ & Hin)
                   | (n & c & rows & frames & last & closing & Hfr & -> & Hend) ]).
  - exists body. split; [ exact Hlog | ]. split.
    + intros i p img ok Hi. rewrite (aborted_opening_images _ _ _ Hin) in Hi. discriminate Hi.
    + intros i line Hi.
      destruct (aborted_opening_written _ _ _ Hin) as [ E | E ]; rewrite E in Hi;
        discriminate Hi.
  - eexists. split; [ exact Hlog | ].
    pose proof (frames_logged_length _ _ _ _ _ _ _ _ _ _ Hfr) as Hlen.
    assert ((image_writes (last ++ closing) = []
             \/ exists img ok line,
                  image_writes (last ++ closing) = [ (image_file out n, img, ok) ]
                  /\ from_pull env (time_time env (n_time w)) (S (n_frame w) + n) n img line)
            /\ (written (poses_file out) (last ++ closing) = []
                \/ exists img line,
                     written (poses_file out) (last ++ closing) = [ JsonLine line ]
                     /\ from_pull env (time_time env (n_time w)) (S (n_frame w) + n) n
                          img line)) as [ Himg Hwr ].
    { rewrite image_writes_app, written_app.
      inversion Hend as [ r0 r last' j now Hexit Hr
                        | e r noise img ok line blk Hcoop Hnoise Hin Hfrom
                        | e r r0 last' j now closing' Hf Hexit Hpos Hin
                        | r ]; subst.
      - pose proof (loop_exit_untouched _ _ _ _ _ _ _ _ _ Hexit) as Hq.
        rewrite (image_writes_untouched _ Hq), (written_untouched _ _ Hq).
        rewrite image_writes_closing, written_closing. auto.
      - pose proof (check_noise_untouched _ _ _ _ Hnoise) as Hq.
        rewrite image_writes_app, written_app.
        rewrite (image_writes_untouched _ Hq), (written_untouched _ _ Hq).
        cbn [app image_writes written flat_map]. rewrite !app_nil_r.
        destruct (aborted_frame_projections env (time_time env (n_time w)) _ _ _ _ _ _ _
                    Hin Hfrom) as [ [ E1 | [ E1 F1 ] ] [ E2 | [ E2 F2 ] ] ];
          fold (image_writes blk); fold (written (poses_file out) blk);
          rewrite E1, E2; split; eauto 6.
      - pose proof (loop_exit_untouched _ _ _ _ _ _ _ _ _ Hexit) as Hq.
        rewrite (image_writes_untouched _ Hq), (written_untouched _ _ Hq).
        destruct (aborted_closing_projections _ _ _ _ _ _ Hin) as [ -> -> ]. auto.
      - auto. }
    split.
    + intros i p img ok Hi.
      rewrite image_writes_app, image_writes_opening, image_writes_app in Hi.
      rewrite (frames_logged_images _ _ _ _ _ _ _ _ _ _ Hfr) in Hi. cbn [app] in Hi.
      apply lookup_app_Some in Hi as [ Hi | [ Hge Hi ] ].
      * rewrite list_lookup_imap in Hi.
        destruct (rows !! i) as [ r | ] eqn:Hr; [ | discriminate Hi ].
        injection Hi as <- <- <-. split; [ reflexivity | ].
        destruct (frames_logged_pulls _ _ _ _ _ _ _ _ _ _ Hfr i r Hr) as (hands & b & Hp & _).
        eauto.
      * rewrite length_imap, Hlen in *.
        destruct Himg as [ E | (img' & ok' & line & E & Hfrom) ]; rewrite E in Hi;
          [ discriminate Hi | ].
        destruct (i - n)%nat as [ | m ] eqn:Hm; [ | discriminate Hi ].
        injection Hi as <- <- <-. assert (i = n) as -> by lia.
        split; [ reflexivity | ].
        destruct Hfrom as (hands & b & hd & bd & ts & Hp & _). eauto.
    + intros i line Hi.
      rewrite written_app, written_opening, written_app in Hi.
      rewrite (frames_logged_written _ _ _ _ _ _ _ _ _ _ Hfr) in Hi.
      cbn [app] in Hi. change ((?x :: ?l) !! S i) with (l !! i) in Hi.
      apply lookup_app_Some in Hi as [ Hi | [ Hge Hi ] ].
      * unfold session_lines in Hi. rewrite list_lookup_imap in Hi.
        destruct (rows !! i) as [ r | ] eqn:Hr; [ | discriminate Hi ].
        injection Hi as <-.
        destruct (frames_logged_pulls _ _ _ _ _ _ _ _ _ _ Hfr i r Hr)
          as (hands & b & Hp & Hhd & Hbd).
        exists (row_image r), hands, b, (row_hands r), (row_body r), (row_ts r). auto.
      * unfold session_lines in Hge, Hi. rewrite length_imap, Hlen in *.
        destruct Hwr as [ E | (img' & line' & E & Hfrom) ]; rewrite E in Hi;
          [ discriminate Hi | ].
        destruct (i - n)%nat as [ | m ] eqn:Hm; [ | discriminate Hi ].
        injection Hi as <-. assert (i = n) as -> by lia.
        destruct Hfrom as (hands & b & hd & bd & ts & Hp & Hhd & Hbd & ->).
        exists img', hands, b, hd, bd. eauto.
Qed.

Lemma verification_frame_is_never_persisted_witness :
  verified steady fresh = true
  /\ exists body,
       log (snd (record_session steady 10 session_dir 3600 90 fresh))
         = log fresh ++ gate_events fresh ++ body
       /\ (forall i p img ok,
             image_writes body !! i = Some (p, img, ok) ->
             p = image_file session_dir i
             /\ exists hands b,
                  next_frame steady (S (n_frame fresh) + i) = inr (Some img, hands, b))
       /\ (forall i line,
             written (poses_file session_dir) body !! S i = Some line ->
             exists img hands b hands_data body_data ts,
               next_frame steady (S (n_frame fresh) + i) = inr (Some img, hands, b)
               /\ hands_entries hands = inr hands_data
               /\ body_entry b = inr body_data
               /\ line = JsonLine (frame_pose i ts hands_data body_data)).
Proof.
  assert (verified steady fresh = true) as Hv by reflexivity.
  split; [ exact Hv | ].
  exact (verification_frame_is_never_persisted steady 10 session_dir 3600 90 fresh Hv).
Defined.

(** ** Exceptions *)

Lemma storage_faulty_not_cooperative env : storage_faulty env -> ~ cooperative env.
Proof. intros (k & e & H) (Hs & _). rewrite Hs in H. discriminate H. Qed.

(** Among cooperative collaborators a session raises nothing, whatever
    the tracker does. *)
Lemma cooperative_never_raises env fuel out maxd maxu w :
  cooperative env -> forall e, fst (record_session env fuel out maxd maxu w) <> Raise e.
Proof.
  intros Hcoop e He. destruct (verified env w) eqn:Hv.
  - destruct (record_session_spec env fuel out maxd maxu w Hv) as (t & Ht & H).
    destruct (record_session env fuel out maxd maxu w) as [ o w' ]. cbn [fst] in He. subst o.
    destruct H as (body & Hlog
                   & [ (e' & _ & Hf & _)
                     | (n & c & rows & frames & last & closing & Hfr & -> & Hend) ]).
    + exact (storage_faulty_not_cooperative env Hf Hcoop).
    + inversion Hend as [ | ? ? ? ? ? ? ? Hno | ? ? ? ? ? ? ? Hf | ]; subst.
      * exact (Hno Hcoop).
      * exact (storage_faulty_not_cooperative env Hf Hcoop).
  - destruct (gate_failure env fuel out maxd maxu w Hv) as (evs & Hret & _).
    rewrite Hret in He. discriminate He.
Qed.

(** The loop is left once the clock is past the duration limit. *)
Lemma frame_loop_terminates env out maxd maxu start N fuel :
  (forall i, (N <= i)%nat -> Qgt_bool (time_time env i - start) maxd = true) ->
  forall st w,
    (0 < fuel)%nat -> (N < n_time w + fuel)%nat ->
    fst (frame_loop env fuel out maxd maxu start st w) <> Timeout.
Proof.
  intros Hlimit. induction fuel as [ | fuel IH ]; intros st w Hpos Hfuel; [ lia | ].
  cbn [frame_loop]. unfold mbind, M_bind, bind.
  pose proof (frame_step_spec env out maxd maxu start st w) as Hstep.
  destruct (frame_step env out maxd maxu start st w) as [ [ [ [ | ] st' ] | e | ] w' ];
    try discriminate.
  - destruct Hstep as (noise & img & ok & hands & b & hd & bd & _ & _ & _ & _ & _ & _ & _
                       & _ & Hc & Hru).
    assert (n_time w < N)%nat as Hlt.
    { destruct (Nat.lt_ge_cases (n_time w) N) as [ H | H ]; [ exact H | ].
      rewrite (Hlimit _ H) in Hru. discriminate Hru. }
    apply IH; lia.
  - destruct Hstep.
Qed.

Lemma record_session_terminates env fuel out maxd maxu w N :
  (forall i, (N <= i)%nat ->
             Qgt_bool (time_time env i - time_time env (n_time w)) maxd = true) ->
  (0 < fuel)%nat -> (N <= n_time w + fuel)%nat ->
  fst (record_session env fuel out maxd maxu w) <> Timeout.
Proof.
  intros Hlimit Hpos Hfuel. destruct (verified env w) eqn:Hv.
  - unfold verified in Hv.
    destruct w as [rn lg ni nf ne nt nd ns nst nim nn]. cbn [n_init n_frame n_time] in *.
    destruct (tracker_init env ni) as [ | t ] eqn:Ht; [ discriminate | ].
    destruct (next_frame env nf) as [ | [ [ [ img | ] hs ] b ] ] eqn:Hp; try discriminate.
    destruct (record_session env fuel out maxd maxu _) as [ o w' ] eqn:Hrun.
    unfold record_session, acquire, verify in Hrun.
    unfold_monad_in Hrun. rewrite Ht in Hrun. unfold_monad_in Hrun.
    rewrite Hp in Hrun. unfold_monad_in Hrun.
    match type of Hrun with
    | context [open_session env out t ?w1] =>
        pose proof (open_session_spec env out t w1) as Ho;
        destruct (open_session env out t w1) as [ [ [ start st ] | e | ] w2 ]
    end; cbn [log n_frame n_time running] in Ho.
    + destruct Ho as (-> & -> & _ & _ & _ & Hc2).
      match type of Hrun with
      | context [frame_loop env fuel out maxd maxu ?s ?st0 w2] =>
          pose proof (frame_loop_terminates env out maxd maxu s N fuel Hlimit st0 w2 Hpos)
            as Hl;
          destruct (frame_loop env fuel out maxd maxu s st0 w2) as [ [ st3 | e | ] w3 ]
      end.
      * pose proof (close_session_spec env out st3 w3) as Hc.
        destruct (close_session env out st3 w3) as [ [ r | e | ] w4 ];
          injection Hrun as <- <-; [ discriminate | discriminate | destruct Hc ].
      * injection Hrun as <- <-. discriminate.
      * exfalso. apply Hl; [ lia | reflexivity ].
    + injection Hrun as <- <-. discriminate.
    + destruct Ho.
  - destruct (gate_failure env fuel out maxd maxu w Hv) as (evs & Hret & _).
    rewrite Hret. discriminate.
Qed.

Lemma returned_flag env fuel out maxd maxu w r w' :
  record_session env fuel out maxd maxu w = (Ret r, w') -> r = running w'.
Proof.
  intros Hrun. destruct (verified env w) eqn:Hv.
  - destruct (returned_session env fuel out maxd maxu w r w' Hv Hrun)
      as (t & n & c & rows & frames & r0 & last & j & now & _ & _ & _ & _ & Hr & _).
    exact Hr.
  - destruct (gate_failure env fuel out maxd maxu w Hv) as (evs & Hret & _).
    rewrite Hrun in Hret. cbn in Hret. injection Hret as Hret. exact Hret.
Qed.

(** ** Disk exhaustion *)

Lemma not_tripped_untouched_prints maxu evs :
  Forall (fun ev => console_or_tracker ev = true \/ touches_storage ev = true
                    \/ is_sleep ev = true) evs ->
  Forall (fun ev => tripped maxu ev = false) evs.
Proof.
  apply List.Forall_impl. intros ev [ H | [ H | H ] ]; destruct ev; try discriminate H;
    reflexivity.
Qed.

Lemma gate_not_tripped maxu w : Forall (fun ev => tripped maxu ev = false) (gate_events w).
Proof. repeat constructor. Qed.

Lemma opening_not_tripped maxu out t :
  Forall (fun ev => tripped maxu ev = false) (opening_events out t).
Proof.
  unfold opening_events, folders_events, calibration_note.
  destruct (calibrated_intrinsics t); repeat constructor.
Qed.

Lemma closing_not_tripped maxu out j now n tss :
  Forall (fun ev => tripped maxu ev = false) (closing_events out j now n tss).
Proof. unfold closing_events. destruct (0 <? n)%nat; repeat constructor. Qed.

Lemma aborted_frame_not_tripped maxu out n k img ok line blk :
  In blk (aborted_frames out n k img ok line) ->
  Forall (fun ev => tripped maxu ev = false) blk.
Proof.
  intros H. unfold aborted_frames, aborted_write in H. shapes H; repeat constructor.
Qed.

Lemma Exists_not_Forall {A} (P : A -> bool) l :
  Exists (fun x => P x = true) l -> Forall (fun x => P x = false) l -> False.
Proof.
  intros Hex Hall. apply List.Exists_exists in Hex as (x & Hin & Hx).
  rewrite List.Forall_forall in Hall. rewrite (Hall x Hin) in Hx. discriminate Hx.
Qed.

(** A loop exit that holds a sample above the threshold is the exit of the
    disk check. *)
Lemma loop_exit_tripped env out maxd maxu start n k r last :
  loop_exit env out maxd maxu start n k r last ->
  Exists (fun ev => tripped maxu ev = true) last ->
  r = false
  /\ exists usage,
       Qgt_bool usage maxu = true
       /\ last = [ EDiskUsage out usage; EPrint (MsgDiskHigh usage) ].
Proof.
  intros [ | i H | usage H | noise e Hn H | noise hands b Hn H ] Hex.
  - inversion Hex.
  - exfalso. apply (Exists_not_Forall _ _ Hex). repeat constructor.
  - eauto.
  - exfalso. apply List.Exists_app in Hex as [ Hex | Hex ].
    + exact (Exists_not_Forall _ _ Hex (check_noise_not_tripped _ _ _ _ Hn)).
    + apply (Exists_not_Forall _ _ Hex). repeat constructor.
  - exfalso. apply List.Exists_app in Hex as [ Hex | Hex ].
    + exact (Exists_not_Forall _ _ Hex (check_noise_not_tripped _ _ _ _ Hn)).
    + apply (Exists_not_Forall _ _ Hex). repeat constructor.
Qed.

(** ** Interruptions *)

Lemma handle_run_app p evs1 :
  forall h evs2,
    handle_run p h (evs1 ++ evs2)
      = match handle_run p h evs1 with
        | Some h' => handle_run p h' evs2
        | None => None
        end.
Proof.
  induction evs1 as [ | ev evs1 IH ]; intros h evs2; [ reflexivity | ].
  cbn. destruct (handle_step p h ev); [ apply IH | reflexivity ].
Qed.

Lemma handle_run_app_Some p h h1 evs1 evs2 :
  handle_run p h evs1 = Some h1 -> handle_run p h (evs1 ++ evs2) = handle_run p h1 evs2.
Proof. intros H. rewrite handle_run_app, H. reflexivity. Qed.

Lemma handle_step_unconcerned p h ev : concerns p ev = false -> handle_step p h ev = Some h.
Proof.
  destruct ev as [ | | | | | | | q m | q t | q | q img quality ok ]; cbn;
    intros H; rewrite ?H; reflexivity.
Qed.

Lemma handle_run_unconcerned p evs :
  Forall (fun ev => concerns p ev = false) evs -> forall h, handle_run p h evs = Some h.
Proof.
  induction 1 as [ | ev evs Hev _ IH ]; intros h; [ reflexivity | ].
  cbn. rewrite (handle_step_unconcerned p h ev Hev). apply IH.
Qed.

Lemma handle_run_skip p h evs1 evs2 :
  Forall (fun ev => touches_storage ev = false) evs1 ->
  handle_run p h (evs1 ++ evs2) = handle_run p h evs2.
Proof.
  intros H. apply handle_run_app_Some, handle_run_unconcerned.
  revert H. apply List.Forall_impl. intros ev H. destruct ev; try discriminate H; reflexivity.
Qed.

Lemma untouched_unconcerned p evs :
  Forall (fun ev => touches_storage ev = false) evs ->
  Forall (fun ev => concerns p ev = false) evs.
Proof.
  apply List.Forall_impl. intros ev H. destruct ev; try discriminate H; reflexivity.
Qed.

(** A prefix of a disciplined log is disciplined. *)
Lemma handle_run_prefix p pre post h :
  is_Some (handle_run p h (pre ++ post)) -> is_Some (handle_run p h pre).
Proof.
  rewrite handle_run_app. destruct (handle_run p h pre); [ eauto | intros [ x H ]; discriminate H ].
Qed.

Lemma handle_step_view p initial h h' v lines ev :
  handle_view initial h v lines ->
  handle_step p h ev = Some h' ->
  handle_view initial h' (local_event p v ev) (lines ++ written p [ ev ])
  /\ Forall is_line (written p [ ev ]).
Proof.
  intros Hv Hstep.
  destruct (concerns p ev) eqn:Hc.
  - destruct ev as [ | | | | | | | q m | q t | q | q img quality ok ];
      try discriminate Hc; cbn in Hc, Hstep |- *; rewrite Hc in *.
    + destruct m, h; try discriminate Hstep; injection Hstep as <-; cbn in Hv |- *.
      * destruct Hv as [ -> _ ]. split; [ reflexivity | constructor ].
      * rewrite Hv, app_nil_r. split; [ reflexivity | constructor ].
    + destruct t as [ x | ], h; try discriminate Hstep; injection Hstep as <-.
      cbn in Hv |- *. rewrite Hv. split; [ | repeat constructor; eexists; reflexivity ].
      exists lines, (JsonLine x). split; reflexivity.
    + destruct h; try discriminate Hstep; injection Hstep as <-; cbn in Hv |- *.
      * rewrite Hv. cbn. rewrite !app_nil_r. split; [ reflexivity | constructor ].
      * destruct Hv as (W & l & -> & ->). cbn. rewrite app_nil_r.
        split; [ reflexivity | constructor ].
    + discriminate Hstep.
  - rewrite (handle_step_unconcerned p h ev Hc) in Hstep. injection Hstep as <-.
    rewrite (local_unconcerned p v ev Hc).
    assert (written p [ ev ] = []) as ->.
    { destruct ev; try reflexivity. cbn in Hc |- *. rewrite Hc. reflexivity. }
    rewrite app_nil_r. split; [ exact Hv | constructor ].
Qed.

Lemma handle_run_view p initial evs :
  forall h h' v lines,
    handle_view initial h v lines ->
    handle_run p h evs = Some h' ->
    handle_view initial h' (fold_left (local_event p) evs v) (lines ++ written p evs)
    /\ Forall is_line (written p evs).
Proof.
  induction evs as [ | ev evs IH ]; intros h h' v lines Hv Hrun.
  - cbn in Hrun |- *. injection Hrun as <-. rewrite app_nil_r. split; [ exact Hv | constructor ].
  - cbn [handle_run] in Hrun. destruct (handle_step p h ev) as [ h1 | ] eqn:Hstep;
      [ | discriminate Hrun ].
    destruct (handle_step_view p initial h h1 v lines ev Hv Hstep) as [ Hv1 Hl1 ].
    destruct (IH h1 h' _ _ Hv1 Hrun) as [ Hv' Hl' ].
    change (ev :: evs) with ([ ev ] ++ evs). rewrite written_app, app_assoc.
    split; [ exact Hv' | apply List.Forall_app; split; assumption ].
Qed.

(** What a handle state lets an abrupt stop leave in the file. *)
Lemma handle_view_durable initial h v lines :
  handle_view initial h v lines ->
  (lines = [] /\ fst v = initial)
  \/ fst v = Some (Text lines)
  \/ fst v = Some (Text (removelast lines)).
Proof.
  destruct h; cbn; intros H.
  - auto.
  - right. left. rewrite H. reflexivity.
  - right. left. rewrite H. reflexivity.
  - destruct H as (W & l & -> & ->). right. right. rewrite removelast_last. reflexivity.
Qed.

Lemma frames_logged_handle env out maxu start k0 c0 n c rows evs :
  frames_logged env out maxu start k0 c0 n c rows evs ->
  handle_run (poses_file out) HClosed evs = Some HClosed.
Proof.
  induction 1 as [ | n c rows evs noise i img ok hands b hd bd Hfr IH Hnoise _ _ _ _ ];
    [ reflexivity | ].
  rewrite (handle_run_app_Some _ _ _ _ _ IH).
  rewrite (handle_run_skip _ _ _ _ (check_noise_untouched _ _ _ _ Hnoise)).
  unfold frame_events, write_events. cbn [handle_run handle_step]. paths. reflexivity.
Qed.

Lemma opening_handle out t :
  handle_run (poses_file out) Untouched (opening_events out t) = Some HClosed.
Proof.
  unfold opening_events, folders_events, write_events. rewrite <- !app_assoc.
  cbn [handle_run handle_step app].
  rewrite (handle_run_skip _ _ _ _ (calibration_note_untouched t)).
  cbn [handle_run handle_step app]. paths. reflexivity.
Qed.

Lemma aborted_opening_handle out t evs :
  In evs (aborted_openings out t) -> is_Some (handle_run (poses_file out) Untouched evs).
Proof.
  intros H. unfold aborted_openings, aborted_write, write_events in H. shapes H;
    rewrite <- ?app_assoc; cbn [handle_run handle_step app];
    rewrite ?(handle_run_skip _ _ _ _ (calibration_note_untouched t));
    cbn [handle_run handle_step app]; paths; eauto.
Qed.

Lemma aborted_frame_handle out n k img ok line blk :
  In blk (aborted_frames out n k img ok line) ->
  is_Some (handle_run (poses_file out) HClosed blk).
Proof.
  intros H. unfold aborted_frames, aborted_write in H. shapes H;
    cbn [handle_run handle_step]; paths; eauto.
Qed.

Lemma closing_handle out j now n tss h :
  handle_run (poses_file out) h (closing_events out j now n tss) = Some h.
Proof.
  unfold closing_events, write_events.
  destruct (0 <? n)%nat; cbn [handle_run handle_step app]; paths; reflexivity.
Qed.

Lemma aborted_closing_handle out j now n tss evs h :
  In evs (aborted_closings out j now n tss) ->
  handle_run (poses_file out) h evs = Some h.
Proof.
  intros H. unfold aborted_closings, aborted_write in H. shapes H;
    cbn [handle_run handle_step]; paths; reflexivity.
Qed.

(** Every session keeps the discipline on its pose stream. *)
Lemma session_handle env fuel out maxd maxu w :
  exists evs,
    log (snd (record_session env fuel out maxd maxu w)) = log w ++ evs
    /\ is_Some (handle_run (poses_file out) Untouched evs).
Proof.
  destruct (verified env w) eqn:Hv.
  - destruct (record_session_spec env fuel out maxd maxu w Hv) as (t & Ht & H).
    destruct (record_session env fuel out maxd maxu w) as [ o w' ]. cbn [snd].
    destruct H as (body & Hlog
                   & [ (e & -> & _ & Hin)
                     | (n & c & rows & frames & last & closing & Hfr & -> & Hend) ]).
    + eexists. split; [ exact Hlog | ].
      rewrite (handle_run_app_Some _ _ Untouched (gate_events w)) by reflexivity.
      exact (aborted_opening_handle out t body Hin).
    + eexists. split; [ exact Hlog | ].
      rewrite (handle_run_app_Some _ _ Untouched (gate_events w)) by reflexivity.
      rewrite (handle_run_app_Some _ _ _ _ _ (opening_handle out t)).
      rewrite (handle_run_app_Some _ _ _ _ _ (frames_logged_handle _ _ _ _ _ _ _ _ _ _ Hfr)).
      inversion Hend as [ r0 r last' j now Hexit Hr
                        | e r noise img ok line blk Hcoop Hnoise Hin Hfrom
                        | e r r0 last' j now closing' Hf Hexit Hpos Hin
                        | r ]; subst.
      * rewrite (handle_run_skip _ _ _ _ (loop_exit_untouched _ _ _ _ _ _ _ _ _ Hexit)).
        rewrite closing_handle. eauto.
      * rewrite app_nil_r.
        rewrite (handle_run_skip _ _ _ _ (check_noise_untouched _ _ _ _ Hnoise)).
        exact (aborted_frame_handle _ _ _ _ _ _ _ Hin).
      * rewrite (handle_run_skip _ _ _ _ (loop_exit_untouched _ _ _ _ _ _ _ _ _ Hexit)).
        rewrite (aborted_closing_handle _ _ _ _ _ _ HClosed Hin). eauto.
      * cbn. eauto.
  - destruct (gate_failure_untouched env fuel out maxd maxu w Hv) as (evs & Hlog & Hq).
    exists evs. split; [ exact Hlog | ].
    rewrite (handle_run_unconcerned _ _ (untouched_unconcerned _ _ Hq)). eauto.
Qed.

(** The file as the file API presents it after any prefix of what a
    session did, a close handing the buffer of its handle over and the
    buffers of open handles being lost: it is what it was before the
    session, or holds exactly the lines handed to [write] so far, or all
    of them but the last one.  What of this a power loss leaves on the
    device is decided below the file API and is not part of this
    development: the program never flushes or syncs, it only closes. *)
Lemma stream_after_any_prefix env fuel out maxd maxu w s0 :
  let w' := snd (record_session env fuel out maxd maxu w) in
  exists evs,
    log w' = log w ++ evs
    /\ is_Some (handle_run (poses_file out) Untouched evs)
    /\ (forall pre post,
          evs = pre ++ post ->
          let lines := written (poses_file out) pre in
          let stopped := replay s0 (log w ++ pre) in
          Forall is_line lines
          /\ ((lines = []
               /\ files stopped !! poses_file out = files (replay s0 (log w)) !! poses_file out)
              \/ files stopped !! poses_file out = Some (Text lines)
              \/ files stopped !! poses_file out = Some (Text (removelast lines))))
    /\ (forall r,
          fst (record_session env fuel out maxd maxu w) = Ret r ->
          verified env w = true ->
          files (replay s0 (log w')) !! poses_file out
            = Some (Text (written (poses_file out) evs))).
Proof.
  cbv zeta.
  destruct (session_handle env fuel out maxd maxu w) as (evs & Hlog & Hrun).
  exists evs. split; [ exact Hlog | ]. split; [ exact Hrun | ]. split.
  - intros pre post ->.
    destruct (handle_run_prefix _ _ _ _ Hrun) as [ h Hh ].
    pose proof (handle_run_view (poses_file out)
                  (files (replay s0 (log w)) !! poses_file out) pre Untouched h
                  (view_of (poses_file out) (replay s0 (log w))) []
                  (conj eq_refl eq_refl) Hh) as [ Hview Hlines ].
    rewrite <- view_after in Hview. cbn [app] in Hview.
    split; [ exact Hlines | ].
    exact (handle_view_durable _ _ _ _ Hview).
  - intros r Hret Hv.
    destruct (record_session env fuel out maxd maxu w) as [ o w' ] eqn:E.
    cbn [fst snd] in *. subst o.
    destruct (returned_session env fuel out maxd maxu w r w' Hv E)
      as (t & n & c & rows & frames & r0 & last & j & now & Ht & Hfr & Hexit & _ & _ & Hlog').
    destruct (returned_session_files out t w frames last j now n rows env maxu _ _ _ c
                maxd r0 s0 (log w) (log w') Hfr Hexit Hlog') as (Hposes & _).
    rewrite Hlog' in Hlog. apply app_inv_head in Hlog. subst evs.
    rewrite Hposes. rewrite !written_app, written_opening.
    rewrite (frames_logged_written _ _ _ _ _ _ _ _ _ _ Hfr).
    rewrite (written_untouched _ _ (loop_exit_untouched _ _ _ _ _ _ _ _ _ Hexit)).
    rewrite written_closing, !app_nil_r. reflexivity.
Qed.

(** * Further properties of the code *)

(** ** [get_disk_usage_percent] *)

(** X1.  The percentage computed from a sample of [shutil.disk_usage]: a
    filesystem of size zero makes the division raise, leaving no trace;
    otherwise, with [used] between 0 and [total], the sample is logged and
    the result lies between 0 and 100. *)
Theorem disk_usage_percent_range env p w total used free :
  disk_usage env (n_disk w) = inr (total, used, free) ->
  (total = 0%Z ->
     get_disk_usage_percent env p w = (Raise ZeroDivisionError, bump_disk w))
  /\ ((0 < total)%Z -> (0 <= used <= total)%Z ->
      exists percent,
        get_disk_usage_percent env p w
          = (Ret percent, bump_disk (add_event (EDiskUsage p percent) w))
        /\ (0 <= percent)%Q /\ (percent <= 100)%Q).
Proof.
  intros Hs. unfold get_disk_usage_percent. rewrite Hs. split.
  - intros ->. reflexivity.
  - intros Hpos Hused.
    destruct (Z.eqb_spec total 0) as [ -> | _ ]; [ lia | ].
    eexists. split; [ reflexivity | ].
    destruct total as [ | t | t ]; try lia.
    unfold Qle, Qdiv, Qmult, Qinv, inject_Z. cbn. split; nia.
Qed.

Lemma disk_usage_percent_range_witness :
  disk_usage steady (n_disk fresh) = inr (100, 50, 50)%Z
  /\ (0 < 100)%Z /\ (0 <= 50 <= 100)%Z
  /\ exists percent,
       get_disk_usage_percent steady session_dir fresh
         = (Ret percent, bump_disk (add_event (EDiskUsage session_dir percent) fresh))
       /\ (0 <= percent)%Q /\ (percent <= 100)%Q.
Proof.
  assert (disk_usage steady (n_disk fresh) = inr (100, 50, 50)%Z) as H by reflexivity.
  assert (0 < 100)%Z as H1 by lia.
  assert (0 <= 50 <= 100)%Z as H2 by lia.
  split; [ exact H | ]. split; [ exact H1 | ]. split; [ exact H2 | ].
  exact (proj2 (disk_usage_percent_range steady session_dir fresh 100 50 50 H) H1 H2).
Defined.

(** ** Frame names *)

Lemma digit_char_value d : (d < 10)%nat -> nat_of_ascii (digit_char d) = (48 + d)%nat.
Proof.
  intros H. unfold digit_char. apply nat_ascii_embedding. lia.
Qed.

Lemma digits_rev_value fuel :
  forall n, (n < fuel)%nat -> digits_value (digits_rev fuel n) = n.
Proof.
  induction fuel as [ | fuel IH ]; intros n Hn; [ lia | ].
  cbn [digits_rev]. destruct (Nat.ltb_spec n 10) as [ Hlt | Hge ].
  - cbn [digits_value]. rewrite digit_char_value by exact Hlt. lia.
  - cbn [digits_value].
    rewrite digit_char_value by (apply Nat.mod_upper_bound; lia).
    rewrite IH.
    + pose proof (Nat.div_mod_eq n 10). lia.
    + assert (n / 10 < n)%nat by (apply Nat.div_lt; lia). lia.
Qed.

Lemma digits_value_zeros k ds :
  digits_value (ds ++ repeat "0"%char k) = digits_value ds.
Proof.
  induction ds as [ | d ds IH ]; cbn [app digits_value].
  - induction k as [ | k IHk ]; [ reflexivity | ]. cbn [repeat digits_value]. rewrite IHk.
    reflexivity.
  - rewrite IH. reflexivity.
Qed.

(** The text of [{n:06d}] determines [n]. *)
Lemma fmt_06d_value n :
  digits_value (rev (list_ascii_of_string (fmt_06d n))) = n.
Proof.
  unfold fmt_06d, decimal. rewrite list_ascii_of_string_of_list_ascii.
  rewrite rev_app_distr, rev_involutive, rev_repeat.
  rewrite digits_value_zeros. apply digits_rev_value. lia.
Qed.

Lemma fmt_06d_inj n m : fmt_06d n = fmt_06d m -> n = m.
Proof.
  intros H. rewrite <- (fmt_06d_value n), <- (fmt_06d_value m), H. reflexivity.
Qed.

Lemma string_app_inv_tail (s1 s2 t : string) :
  (s1 ++ t)%string = (s2 ++ t)%string -> s1 = s2.
Proof.
  intros H. apply (f_equal list_ascii_of_string) in H.
  rewrite <- (string_of_list_ascii_of_string s1), <- (string_of_list_ascii_of_string s2).
  f_equal.
  assert (forall a b, list_ascii_of_string (a ++ b)%string
                      = list_ascii_of_string a ++ list_ascii_of_string b) as Happ.
  { induction a as [ | c a IH ]; intros b; simpl; [ reflexivity | f_equal; apply IH ]. }
  rewrite !Happ in H. eapply app_inv_tail. exact H.
Qed.

Lemma fmt_06d_length n : (6 <= String.length (fmt_06d n))%nat.
Proof.
  unfold fmt_06d.
  assert (forall l, String.length (string_of_list_ascii l) = length l) as Hlen.
  { induction l as [ | c l IH ]; cbn; [ reflexivity | rewrite IH; reflexivity ]. }
  rewrite Hlen, List.length_app, repeat_length. lia.
Qed.

Lemma frame_name_inj n m : frame_name n = frame_name m -> n = m.
Proof. unfold frame_name. cbn. intros H. injection H as H. apply fmt_06d_inj. exact H. Qed.

Lemma image_file_inj out n m : image_file out n = image_file out m -> n = m.
Proof.
  unfold image_file. intros H. apply child_inj in H as [ _ H ].
  apply string_app_inv_tail in H. apply frame_name_inj. exact H.
Qed.

(** X2.  Frame numbers and image files correspond one to one, so no image of a
    session overwrites another; and the number is written with at least
    six digits. *)
Theorem image_file_injective out n m :
  (image_file out n = image_file out m -> n = m)
  /\ (frame_name n = frame_name m -> n = m)
  /\ (12 <= String.length (frame_name n))%nat.
Proof.
  split; [ apply image_file_inj | split; [ apply frame_name_inj | ] ].
  pose proof (fmt_06d_length n) as H. unfold frame_name.
  change (12 <= 6 + String.length (fmt_06d n))%nat. lia.
Qed.

(** ** The images on storage *)

Lemma path_eqb_image out n i : path_eqb (image_file out n) (image_file out i) = Nat.eqb n i.
Proof.
  unfold path_eqb. destruct (Nat.eqb_spec n i) as [ -> | Hne ].
  - apply bool_decide_eq_true. reflexivity.
  - apply bool_decide_eq_false. intros H.
    apply image_file_inj in H. contradiction.
Qed.

(** What the frames leave at the path of image [i]. *)
Lemma frames_logged_image env out maxu start k0 c0 n c rows evs i :
  frames_logged env out maxu start k0 c0 n c rows evs ->
  forall v,
    fold_left (local_event (image_file out i)) evs v
      = match rows !! i with
        | Some r => if row_written r then (Some (Jpeg (row_image r) 85), snd v) else v
        | None => v
        end.
Proof.
  induction 1 as [ | n c rows evs noise j img ok hands b hd bd Hfr IH Hnoise _ _ _ _ ];
    intros v; [ reflexivity | ].
  pose proof (frames_logged_length _ _ _ _ _ _ _ _ _ _ Hfr) as Hlen.
  rewrite !fold_left_app, IH.
  rewrite (fold_local_untouched _ _ (check_noise_untouched _ _ _ _ Hnoise)).
  unfold frame_events, write_events. cbn [fold_left local_event].
  assert (path_eqb (poses_file out) (image_file out i) = false) as Hp by (paths; reflexivity).
  rewrite Hp, path_eqb_image.
  destruct (Nat.eqb_spec n i) as [ <- | Hne ].
  - rewrite lookup_app_r by lia. rewrite Hlen, Nat.sub_diag. cbn [lookup list_lookup].
    rewrite (lookup_ge_None_2 rows n) by lia. cbn [row_written row_image].
    destruct ok; reflexivity.
  - destruct (Nat.lt_ge_cases i n) as [ Hlt | Hge ].
    + rewrite lookup_app_l by lia. destruct ok; reflexivity.
    + rewrite (lookup_ge_None_2 rows i) by lia.
      rewrite (lookup_ge_None_2 (rows ++ _) i)
        by (rewrite List.length_app; cbn; lia).
      destruct ok; reflexivity.
Qed.

Lemma aborted_frame_image out n k img ok line blk i v :
  i <> n ->
  In blk (aborted_frames out n k img ok line) ->
  fold_left (local_event (image_file out i)) blk v = v.
Proof.
  intros Hne H.
  assert (path_eqb (poses_file out) (image_file out i) = false) as Hp by (paths; reflexivity).
  assert (path_eqb (image_file out n) (image_file out i) = false) as Hi
    by (rewrite path_eqb_image; apply Nat.eqb_neq; auto).
  unfold aborted_frames, aborted_write in H. shapes H;
    cbn [fold_left local_event]; rewrite ?Hp, ?Hi; destruct ok; reflexivity.
Qed.

(** X3.  For a session that returns after passing the gate, with [rows] the
    frames it recorded: the image file of frame [i] holds the frame that
    call [k + 1 + i] of [next_frame] delivered ([k] being the verification
    call) when [cv2.imwrite] reported success, and is what it was before
    when [cv2.imwrite] returned [False]: the record of such a frame is
    written all the same.  No image file beyond the recorded frames is
    touched. *)
Theorem images_match_records env fuel out maxd maxu w r w' s0 :
  record_session env fuel out maxd maxu w = (Ret r, w') ->
  verified env w = true ->
  exists rows,
    frame_records (stored_text (replay s0 (log w')) (poses_file out))
      = imap (fun i row => frame_pose i (row_ts row) (row_hands row) (row_body row)) rows
    /\ (forall i row,
          rows !! i = Some row ->
          (exists hands b,
             next_frame env (S (n_frame w) + i) = inr (Some (row_image row), hands, b))
          /\ files (replay s0 (log w')) !! image_file out i
             = if row_written row then Some (Jpeg (row_image row) 85)
               else files (replay s0 (log w)) !! image_file out i)
    /\ (forall i,
          (length rows <= i)%nat ->
          files (replay s0 (log w')) !! image_file out i
            = files (replay s0 (log w)) !! image_file out i).
Proof.
  intros Hrun Hv.
  destruct (returned_session env fuel out maxd maxu w r w' Hv Hrun)
    as (t & n & c & rows & frames & r0 & last & j & now & Ht & Hfr & Hexit & _ & _ & Hlog).
  destruct (returned_session_files out t w frames last j now n rows env maxu _ _ _ c
              maxd r0 s0 (log w) (log w') Hfr Hexit Hlog) as (Hposes & _ & _).
  pose proof (frames_logged_length _ _ _ _ _ _ _ _ _ _ Hfr) as Hlen.
  assert (forall i,
            files (replay s0 (log w')) !! image_file out i
            = match rows !! i with
              | Some row =>
                  if row_written row then Some (Jpeg (row_image row) 85)
                  else files (replay s0 (log w)) !! image_file out i
              | None => files (replay s0 (log w)) !! image_file out i
              end) as Himg.
  { intros i.
    pose proof (view_after (image_file out i) s0 (log w)
                  (gate_events w ++ opening_events out t ++ frames ++ last
                     ++ closing_events out j now n (List.map row_ts rows))) as Hview.
    rewrite <- Hlog, !fold_left_app, gate_view in Hview.
    rewrite opening_elsewhere in Hview by (paths; reflexivity).
    rewrite (frames_logged_image _ _ _ _ _ _ _ _ _ _ i Hfr) in Hview.
    rewrite (fold_local_untouched _ _ (loop_exit_untouched _ _ _ _ _ _ _ _ _ Hexit))
      in Hview.
    rewrite closing_view in Hview by (paths; reflexivity).
    apply (f_equal fst) in Hview. unfold view_of in Hview. cbn [fst] in Hview.
    rewrite Hview.
    destruct (rows !! i) as [ row | ]; [ destruct (row_written row) | ]; reflexivity. }
  exists rows. split; [ | split ].
  - unfold stored_text. rewrite Hposes. apply session_stream_columns.
  - intros i row Hi. split.
    + destruct (frames_logged_pulls _ _ _ _ _ _ _ _ _ _ Hfr i row Hi) as (hands & b & Hp & _).
      eauto.
    + rewrite Himg, Hi. reflexivity.
  - intros i Hge. rewrite Himg, (lookup_ge_None_2 rows i) by lia. reflexivity.
Qed.

Lemma images_match_records_witness :
  record_session steady 10 session_dir 3600 90 fresh
    = (Ret true, snd (record_session steady 10 session_dir 3600 90 fresh))
  /\ verified steady fresh = true
  /\ exists rows,
       frame_records
         (stored_text
            (replay empty_storage
               (log (snd (record_session steady 10 session_dir 3600 90 fresh))))
            (poses_file session_dir))
         = imap (fun i row => frame_pose i (row_ts row) (row_hands row) (row_body row)) rows
       /\ (forall i row,
             rows !! i = Some row ->
             (exists hands b,
                next_frame steady (S (n_frame fresh) + i)
                  = inr (Some (row_image row), hands, b))
             /\ files (replay empty_storage
                         (log (snd (record_session steady 10 session_dir 3600 90 fresh))))
                  !! image_file session_dir i
                = if row_written row then Some (Jpeg (row_image row) 85)
                  else files (replay empty_storage (log fresh)) !! image_file session_dir i)
       /\ (forall i,
             (length rows <= i)%nat ->
             files (replay empty_storage
                      (log (snd (record_session steady 10 session_dir 3600 90 fresh))))
               !! image_file session_dir i
             = files (replay empty_storage (log fresh)) !! image_file session_dir i).
Proof.
  assert (record_session steady 10 session_dir 3600 90 fresh
          = (Ret true, snd (record_session steady 10 session_dir 3600 90 fresh))) as H
    by (vm_compute; reflexivity).
  assert (verified steady fresh = true) as Hv by reflexivity.
  split; [ exact H | ]. split; [ exact Hv | ].
  exact (images_match_records steady 10 session_dir 3600 90 fresh true _ empty_storage H Hv).
Defined.

(** ** Relations that every step respects *)

Section Respect.

Context (R : World -> World -> Prop).
Hypothesis R_refl : forall w, R w w.
Hypothesis R_trans : forall w1 w2 w3, R w1 w2 -> R w2 w3 -> R w1 w3.

Lemma respects_ret {A} (a : A) : respects R (mret a).
Proof. intros w. apply R_refl. Qed.

Lemma respects_raise {A} e : respects R (@raise A e).
Proof. intros w. apply R_refl. Qed.

Lemma respects_out_of_fuel {A} : respects R (@out_of_fuel A).
Proof. intros w. apply R_refl. Qed.

Lemma respects_lift {A} (r : exn + A) : respects R (lift r).
Proof. destruct r; intros w; apply R_refl. Qed.

Lemma respects_bind {A B} (m : M A) (k : A -> M B) :
  respects R m -> (forall a, respects R (k a)) -> respects R (m ≫= k).
Proof.
  intros Hm Hk w. unfold mbind, M_bind, bind. specialize (Hm w).
  destruct (m w) as [ [ a | e | ] w1 ]; cbn [snd] in *; [ | exact Hm | exact Hm ].
  eapply R_trans; [ exact Hm | apply Hk ].
Qed.

Lemma respects_try {A} (m : M A) (h : exn -> M A) :
  respects R m -> (forall e, respects R (h e)) -> respects R (try_except m h).
Proof.
  intros Hm Hh w. unfold try_except. specialize (Hm w).
  destruct (m w) as [ [ a | e | ] w1 ]; cbn [snd] in *; [ exact Hm | | exact Hm ].
  eapply R_trans; [ exact Hm | apply Hh ].
Qed.

Lemma respects_finally {A} (m : M A) (cleanup : M unit) :
  respects R m -> respects R cleanup -> respects R (finally m cleanup).
Proof.
  intros Hm Hc w. unfold finally, bind. specialize (Hm w).
  destruct (m w) as [ [ a | e | ] w1 ]; cbn [snd] in *; [ | | exact Hm ];
    (eapply R_trans; [ exact Hm | ]); specialize (Hc w1);
    destruct (cleanup w1) as [ [ [] | e' | ] w2 ]; exact Hc.
Qed.

End Respect.

(** Breaks a composite computation into its primitive steps. *)
Ltac respecting refl trans primitive :=
  repeat first
    [ solve [ primitive ]
    | apply (respects_ret _ refl)
    | apply (respects_raise _ refl)
    | apply (respects_out_of_fuel _ refl)
    | apply (respects_lift _ refl)
    | apply (respects_bind _ trans); [ | intros ]
    | apply (respects_try _ trans); [ | intros ]
    | apply (respects_finally _ trans)
    | progress cbv zeta
    | match goal with
      | |- respects _ (match ?x with _ => _ end) => destruct x
      end ].

(** ** The run flag *)

Lemma flag_step_refl env maxu w : flag_step env maxu w w.
Proof.
  exists []. rewrite app_nil_r. split; [ reflexivity | ]. split; [ lia | ].
  split; [ | congruence ]. intros H. split; [ exact H | ]. intros k Hk. lia.
Qed.

Lemma flag_step_trans env maxu w1 w2 w3 :
  flag_step env maxu w1 w2 -> flag_step env maxu w2 w3 -> flag_step env maxu w1 w3.
Proof.
  intros (evs1 & Hl1 & Hn1 & Hset1 & Hclr1) (evs2 & Hl2 & Hn2 & Hset2 & Hclr2).
  exists (evs1 ++ evs2). split; [ rewrite Hl2, Hl1, app_assoc; reflexivity | ].
  split; [ lia | ]. split.
  - intros H3. destruct (Hset2 H3) as [ H2 Hq2 ]. destruct (Hset1 H2) as [ H1 Hq1 ].
    split; [ exact H1 | ]. intros k Hk.
    destruct (Nat.lt_ge_cases k (n_signal w2)); [ apply Hq1 | apply Hq2 ]; lia.
  - intros H1 H3. destruct (running w2) eqn:H2.
    + destruct (Hclr2 eq_refl H3) as [ (k & Hk & Hs) | Hex ].
      * left. exists k. split; [ lia | exact Hs ].
      * right. apply List.Exists_app. right. exact Hex.
    + destruct (Hclr1 H1 eq_refl) as [ (k & Hk & Hs) | Hex ].
      * left. exists k. split; [ lia | exact Hs ].
      * right. apply List.Exists_app. left. exact Hex.
Qed.

(** A step that leaves the flag and the number of reads alone. *)
Lemma flag_step_same env maxu w w' evs :
  log w' = log w ++ evs -> running w' = running w -> n_signal w' = n_signal w ->
  flag_step env maxu w w'.
Proof.
  intros Hl Hr Hn. exists evs. split; [ exact Hl | ]. split; [ lia | ].
  rewrite Hr, Hn. split; [ | congruence ].
  intros H. split; [ exact H | ]. intros k Hk. lia.
Qed.

Ltac flag_same :=
  intros [rn lg ni nf ne nt nd ns nst nim nn]; unfold_monad;
  repeat split_match; unfold_monad; cbn [snd];
  first [ apply (flag_step_same _ _ _ _ []); [ symmetry; apply app_nil_r | reflexivity .. ]
        | eapply flag_step_same; reflexivity ].

Lemma flag_emit env maxu ev : respects (flag_step env maxu) (emit ev).
Proof. flag_same. Qed.

Lemma flag_print env maxu m : respects (flag_step env maxu) (print m).
Proof. flag_same. Qed.

Lemma flag_sleep env maxu s : respects (flag_step env maxu) (sleep s).
Proof. flag_same. Qed.

Lemma flag_HandTracker env maxu : respects (flag_step env maxu) (HandTracker env).
Proof. flag_same. Qed.

Lemma flag_pull_frame env maxu : respects (flag_step env maxu) (pull_frame env).
Proof. flag_same. Qed.

Lemma flag_release env maxu : respects (flag_step env maxu) (release env).
Proof. unfold release, exit_tracker. flag_same. Qed.

Lemma flag_now_seconds env maxu : respects (flag_step env maxu) (now_seconds env).
Proof. flag_same. Qed.

Lemma flag_now_datetime env maxu : respects (flag_step env maxu) (now_datetime env).
Proof. flag_same. Qed.

Lemma flag_storage_op env maxu ev : respects (flag_step env maxu) (storage_op env ev).
Proof. flag_same. Qed.

Lemma flag_imwrite env maxu p img q : respects (flag_step env maxu) (imwrite env p img q).
Proof. flag_same. Qed.

(** A read of the flag: this is where a signal takes effect. *)
Lemma flag_read_running env maxu : respects (flag_step env maxu) (read_running env).
Proof.
  intros w. unfold read_running. cbn [snd]. exists [].
  split; [ cbn; symmetry; apply app_nil_r | ]. split; [ cbn; lia | ].
  cbn [running n_signal bump_signal set_running_flag]. split.
  - intros H. apply andb_true_iff in H as [ Hr Hs ]. apply negb_true_iff in Hs.
    split; [ exact Hr | ]. intros k Hk. assert (k = n_signal w) as -> by lia. exact Hs.
  - intros Hr H. rewrite Hr in H. cbn in H. apply negb_false_iff in H.
    left. exists (n_signal w). split; [ lia | exact H ].
Qed.

(** The disk check: the only place where the program itself clears the
    flag, beside a sample above the threshold. *)
Lemma flag_disk_check env maxu out st : respects (flag_step env maxu) (disk_check env out maxu st).
Proof.
  intros [rn lg ni nf ne nt nd ns nst nim nn]. unfold disk_check. unfold_monad.
  repeat (split_match; unfold_monad); cbn [snd];
    try (first [ apply (flag_step_same _ _ _ _ []);
                   [ symmetry; apply app_nil_r | reflexivity .. ]
               | eapply flag_step_same; [ tidy_log | .. ]; reflexivity ]).
  eexists. split; [ cbn [log]; tidy_log; reflexivity | ]. split; [ cbn; lia | ].
  cbn [running n_signal]. split; [ discriminate | ]. intros _ _. right.
  constructor. cbn. assumption.
Qed.

Create HintDb flag.

#[local] Hint Resolve flag_emit flag_print flag_sleep flag_HandTracker flag_pull_frame
  flag_release flag_now_seconds flag_now_datetime flag_storage_op flag_imwrite
  flag_read_running flag_disk_check : flag.

Ltac flag_steps env maxu :=
  unfold mkdir, write, with_open;
  respecting constr:(flag_step_refl env maxu) constr:(flag_step_trans env maxu)
    ltac:(auto with flag).

Lemma flag_frame_step env maxu out maxd start st :
  respects (flag_step env maxu) (frame_step env out maxd maxu start st).
Proof. unfold frame_step, persist_frame. flag_steps env maxu. Qed.

Lemma flag_frame_loop env maxu out maxd start fuel :
  forall st, respects (flag_step env maxu) (frame_loop env fuel out maxd maxu start st).
Proof.
  induction fuel as [ | fuel IH ]; intros st; cbn [frame_loop].
  - apply respects_out_of_fuel, flag_step_refl.
  - pose proof (flag_frame_step env maxu out maxd start) as Hstep. flag_steps env maxu.
Qed.

Lemma flag_record_session env fuel out maxd maxu :
  respects (flag_step env maxu) (record_session env fuel out maxd maxu).
Proof.
  pose proof (flag_frame_loop env maxu out maxd) as Hloop.
  unfold record_session, acquire, verify, back_off_after_release, open_session, close_session.
  flag_steps env maxu.
Qed.

Lemma flag_session_loop env fuel args sessions :
  respects (flag_step env (max_disk_usage_arg args)) (session_loop env sessions fuel args).
Proof.
  induction sessions as [ | sessions IH ]; cbn [session_loop].
  - apply respects_out_of_fuel, flag_step_refl.
  - pose proof (flag_record_session env fuel) as Hsession.
    flag_steps env (max_disk_usage_arg args).
Qed.

Lemma flag_main env sessions fuel args :
  respects (flag_step env (max_disk_usage_arg args)) (main env sessions fuel args).
Proof.
  pose proof (flag_session_loop env fuel args sessions) as Hloop.
  unfold main. flag_steps env (max_disk_usage_arg args).
Qed.

(** X4.  Whatever a session does and however it ends, the run flag is never
    set again once cleared; a session that returns hands back the flag
    as it then stands; it returns [True] only if the flag was set when
    it started and none of its reads of the flag saw a signal; and it
    clears a flag that was set only because one of its reads saw a
    signal or because it logged a disk sample above the threshold. *)
Theorem run_flag_is_only_cleared env fuel out maxd maxu w o w' :
  record_session env fuel out maxd maxu w = (o, w') ->
  exists evs,
    log w' = log w ++ evs
    /\ (running w = false -> running w' = false)
    /\ (forall r, o = Ret r -> r = running w')
    /\ (o = Ret true -> running w = true /\ quiet env (n_signal w) (n_signal w'))
    /\ (running w = true -> running w' = false ->
        signalled env (n_signal w) (n_signal w')
        \/ Exists (fun ev => tripped maxu ev = true) evs).
Proof.
  intros Hrun. pose proof (flag_record_session env fuel out maxd maxu w) as H.
  rewrite Hrun in H. cbn [snd] in H. destruct H as (evs & Hlog & _ & Hset & Hclr).
  exists evs. split; [ exact Hlog | ].
  assert (forall r, o = Ret r -> r = running w') as Hret.
  { intros r ->. exact (returned_flag env fuel out maxd maxu w r w' Hrun). }
  split; [ | split; [ exact Hret | split; [ | exact Hclr ] ] ].
  - intros Hoff. destruct (running w') eqn:Hon; [ | reflexivity ].
    destruct (Hset eq_refl) as [ Hw _ ]. congruence.
  - intros Ho. apply Hset. symmetry. apply Hret. exact Ho.
Qed.

Lemma run_flag_is_only_cleared_witness :
  record_session interrupted 10 session_dir 3600 90 fresh
    = (Ret false, snd (record_session interrupted 10 session_dir 3600 90 fresh))
  /\ exists evs,
       log (snd (record_session interrupted 10 session_dir 3600 90 fresh))
         = log fresh ++ evs
       /\ (running fresh = false
           -> running (snd (record_session interrupted 10 session_dir 3600 90 fresh))
              = false)
       /\ (forall r,
             @Ret bool false = Ret r
             -> r = running (snd (record_session interrupted 10 session_dir 3600 90 fresh)))
       /\ (@Ret bool false = Ret true
           -> running fresh = true
              /\ quiet interrupted (n_signal fresh)
                   (n_signal (snd (record_session interrupted 10 session_dir 3600 90 fresh))))
       /\ (running fresh = true
           -> running (snd (record_session interrupted 10 session_dir 3600 90 fresh)) = false
           -> signalled interrupted (n_signal fresh)
                (n_signal (snd (record_session interrupted 10 session_dir 3600 90 fresh)))
              \/ Exists (fun ev => tripped 90 ev = true) evs).
Proof.
  assert (record_session interrupted 10 session_dir 3600 90 fresh
          = (Ret false, snd (record_session interrupted 10 session_dir 3600 90 fresh))) as H
    by (vm_compute; reflexivity).
  split; [ exact H | ].
  exact (run_flag_is_only_cleared interrupted 10 session_dir 3600 90 fresh _ _ H).
Defined.

(** ** The session loop *)

(** The session loop returns only with the flag cleared. *)
Lemma session_loop_cleared env fuel args sessions :
  forall w w',
    session_loop env sessions fuel args w = (Ret tt, w') -> running w' = false.
Proof.
  induction sessions as [ | sessions IH ]; intros w w' H; [ discriminate H | ].
  cbn [session_loop] in H. unfold mbind, M_bind, bind in H.
  unfold read_running at 1 in H.
  destruct (running w && negb (signal_seen env (n_signal w))) eqn:Hr; cbn [negb] in H.
  - unfold now_datetime at 1 in H.
    match type of H with
    | context [record_session env fuel ?out ?d ?u ?w1] =>
        destruct (record_session env fuel out d u w1) as [ [ [ | ] | e | ] w2 ] eqn:Hs
    end; cbn [negb] in H; try discriminate H.
    + unfold print, sleep, emit in H. eapply IH. exact H.
    + injection H as <-. symmetry.
      eapply returned_flag. exact Hs.
  - injection H as <-. reflexivity.
Qed.

(** X5.  When [main] returns, the run flag is cleared; if it was set when
    [main] started, then a read of the flag saw a signal or a disk sample
    above the threshold was logged: nothing else ends the program
    normally.  The recordings directory is the first thing created and
    the closing line the last thing printed. *)
Theorem main_stops_for_cause env sessions fuel args w w' :
  main env sessions fuel args w = (Ret tt, w') ->
  running w' = false
  /\ (exists evs,
        log w' = log w ++ EMkdir (recordings_dir args) true :: evs ++ [ EPrint MsgStopped ])
  /\ (running w = true ->
      signalled env (n_signal w) (n_signal w')
      \/ Exists (fun ev => tripped (max_disk_usage_arg args) ev = true) (log w')).
Proof.
  intros Hrun. pose proof (flag_main env sessions fuel args w) as Hflag.
  rewrite Hrun in Hflag. cbn [snd] in Hflag.
  assert (running w' = false
          /\ exists evs,
               log w' = log w ++ EMkdir (recordings_dir args) true :: evs
                                  ++ [ EPrint MsgStopped ]) as [ Hoff Hlog ].
  { destruct w as [rn lg ni nf ne nt nd ns nst nim nn].
    unfold main in Hrun. unfold_monad_in Hrun.
    destruct (storage_fault env nst); [ discriminate Hrun | ].
    match type of Hrun with
    | context [session_loop env sessions fuel args ?w1] =>
        pose proof (session_loop_cleared env fuel args sessions w1) as Hc;
        pose proof (flag_session_loop env fuel args sessions w1) as Hl;
        destruct (session_loop env sessions fuel args w1) as [ [ [] | e | ] w2 ]
    end; try discriminate Hrun.
    cbn [snd] in Hl. destruct Hl as (evs & Hl & _). specialize (Hc w2 eq_refl).
    destruct w2 as [rn2 lg2 ni2 nf2 ne2 nt2 nd2 ns2 nst2 nim2 nn2].
    cbn [log running] in Hl, Hc. subst lg2 rn2. injection Hrun as <-.
    split; [ reflexivity | ].
    exists ([ EPrint MsgRule; EPrint MsgTitle; EPrint MsgRule;
              EPrint (MsgRecordingsDir (recordings_dir args));
              EPrint (MsgSessionDuration (session_duration args));
              EPrint (MsgMaxDisk (max_disk_usage_arg args));
              EPrint MsgPressCtrlC; EPrint MsgRule ] ++ evs).
    cbn [log]. tidy_log. reflexivity. }
  split; [ exact Hoff | ]. split; [ exact Hlog | ].
  intros Hon. destruct Hflag as (evs & Hl & _ & _ & Hclr).
  destruct (Hclr Hon Hoff) as [ Hs | Hex ]; [ left; exact Hs | right ].
  rewrite Hl. apply List.Exists_app. right. exact Hex.
Qed.

Lemma main_stops_for_cause_witness :
  main interrupted 3 10 default_arguments fresh
    = (Ret tt, snd (main interrupted 3 10 default_arguments fresh))
  /\ running (snd (main interrupted 3 10 default_arguments fresh)) = false
  /\ (exists evs,
        log (snd (main interrupted 3 10 default_arguments fresh))
          = log fresh ++ EMkdir (recordings_dir default_arguments) true :: evs
                        ++ [ EPrint MsgStopped ])
  /\ (running fresh = true ->
      signalled interrupted (n_signal fresh)
        (n_signal (snd (main interrupted 3 10 default_arguments fresh)))
      \/ Exists (fun ev => tripped (max_disk_usage_arg default_arguments) ev = true)
           (log (snd (main interrupted 3 10 default_arguments fresh)))).
Proof.
  assert (main interrupted 3 10 default_arguments fresh
          = (Ret tt, snd (main interrupted 3 10 default_arguments fresh))) as H
    by (vm_compute; reflexivity).
  split; [ exact H | ].
  exact (main_stops_for_cause interrupted 3 10 default_arguments fresh _ H).
Defined.

(** ** Where the recorder writes *)

Lemma stays_within_refl root w : stays_within root w w.
Proof. exists []. rewrite app_nil_r. auto. Qed.

Lemma stays_within_silent root w w' : log w' = log w -> stays_within root w w'.
Proof. intros H. exists []. rewrite app_nil_r. auto. Qed.

Lemma stays_within_trans root w1 w2 w3 :
  stays_within root w1 w2 -> stays_within root w2 w3 -> stays_within root w1 w3.
Proof.
  intros (evs1 & Hl1 & H1) (evs2 & Hl2 & H2). exists (evs1 ++ evs2).
  split; [ rewrite Hl2, Hl1, app_assoc; reflexivity | ].
  apply List.Forall_app. auto.
Qed.

Lemma within_weaken root root' ev : root' `prefix_of` root -> within root ev -> within root' ev.
Proof.
  unfold within. destruct (event_path ev); [ | auto ].
  intros H1 H2. etransitivity; eassumption.
Qed.

Lemma stays_within_weaken root root' w w' :
  root' `prefix_of` root -> stays_within root w w' -> stays_within root' w w'.
Proof.
  intros Hp (evs & Hl & H). exists evs. split; [ exact Hl | ].
  eapply List.Forall_impl; [ | exact H ]. intros ev. apply within_weaken. exact Hp.
Qed.

Lemma within_emit root ev : within root ev -> respects (stays_within root) (emit ev).
Proof. intros H w. exists [ ev ]. split; [ reflexivity | ]. constructor; auto. Qed.

Lemma within_storage_op env root ev :
  within root ev -> respects (stays_within root) (storage_op env ev).
Proof.
  intros H w. unfold storage_op. destruct (storage_fault env (n_storage w)); cbn [snd].
  - apply stays_within_silent; reflexivity.
  - exists [ ev ]. split; [ reflexivity | ]. constructor; auto.
Qed.

Lemma within_imwrite env root p img q :
  root `prefix_of` p -> respects (stays_within root) (imwrite env p img q).
Proof.
  intros H w. unfold imwrite. destruct (imwrite_result env (n_imwrite w)) as [ e | ok ];
    cbn [snd].
  - apply stays_within_silent; reflexivity.
  - exists [ EImwrite p img q ok ]. split; [ reflexivity | ]. constructor; auto.
Qed.

Lemma within_disk_usage env root p :
  root `prefix_of` p -> respects (stays_within root) (get_disk_usage_percent env p).
Proof.
  intros H w. unfold get_disk_usage_percent.
  destruct (disk_usage env (n_disk w)) as [ e | [ [ total used ] free ] ]; cbn [snd];
    [ apply stays_within_silent; reflexivity | ].
  destruct (total =? 0)%Z; cbn [snd]; [ apply stays_within_silent; reflexivity | ].
  eexists [ _ ]. split; [ reflexivity | ]. constructor; auto.
Qed.

(** Steps that name no path at all. *)
Ltac pathless :=
  intros [rn lg ni nf ne nt nd ns nst nim nn]; unfold_monad;
  repeat split_match; unfold_monad; cbn [snd];
  first [ exists []; split; [ symmetry; apply app_nil_r | constructor ]
        | eexists [ _ ]; split; [ reflexivity | repeat constructor ] ].

Lemma within_HandTracker env root : respects (stays_within root) (HandTracker env).
Proof. pathless. Qed.

Lemma within_pull_frame env root : respects (stays_within root) (pull_frame env).
Proof. pathless. Qed.

Lemma within_release env root : respects (stays_within root) (release env).
Proof. unfold release, exit_tracker. pathless. Qed.

Lemma within_now_seconds env root : respects (stays_within root) (now_seconds env).
Proof. pathless. Qed.

Lemma within_now_datetime env root : respects (stays_within root) (now_datetime env).
Proof. pathless. Qed.

Lemma within_read_running env root : respects (stays_within root) (read_running env).
Proof. pathless. Qed.

Lemma within_clear_running root : respects (stays_within root) clear_running.
Proof. pathless. Qed.

Lemma prefix_child (root p : path) name : root `prefix_of` p -> root `prefix_of` child p name.
Proof. intros H. unfold child. apply prefix_app_r. exact H. Qed.

Create HintDb within.

#[local] Hint Resolve within_HandTracker within_pull_frame within_release within_now_seconds
  within_now_datetime within_read_running within_clear_running : within.

Ltac inside :=
  unfold poses_file, camera_info_file, metadata_file, image_file, rgb_dir;
  repeat apply prefix_child; reflexivity.

Ltac within_steps root :=
  unfold mkdir, write, with_open, print, sleep;
  respecting constr:(stays_within_refl root) constr:(stays_within_trans root)
    ltac:(first [ apply within_emit; exact I
                | apply within_storage_op; unfold within; cbn [event_path]; inside
                | apply within_imwrite; inside
                | apply within_disk_usage; inside
                | auto with within ]).

Lemma within_frame_step env out maxd maxu start st :
  respects (stays_within out) (frame_step env out maxd maxu start st).
Proof. unfold frame_step, disk_check, persist_frame. within_steps out. Qed.

Lemma within_frame_loop env out maxd maxu start fuel :
  forall st, respects (stays_within out) (frame_loop env fuel out maxd maxu start st).
Proof.
  induction fuel as [ | fuel IH ]; intros st; cbn [frame_loop].
  - apply respects_out_of_fuel, stays_within_refl.
  - pose proof (within_frame_step env out maxd maxu start) as Hstep. within_steps out.
Qed.

Lemma within_record_session env fuel out maxd maxu :
  respects (stays_within out) (record_session env fuel out maxd maxu).
Proof.
  pose proof (within_frame_loop env out maxd maxu) as Hloop.
  unfold record_session, acquire, verify, back_off_after_release, open_session, close_session.
  within_steps out.
Qed.

Lemma within_session_loop env fuel args sessions :
  respects (stays_within (recordings_dir args)) (session_loop env sessions fuel args).
Proof.
  induction sessions as [ | sessions IH ]; cbn [session_loop].
  - apply respects_out_of_fuel, stays_within_refl.
  - assert (forall name d u,
              respects (stays_within (recordings_dir args))
                (record_session env fuel (child (recordings_dir args) name) d u))
      as Hsession.
    { intros name d u w. eapply stays_within_weaken; [ | apply within_record_session ].
      apply prefix_child. reflexivity. }
    within_steps (recordings_dir args).
Qed.

Lemma within_main env sessions fuel args :
  respects (stays_within (recordings_dir args)) (main env sessions fuel args).
Proof.
  pose proof (within_session_loop env fuel args sessions) as Hloop.
  unfold main. within_steps (recordings_dir args).
Qed.

(** A log that stays within [root] leaves every file outside [root] as
    it was. *)
Lemma stays_within_files root w w' s0 q :
  stays_within root w w' -> ~ root `prefix_of` q ->
  files (replay s0 (log w')) !! q = files (replay s0 (log w)) !! q.
Proof.
  intros (evs & Hl & H) Hq. pose proof (view_after q s0 (log w) evs) as Hview.
  rewrite <- Hl in Hview. rewrite fold_local_unconcerned in Hview.
  - apply (f_equal fst) in Hview. exact Hview.
  - eapply List.Forall_impl; [ | exact H ]. intros ev Hev.
    unfold within in Hev. destruct ev; cbn in *; try reflexivity;
      apply bool_decide_eq_false; intros ->; contradiction.
Qed.

Lemma ancestors_prefix (p a : path) : In a (ancestors p) -> a `prefix_of` p.
Proof.
  revert a. induction p as [ | c p IH ]; intros a H; [ destruct H | ].
  cbn in H. destruct H as [ <- | H ].
  - exists p. reflexivity.
  - apply in_map_iff in H as (a' & <- & H). apply prefix_cons, IH. exact H.
Qed.

(** A log that stays within [root] creates no directory but [root]
    itself, directories inside it, and parents of it. *)
Lemma stays_within_dirs root evs d :
  Forall (within root) evs ->
  forall s,
    d ∈ dirs (replay s evs) ->
    d ∈ dirs s \/ root `prefix_of` d \/ d `prefix_of` root.
Proof.
  unfold replay. induction 1 as [ | ev evs Hev _ IH ]; intros s Hd; [ left; exact Hd | ].
  cbn [fold_left] in Hd. apply IH in Hd as [ Hd | Hd ]; [ | right; exact Hd ].
  destruct ev as [ | | | | | | p parents | q [ | ] | q t | q | q img quality [ | ] ];
    try (left; exact Hd).
  unfold within in Hev. cbn [event_path] in Hev. cbn [apply_event dirs] in Hd.
    apply elem_of_union in Hd as [ Hd | Hd ]; [ left; exact Hd | right ].
    destruct parents.
    + apply elem_of_list_to_set, list_elem_of_In, ancestors_prefix in Hd.
      destruct (prefix_weak_total _ _ _ Hev Hd); auto.
    + apply elem_of_singleton in Hd. subst d. left. exact Hev.
Qed.

(** X6.  Whatever a session does and however it ends, every path it names
    in a storage operation (creating a directory, opening, writing,
    closing, encoding an image, sampling the disk) lies in its own output
    directory, and every file outside that directory is left as it was.
    The directories it creates are the output directory, directories
    inside it, and the missing parents of the output directory, which
    [mkdir(parents=True)] creates above it. *)
Theorem session_writes_stay_in_its_folder env fuel out maxd maxu w s0 q :
  ~ out `prefix_of` q ->
  stays_within out w (snd (record_session env fuel out maxd maxu w))
  /\ files (replay s0 (log (snd (record_session env fuel out maxd maxu w)))) !! q
     = files (replay s0 (log w)) !! q
  /\ (forall d,
        d ∈ dirs (replay s0 (log (snd (record_session env fuel out maxd maxu w)))) ->
        d ∈ dirs (replay s0 (log w)) \/ out `prefix_of` d \/ d `prefix_of` out).
Proof.
  intros Hq. pose proof (within_record_session env fuel out maxd maxu w) as H.
  split; [ exact H | ]. split; [ eapply stays_within_files; eassumption | ].
  intros d Hd. destruct H as (evs & Hlog & Hevs). rewrite Hlog, replay_app in Hd.
  exact (stays_within_dirs out evs d Hevs _ Hd).
Qed.

Lemma session_writes_stay_in_its_folder_witness :
  ~ session_dir `prefix_of` elsewhere
  /\ stays_within session_dir fresh (snd (record_session steady 10 session_dir 3600 90 fresh))
  /\ files (replay empty_storage
              (log (snd (record_session steady 10 session_dir 3600 90 fresh))))
       !! elsewhere
     = files (replay empty_storage (log fresh)) !! elsewhere
  /\ (forall d,
        d ∈ dirs (replay empty_storage
                    (log (snd (record_session steady 10 session_dir 3600 90 fresh)))) ->
        d ∈ dirs (replay empty_storage (log fresh))
        \/ session_dir `prefix_of` d \/ d `prefix_of` session_dir).
Proof.
  assert (~ session_dir `prefix_of` elsewhere) as H by (intros [ k Hk ]; discriminate Hk).
  split; [ exact H | ].
  exact (session_writes_stay_in_its_folder steady 10 session_dir 3600 90 fresh
           empty_storage elsewhere H).
Defined.

(** X7.  The same for the whole program: [main] touches nothing outside the
    recordings directory, over any number of sessions and however it
    ends. *)
Theorem main_writes_stay_in_recordings env sessions fuel args w s0 q :
  ~ recordings_dir args `prefix_of` q ->
  stays_within (recordings_dir args) w (snd (main env sessions fuel args w))
  /\ files (replay s0 (log (snd (main env sessions fuel args w)))) !! q
     = files (replay s0 (log w)) !! q.
Proof.
  intros Hq. pose proof (within_main env sessions fuel args w) as H.
  split; [ exact H | ]. eapply stays_within_files; eassumption.
Qed.

Lemma main_writes_stay_in_recordings_witness :
  ~ recordings_dir default_arguments `prefix_of` elsewhere
  /\ stays_within (recordings_dir default_arguments) fresh
       (snd (main steady 3 10 default_arguments fresh))
  /\ files (replay empty_storage (log (snd (main steady 3 10 default_arguments fresh))))
       !! elsewhere
     = files (replay empty_storage (log fresh)) !! elsewhere.
Proof.
  assert (~ recordings_dir default_arguments `prefix_of` elsewhere) as H
    by (intros [ k Hk ]; discriminate Hk).
  split; [ exact H | ].
  exact (main_writes_stay_in_recordings steady 3 10 default_arguments fresh
           empty_storage elsewhere H).
Defined.

(** X8.  Sessions do not interfere: a session recording into one folder of
    the recordings directory leaves every file of a folder with another
    name as it was, however the session ends.  (Folders are named by the
    second at which the session starts; two sessions that start within
    the same second share their folder.) *)
Theorem sessions_do_not_interfere env fuel root a b maxd maxu w s0 q :
  a <> b ->
  child root a `prefix_of` q ->
  files (replay s0 (log (snd (record_session env fuel (child root b) maxd maxu w)))) !! q
    = files (replay s0 (log w)) !! q.
Proof.
  intros Hab [ k Hk ].
  apply (stays_within_files (child root b)); [ apply within_record_session | ].
  intros [ k' Hk' ]. rewrite Hk in Hk'. unfold child in Hk'.
  rewrite <- !app_assoc in Hk'. apply app_inv_head in Hk'. cbn in Hk'.
  injection Hk' as H _. contradiction.
Qed.

Lemma sessions_do_not_interfere_witness :
  "session_20240501_090000" <> "session_20240501_100000"
  /\ child [ "recordings" ] "session_20240501_090000"
       `prefix_of` [ "recordings"; "session_20240501_090000"; "hand_poses.jsonl" ]
  /\ files (replay empty_storage
              (log (snd (record_session steady 10
                           (child [ "recordings" ] "session_20240501_100000") 3600 90
                           fresh))))
       !! [ "recordings"; "session_20240501_090000"; "hand_poses.jsonl" ]
     = files (replay empty_storage (log fresh))
         !! [ "recordings"; "session_20240501_090000"; "hand_poses.jsonl" ].
Proof.
  assert ("session_20240501_090000" <> "session_20240501_100000") as H1 by discriminate.
  assert (child [ "recordings" ] "session_20240501_090000"
            `prefix_of` [ "recordings"; "session_20240501_090000"; "hand_poses.jsonl" ])
    as H2 by (exists [ "hand_poses.jsonl" ]; reflexivity).
  split; [ exact H1 | ]. split; [ exact H2 | ].
  exact (sessions_do_not_interfere steady 10 [ "recordings" ] "session_20240501_090000"
           "session_20240501_100000" 3600 90 fresh empty_storage _ H1 H2).
Defined.

(** ** Past the gate *)

(** A session that passed the gate is its three later phases, run from
    the world the gate left. *)
Lemma record_session_after_gate env fuel out maxd maxu w t :
  verified env w = true ->
  tracker_init env (n_init w) = inr t ->
  record_session env fuel out maxd maxu w
    = ('(start_time, st) ← open_session env out t;
       st' ← frame_loop env fuel out maxd maxu start_time st;
       close_session env out st') (gate_world w).
Proof.
  intros Hv Ht. unfold verified in Hv. rewrite Ht in Hv.
  destruct w as [rn lg ni nf ne nt nd ns nst nim nn]. cbn [n_init n_frame] in *.
  destruct (next_frame env nf) as [ | [ [ [ img | ] hs ] b ] ] eqn:Hp; try discriminate.
  unfold record_session, acquire, verify, gate_world. unfold_monad.
  rewrite Ht. unfold_monad. rewrite Hp. unfold_monad. reflexivity.
Qed.

(** With the flag cleared the loop is left at its first test. *)
Lemma frame_loop_cleared env fuel out maxd maxu start st w :
  running w = false ->
  frame_loop env (S fuel) out maxd maxu start st w
    = (Ret st, bump_signal (set_running_flag false w)).
Proof.
  intros H. cbn [frame_loop]. unfold frame_step, mbind, M_bind, bind, read_running.
  rewrite H. reflexivity.
Qed.

(** X9.  A session entered with the run flag already cleared (a signal arrived
    between the test of the session loop and the call, or during an
    earlier back-off) still constructs the tracker and pulls the
    verification frame; past the gate it creates its folder, writes the
    camera descriptor and the header, records no frame, releases the
    tracker, writes no summary and returns [False] -- unless storage
    raises during the opening. *)
Theorem session_entered_with_flag_cleared env fuel out maxd maxu w s0 :
  running w = false -> verified env w = true -> (0 < fuel)%nat ->
  exists t,
    tracker_init env (n_init w) = inr t
    /\ ((exists e body,
           fst (record_session env fuel out maxd maxu w) = Raise e
           /\ storage_faulty env
           /\ In body (aborted_openings out t)
           /\ log (snd (record_session env fuel out maxd maxu w))
              = log w ++ gate_events w ++ body)
        \/ (fst (record_session env fuel out maxd maxu w) = Ret false
            /\ (exists j,
                  log (snd (record_session env fuel out maxd maxu w))
                  = log w ++ gate_events w ++ opening_events out t
                      ++ [ ETrackerExit j; EPrint MsgNoFramesRecorded ])
            /\ files (replay s0 (log (snd (record_session env fuel out maxd maxu w))))
                 !! poses_file out
               = Some (Text [ header_text t ])
            /\ files (replay s0 (log (snd (record_session env fuel out maxd maxu w))))
                 !! metadata_file out
               = files (replay s0 (log w)) !! metadata_file out)).
Proof.
  intros Hoff Hv Hfuel.
  destruct (record_session_spec env fuel out maxd maxu w Hv) as (t & Ht & _).
  exists t. split; [ exact Ht | ].
  rewrite (record_session_after_gate env fuel out maxd maxu w t Hv Ht).
  unfold mbind, M_bind, bind.
  pose proof (open_session_spec env out t (gate_world w)) as Ho.
  destruct (open_session env out t (gate_world w)) as [ [ [ start st ] | e | ] w2 ].
  - right. destruct Ho as (-> & -> & Hlog2 & Hrun2 & _ & _).
    destruct fuel as [ | fuel ]; [ lia | ].
    assert (running w2 = false) as Hoff2
      by (rewrite Hrun2; destruct w; cbn in *; exact Hoff).
    rewrite (frame_loop_cleared env fuel out maxd maxu _ _ w2 Hoff2).
    match goal with
    | |- context [close_session env out ?st3 ?w3] =>
        pose proof (close_session_spec env out st3 w3) as Hc;
        destruct (close_session env out st3 w3) as [ [ r | e | ] w4 ]
    end; cbn [fst snd].
    + destruct Hc as (-> & Hstop & Hlog4).
      set (j := n_exit (bump_signal (set_running_flag false w2))) in Hlog4.
      set (now := datetime_now env (n_now (bump_signal (set_running_flag false w2))))
        in Hlog4.
      assert (log w4 = log w ++ gate_events w ++ opening_events out t
                         ++ [] ++ [] ++ closing_events out j now 0 (List.map row_ts []))
        as Hlog.
      { rewrite Hlog4. cbn [log bump_signal set_running_flag]. rewrite Hlog2.
        clear. destruct w as [rn lg ni nf ne nt nd ns nst nim nn].
        unfold gate_world, gate_events. cbn [log add_event bump_frame bump_init app].
        rewrite <- !app_assoc. reflexivity. }
      split; [ f_equal; apply Hstop; reflexivity | ].
      split; [ exists j; exact Hlog | ].
      destruct (returned_session_files out t w [] [] j now 0 [] env maxu
                  (time_time env 0) 0 0 0 maxd false s0 (log w) (log w4))
        as (Hposes & Hmeta & _).
      * constructor.
      * constructor.
      * exact Hlog.
      * split; [ exact Hposes | exact Hmeta ].
    + destruct Hc as (_ & Hpos & _). cbn in Hpos. lia.
    + destruct Hc.
  - left. destruct Ho as (Hf & body & Hin & Hlog2). exists e, body. cbn [fst snd].
    split; [ reflexivity | ]. split; [ exact Hf | ]. split; [ exact Hin | ].
    rewrite Hlog2. destruct w as [rn lg ni nf ne nt nd ns nst nim nn].
    unfold gate_world, gate_events. cbn. tidy_log. reflexivity.
  - destruct Ho.
Qed.

Lemma session_entered_with_flag_cleared_witness :
  running flag_down = false /\ verified steady flag_down = true /\ (0 < 10)%nat
  /\ exists t,
       tracker_init steady (n_init flag_down) = inr t
       /\ ((exists e body,
              fst (record_session steady 10 session_dir 3600 90 flag_down) = Raise e
              /\ storage_faulty steady
              /\ In body (aborted_openings session_dir t)
              /\ log (snd (record_session steady 10 session_dir 3600 90 flag_down))
                 = log flag_down ++ gate_events flag_down ++ body)
           \/ (fst (record_session steady 10 session_dir 3600 90 flag_down) = Ret false
               /\ (exists j,
                     log (snd (record_session steady 10 session_dir 3600 90 flag_down))
                     = log flag_down ++ gate_events flag_down
                         ++ opening_events session_dir t
                         ++ [ ETrackerExit j; EPrint MsgNoFramesRecorded ])
               /\ files (replay empty_storage
                           (log (snd (record_session steady 10 session_dir 3600 90
                                        flag_down))))
                    !! poses_file session_dir
                  = Some (Text [ header_text t ])
               /\ files (replay empty_storage
                           (log (snd (record_session steady 10 session_dir 3600 90
                                        flag_down))))
                    !! metadata_file session_dir
                  = files (replay empty_storage (log flag_down))
                      !! metadata_file session_dir)).
Proof.
  assert (running flag_down = false) as H1 by reflexivity.
  assert (verified steady flag_down = true) as H2 by reflexivity.
  assert (0 < 10)%nat as H3 by lia.
  split; [ exact H1 | ]. split; [ exact H2 | ]. split; [ exact H3 | ].
  exact (session_entered_with_flag_cleared steady 10 session_dir 3600 90 flag_down
           empty_storage H1 H2 H3).
Defined.

(** ** Disk exhaustion, whatever storage does *)

Lemma aborted_opening_not_tripped maxu out t evs :
  In evs (aborted_openings out t) -> Forall (fun ev => tripped maxu ev = false) evs.
Proof.
  intros H.
  unfold aborted_openings, aborted_write, write_events, folders_events, calibration_note in H.
  destruct (calibrated_intrinsics t); shapes H; repeat constructor.
Qed.

Lemma aborted_closing_not_tripped maxu out j now n tss evs :
  In evs (aborted_closings out j now n tss) -> Forall (fun ev => tripped maxu ev = false) evs.
Proof. intros H. unfold aborted_closings, aborted_write in H. shapes H; repeat constructor. Qed.

(** The teardown never sets the flag. *)
Lemma close_session_flag env out st w :
  running w = false -> running (snd (close_session env out st w)) = false.
Proof.
  intros Hoff.
  assert (respects (flag_step env 0) (close_session env out st)) as H
    by (unfold close_session; flag_steps env 0%Q).
  destruct (H w) as (evs & _ & _ & Hset & _).
  destruct (running (snd (close_session env out st w))); [ | reflexivity ].
  destruct (Hset eq_refl) as [ Hon _ ]. congruence.
Qed.

(** A session in which a disk check sampled above the threshold: the
    sample is the last thing the loop did, the flag is cleared, and the
    teardown follows at once; the session returns [False] unless writing
    the summary raises. *)
Lemma tripped_session env fuel out maxd maxu w evs :
  log (snd (record_session env fuel out maxd maxu w)) = log w ++ evs ->
  Exists (fun ev => tripped maxu ev = true) evs ->
  running (snd (record_session env fuel out maxd maxu w)) = false
  /\ exists t n c rows frames usage closing,
       frames_logged env out maxu (time_time env (n_time w))
         (S (n_frame w)) (S (n_time w)) n c rows frames
       /\ length rows = n
       /\ Qgt_bool usage maxu = true
       /\ evs = gate_events w ++ opening_events out t ++ frames
                  ++ [ EDiskUsage out usage; EPrint (MsgDiskHigh usage) ] ++ closing
       /\ ((fst (record_session env fuel out maxd maxu w) = Ret false
            /\ exists j now, closing = closing_events out j now n (List.map row_ts rows))
           \/ (exists e,
                 fst (record_session env fuel out maxd maxu w) = Raise e
                 /\ storage_faulty env
                 /\ (0 < n)%nat
                 /\ exists j now,
                      In closing (aborted_closings out j now n (List.map row_ts rows)))).
Proof.
  intros Hlog Hex. destruct (verified env w) eqn:Hv.
  - destruct (record_session_spec env fuel out maxd maxu w Hv) as (t & Ht & _).
    rewrite (record_session_after_gate env fuel out maxd maxu w t Hv Ht) in *.
    unfold mbind, M_bind, bind in *.
    assert (n_time (gate_world w) = n_time w /\ n_frame (gate_world w) = S (n_frame w)
            /\ log (gate_world w) = log w ++ gate_events w) as (Hgt & Hgf & Hgl).
    { destruct w as [rn lg ni nf ne nt nd ns nst nim nn]. unfold gate_world, gate_events.
      cbn. rewrite <- !app_assoc. auto. }
    pose proof (open_session_spec env out t (gate_world w)) as Ho.
    destruct (open_session env out t (gate_world w)) as [ [ [ start st ] | e | ] w2 ];
      cbn [fst snd] in *.
    + destruct Ho as (-> & -> & Hlog2 & _ & Hk2 & Hc2). rewrite Hgt in *.
      pose proof (frame_loop_spec env out maxd maxu (time_time env (n_time w))
                    (S (n_frame w)) (S (n_time w)) (log w2) fuel
                    (mkLoop 0 [] (time_time env (n_time w))) w2
                    0%nat (S (n_time w)) [] [] (frames_none _ _ _ _ _ _) eq_refl eq_refl)
        as Hl.
      destruct (frame_loop env fuel out maxd maxu (time_time env (n_time w))
                  (mkLoop 0 [] (time_time env (n_time w))) w2) as [ o3 w3 ].
      destruct Hl as (n & c & rows & frames & last & Hfr & Hlog3 & Hend);
        [ symmetry; apply app_nil_r | rewrite Hk2, Hgf; lia | rewrite Hc2; lia | ].
      assert (forall rest,
                Exists (fun ev => tripped maxu ev = true)
                  (gate_events w ++ opening_events out t ++ frames ++ rest) ->
                Exists (fun ev => tripped maxu ev = true) rest) as Hrest.
      { intros rest H.
        apply List.Exists_app in H as [ H | H ];
          [ destruct (Exists_not_Forall _ _ H (gate_not_tripped maxu w)) | ].
        apply List.Exists_app in H as [ H | H ];
          [ destruct (Exists_not_Forall _ _ H (opening_not_tripped maxu out t)) | ].
        apply List.Exists_app in H as [ H | H ];
          [ destruct (Exists_not_Forall _ _ H
                        (frames_logged_not_tripped _ _ _ _ _ _ _ _ _ _ Hfr)) | ].
        exact H. }
      destruct o3 as [ st3 | e | ]; cbn [fst snd] in *.
      * destruct Hend as (Hn & Hts & Hexit).
        pose proof (close_session_spec env out st3 w3) as Hc.
        pose proof (close_session_flag env out st3 w3) as Hflag.
        destruct (close_session env out st3 w3) as [ [ r | e | ] w4 ];
          cbn [fst snd] in *; [ | | destruct Hc ].
        -- destruct Hc as (-> & Hstop & Hlog4). rewrite Hn, Hts in Hlog4.
           rewrite Hlog4, Hlog3, Hlog2, Hgl in Hlog. rewrite <- !app_assoc in Hlog.
           apply app_inv_head in Hlog. subst evs.
           apply Hrest in Hex. apply List.Exists_app in Hex as [ Hex | Hex ];
             [ | destruct (Exists_not_Forall _ _ Hex
                             (closing_not_tripped maxu out _ _ _ _)) ].
           destruct (loop_exit_tripped _ _ _ _ _ _ _ _ _ Hexit Hex) as (Hoff & usage & Hu & ->).
           split; [ apply Hstop; exact Hoff | ].
           exists t, n, c, rows, frames, usage. eexists.
           split; [ exact Hfr | ].
           split; [ eapply frames_logged_length; exact Hfr | ].
           split; [ exact Hu | ]. split; [ reflexivity | ].
           left. split; [ f_equal; apply Hstop; exact Hoff | eauto ].
        -- destruct Hc as (Hf & Hpos & closing & Hin & Hlog4). rewrite Hn, Hts in *.
           rewrite Hlog4, Hlog3, Hlog2, Hgl in Hlog. rewrite <- !app_assoc in Hlog.
           apply app_inv_head in Hlog. subst evs.
           apply Hrest in Hex. apply List.Exists_app in Hex as [ Hex | Hex ];
             [ | destruct (Exists_not_Forall _ _ Hex
                             (aborted_closing_not_tripped maxu out _ _ _ _ _ Hin)) ].
           destruct (loop_exit_tripped _ _ _ _ _ _ _ _ _ Hexit Hex) as (Hoff & usage & Hu & ->).
           split; [ apply Hflag; exact Hoff | ].
           exists t, n, c, rows, frames, usage, closing.
           split; [ exact Hfr | ].
           split; [ eapply frames_logged_length; exact Hfr | ].
           split; [ exact Hu | ]. split; [ reflexivity | ].
           right. exists e. split; [ reflexivity | ]. split; [ exact Hf | ].
           split; [ exact Hpos | eauto ].
      * exfalso.
        destruct Hend as (_ & noise & img & ok & line & blk & Hnoise & Hin & -> & _).
        rewrite Hlog3, Hlog2, Hgl in Hlog. rewrite <- !app_assoc in Hlog.
        apply app_inv_head in Hlog. subst evs.
        apply Hrest in Hex. apply List.Exists_app in Hex as [ Hex | Hex ].
        -- exact (Exists_not_Forall _ _ Hex (check_noise_not_tripped _ _ _ _ Hnoise)).
        -- exact (Exists_not_Forall _ _ Hex (aborted_frame_not_tripped _ _ _ _ _ _ _ _ Hin)).
      * exfalso. subst last.
        rewrite Hlog3, Hlog2, Hgl in Hlog. rewrite <- !app_assoc in Hlog.
        apply app_inv_head in Hlog. subst evs.
        apply Hrest in Hex. inversion Hex.
    + exfalso. destruct Ho as (_ & body & Hin & Hlog2).
      rewrite Hlog2, Hgl in Hlog. rewrite <- !app_assoc in Hlog.
      apply app_inv_head in Hlog. subst evs.
      apply List.Exists_app in Hex as [ Hex | Hex ];
        [ destruct (Exists_not_Forall _ _ Hex (gate_not_tripped maxu w)) | ].
      exact (Exists_not_Forall _ _ Hex (aborted_opening_not_tripped maxu out t body Hin)).
    + destruct Ho.
  - exfalso.
    destruct (gate_failure env fuel out maxd maxu w Hv) as (evs' & _ & Hlog' & Hlast & Hq).
    rewrite Hlog' in Hlog. apply app_inv_head in Hlog. subst evs'.
    rewrite Hlast in Hex. apply List.Exists_app in Hex as [ Hex | Hex ].
    + apply (Exists_not_Forall _ _ Hex).
      eapply List.Forall_impl; [ | exact Hq ].
      intros ev H. destruct ev; try discriminate H; reflexivity.
    + apply (Exists_not_Forall _ _ Hex). repeat constructor.
Qed.

(** A turn of the session loop ends with its session when the session
    does not hand back [True]. *)
Lemma session_loop_ends_with_session env sessions fuel args w :
  running w && negb (signal_seen env (n_signal w)) = true ->
  (fst (record_session env fuel (fst (next_session env args w)) (session_duration args)
          (max_disk_usage_arg args) (snd (next_session env args w))) = Ret false ->
   session_loop env (S sessions) fuel args w
     = (Ret tt,
        snd (record_session env fuel (fst (next_session env args w)) (session_duration args)
               (max_disk_usage_arg args) (snd (next_session env args w)))))
  /\ (forall e,
        fst (record_session env fuel (fst (next_session env args w)) (session_duration args)
               (max_disk_usage_arg args) (snd (next_session env args w))) = Raise e ->
        session_loop env (S sessions) fuel args w
          = (Raise e,
             snd (record_session env fuel (fst (next_session env args w))
                    (session_duration args) (max_disk_usage_arg args)
                    (snd (next_session env args w))))).
Proof.
  intros Hflag. unfold next_session. cbn [fst snd].
  set (r := running w && negb (signal_seen env (n_signal w))) in *.
  cbn [session_loop]. unfold mbind, M_bind, bind, read_running, now_datetime, mret, M_ret, ret.
  fold r. rewrite Hflag in *. cbn [negb n_now bump_signal set_running_flag].
  match goal with
  | |- context [record_session env fuel ?o ?d ?u ?w1] =>
      destruct (record_session env fuel o d u w1) as [ x w' ]
  end.
  cbn [fst snd]. split; [ intros -> | intros e -> ]; reflexivity.
Qed.

(** C6 (as amended).  Take any turn of the session loop that finds the
    run flag set, and suppose a disk check of the session it starts
    samples above the threshold.  Then the flag is cleared and the
    session logs nothing between the sample and its teardown: the loop is
    left at once.  Either the session writes the summary of the [n]
    frames recorded so far (when there are any) and returns [False], and
    the session loop returns at that point; or writing the summary
    raises, and the exception ends the session and the session loop.
    Neither way is another session started.  When no storage operation
    raises it is the first. *)
Theorem disk_exhaustion_ends_session_and_program env sessions fuel args w :
  running w && negb (signal_seen env (n_signal w)) = true ->
  let out := fst (next_session env args w) in
  let w1 := snd (next_session env args w) in
  let run := record_session env fuel out (session_duration args) (max_disk_usage_arg args) w1 in
  forall evs,
    log (snd run) = log w1 ++ evs ->
    Exists (fun ev => tripped (max_disk_usage_arg args) ev = true) evs ->
    running (snd run) = false
    /\ (exists t n c rows frames usage closing,
          frames_logged env out (max_disk_usage_arg args) (time_time env (n_time w1))
            (S (n_frame w1)) (S (n_time w1)) n c rows frames
          /\ length rows = n
          /\ Qgt_bool usage (max_disk_usage_arg args) = true
          /\ evs = gate_events w1 ++ opening_events out t ++ frames
                     ++ [ EDiskUsage out usage; EPrint (MsgDiskHigh usage) ] ++ closing
          /\ ((fst run = Ret false
               /\ (exists j now, closing = closing_events out j now n (List.map row_ts rows))
               /\ session_loop env (S sessions) fuel args w = (Ret tt, snd run))
              \/ (exists e,
                    fst run = Raise e
                    /\ storage_faulty env
                    /\ (0 < n)%nat
                    /\ (exists j now,
                          In closing (aborted_closings out j now n (List.map row_ts rows)))
                    /\ session_loop env (S sessions) fuel args w = (Raise e, snd run))))
    /\ ((forall k, storage_fault env k = None) ->
        fst run = Ret false
        /\ session_loop env (S sessions) fuel args w = (Ret tt, snd run)).
Proof.
  intros Hflag out w1 run evs Hlog Hex.
  destruct (session_loop_ends_with_session env sessions fuel args w Hflag) as [ Hret Hraise ].
  fold out w1 run in Hret, Hraise.
  destruct (tripped_session env fuel out (session_duration args) (max_disk_usage_arg args)
              w1 evs Hlog Hex)
    as (Hoff & t & n & c & rows & frames & usage & closing & Hfr & Hlen & Hu & Hevs & Hend).
  fold run in Hoff, Hend.
  split; [ exact Hoff | ]. split.
  - exists t, n, c, rows, frames, usage, closing.
    split; [ exact Hfr | ]. split; [ exact Hlen | ]. split; [ exact Hu | ].
    split; [ exact Hevs | ].
    destruct Hend as [ (Ho & Hc) | (e & Ho & Hf & Hpos & Hc) ].
    + left. split; [ exact Ho | ]. split; [ exact Hc | exact (Hret Ho) ].
    + right. exists e. split; [ exact Ho | ]. split; [ exact Hf | ].
      split; [ exact Hpos | ]. split; [ exact Hc | exact (Hraise e Ho) ].
  - intros Hstorage.
    destruct Hend as [ (Ho & _) | (e & _ & (k & e' & Hk) & _) ].
    + split; [ exact Ho | exact (Hret Ho) ].
    + rewrite Hstorage in Hk. discriminate Hk.
Qed.

Lemma disk_exhaustion_ends_session_and_program_witness :
  running fresh && negb (signal_seen nearly_full (n_signal fresh)) = true
  /\ (forall k, storage_fault nearly_full k = None)
  /\ let out := fst (next_session nearly_full default_arguments fresh) in
     let w1 := snd (next_session nearly_full default_arguments fresh) in
     let run := record_session nearly_full 10 out (session_duration default_arguments)
                  (max_disk_usage_arg default_arguments) w1 in
     log (snd run) = log w1 ++ log (snd run)
     /\ Exists (fun ev => tripped (max_disk_usage_arg default_arguments) ev = true)
          (log (snd run))
     /\ running (snd run) = false
     /\ fst run = Ret false
     /\ session_loop nearly_full 3 10 default_arguments fresh = (Ret tt, snd run).
Proof.
  assert (running fresh && negb (signal_seen nearly_full (n_signal fresh)) = true) as Hf
    by reflexivity.
  assert (forall k, storage_fault nearly_full k = None) as Hs by (intros k; reflexivity).
  split; [ exact Hf | ]. split; [ exact Hs | ].
  intros out w1 run.
  assert (log (snd run) = log w1 ++ log (snd run)) as Hl by (vm_compute; reflexivity).
  assert (Exists (fun ev => tripped (max_disk_usage_arg default_arguments) ev = true)
            (log (snd run))) as He.
  { apply List.Exists_exists.
    exists (EDiskUsage session_dir (inject_Z 95 / inject_Z 100 * 100)).
    split; [ vm_compute; repeat first [ left; reflexivity | right ] | vm_compute; reflexivity ]. }
  destruct (disk_exhaustion_ends_session_and_program nearly_full 2 10 default_arguments fresh
              Hf (log (snd run)) Hl He) as (H1 & _ & H3).
  destruct (H3 Hs) as [ H4 H5 ].
  split; [ exact Hl | ]. split; [ exact He | ]. split; [ exact H1 | ].
  split; [ exact H4 | exact H5 ].
Defined.

(** C6, as the specification states it, fails: on the nearly full disk
    the sample trips and the flag is cleared, but opening [metadata.json]
    raises [OSError]; nothing catches it, so [record_session] does not
    return [False]: the exception leaves it and the session loop. *)
Lemma disk_exhaustion_summary_write_raises :
  let out := fst (next_session summary_unwritable default_arguments fresh) in
  let w1 := snd (next_session summary_unwritable default_arguments fresh) in
  let run := record_session summary_unwritable 10 out (session_duration default_arguments)
               (max_disk_usage_arg default_arguments) w1 in
  Exists (fun ev => tripped (max_disk_usage_arg default_arguments) ev = true) (log (snd run))
  /\ running (snd run) = false
  /\ fst run = Raise (OSError "No space left on device")
  /\ fst run <> Ret false
  /\ fst (session_loop summary_unwritable 3 10 default_arguments fresh)
     = Raise (OSError "No space left on device").
Proof.
  intros out w1 run.
  assert (fst run = Raise (OSError "No space left on device")) as E
    by (vm_compute; reflexivity).
  split.
  { apply List.Exists_exists.
    exists (EDiskUsage session_dir (inject_Z 95 / inject_Z 100 * 100)).
    split; [ vm_compute; repeat first [ left; reflexivity | right ] | vm_compute; reflexivity ]. }
  split; [ vm_compute; reflexivity | ]. split; [ exact E | ].
  split; [ rewrite E; discriminate | vm_compute; reflexivity ].
Qed.

(** ** The range of the timestamps *)

(** A property that holds of the stamp of every clock reading the loop
    can record under holds of every stamp it did record. *)
Lemma frame_loop_stamps env out maxd maxu start c0 (P : Z -> Prop) fuel :
  (forall i, (c0 <= i)%nat -> Qgt_bool (time_time env i - start) maxd = false ->
             P (stamp_ms env start i)) ->
  forall st w,
    (c0 <= n_time w)%nat ->
    Forall P (timestamps st) ->
    match frame_loop env fuel out maxd maxu start st w with
    | (Ret st', _) => Forall P (timestamps st')
    | _ => True
    end.
Proof.
  intros HP. induction fuel as [ | fuel IH ]; intros st w Hc Hst; [ exact I | ].
  cbn [frame_loop]. unfold mbind, M_bind, bind.
  pose proof (frame_step_spec env out maxd maxu start st w) as Hstep.
  destruct (frame_step env out maxd maxu start st w) as [ [ [ [ | ] st' ] | e | ] w' ];
    try exact I.
  - destruct Hstep as (_ & Hts & _). cbn. rewrite Hts. exact Hst.
  - destruct Hstep as (noise & img & ok & hands & b & hd & bd & _ & _ & _ & _ & _ & Hts & _
                       & _ & Hc' & Hlimit).
    apply IH; [ lia | ]. rewrite Hts. apply List.Forall_app. split; [ exact Hst | ].
    repeat constructor. apply HP; assumption.
Qed.

(** The same for the timestamps a returned session left in its pose
    stream. *)
Lemma session_stamps env fuel out maxd maxu w r w' s0 (P : Z -> Prop) :
  record_session env fuel out maxd maxu w = (Ret r, w') ->
  verified env w = true ->
  (forall i, (S (n_time w) <= i)%nat ->
             Qgt_bool (time_time env i - time_time env (n_time w)) maxd = false ->
             P (stamp_ms env (time_time env (n_time w)) i)) ->
  Forall P (frame_timestamps (stored_text (replay s0 (log w')) (poses_file out))).
Proof.
  intros Hrun Hv HP.
  destruct (record_session_spec env fuel out maxd maxu w Hv) as (t & Ht & _).
  pose proof Hrun as Hrun'.
  rewrite (record_session_after_gate env fuel out maxd maxu w t Hv Ht) in Hrun'.
  unfold mbind, M_bind, bind in Hrun'.
  assert (n_time (gate_world w) = n_time w /\ n_frame (gate_world w) = S (n_frame w)
          /\ log (gate_world w) = log w ++ gate_events w) as (Hgt & Hgf & Hgl).
  { destruct w as [rn lg ni nf ne nt nd ns nst nim nn]. unfold gate_world, gate_events. cbn.
    rewrite <- !app_assoc. auto. }
  pose proof (open_session_spec env out t (gate_world w)) as Ho.
  destruct (open_session env out t (gate_world w)) as [ [ [ start st ] | e | ] w2 ];
    try discriminate Hrun'.
  destruct Ho as (-> & -> & Hlog2 & _ & Hk2 & Hc2). rewrite Hgt in *.
  pose proof (frame_loop_spec env out maxd maxu (time_time env (n_time w)) (S (n_frame w))
                (S (n_time w)) (log w2) fuel (mkLoop 0 [] (time_time env (n_time w))) w2
                0%nat (S (n_time w)) [] [] (frames_none _ _ _ _ _ _) eq_refl eq_refl) as Hl.
  pose proof (frame_loop_stamps env out maxd maxu (time_time env (n_time w)) (S (n_time w))
                P fuel HP (mkLoop 0 [] (time_time env (n_time w))) w2) as Hs.
  destruct (frame_loop env fuel out maxd maxu (time_time env (n_time w))
              (mkLoop 0 [] (time_time env (n_time w))) w2) as [ [ st3 | e | ] w3 ];
    try discriminate Hrun'.
  destruct Hl as (n & c & rows & frames & last & Hfr & Hlog3 & Hn & Hts & Hexit);
    [ symmetry; apply app_nil_r | rewrite Hk2, Hgf; lia | rewrite Hc2; lia | ].
  specialize (Hs ltac:(rewrite Hc2; lia) ltac:(constructor)). rewrite Hts in Hs.
  pose proof (close_session_spec env out st3 w3) as Hc. rewrite Hrun' in Hc.
  destruct Hc as (_ & _ & Hlog4). rewrite Hn, Hts in Hlog4.
  destruct (returned_session_files out t w frames last (n_exit w3)
              (datetime_now env (n_now w3)) n rows env maxu _ _ _ c maxd (running w3) s0
              (log w) (log w') Hfr Hexit) as (Hposes & _).
  { rewrite Hlog4, Hlog3, Hlog2, Hgl. rewrite <- !app_assoc. reflexivity. }
  unfold stored_text. rewrite Hposes.
  destruct (session_stream_columns t rows) as (_ & _ & ->). exact Hs.
Qed.

Lemma not_past_limit a b : Qgt_bool a b = false -> (a <= b)%Q.
Proof.
  unfold Qgt_bool. intros H. apply negb_false_iff in H. apply Qle_bool_iff. exact H.
Qed.

(** X10.  No frame record of a returned session is stamped later than the
    session's duration limit: every [timestamp_ms] is at most
    [int(max_duration * 1000)].  Under a wall clock that does not step
    back no [timestamp_ms] is negative either. *)
Theorem timestamps_within_duration env fuel out maxd maxu w r w' s0 :
  record_session env fuel out maxd maxu w = (Ret r, w') ->
  verified env w = true ->
  Forall (fun ts => (ts <= py_int (maxd * 1000))%Z)
    (frame_timestamps (stored_text (replay s0 (log w')) (poses_file out)))
  /\ (clock_monotone env ->
      Forall (fun ts => (0 <= ts)%Z)
        (frame_timestamps (stored_text (replay s0 (log w')) (poses_file out)))).
Proof.
  intros Hrun Hv. split.
  - apply (session_stamps env fuel out maxd maxu w r w' s0 _ Hrun Hv).
    intros i _ Hlimit. unfold stamp_ms. apply py_int_le.
    apply Qmult_le_compat_r; [ apply not_past_limit; exact Hlimit | discriminate ].
  - intros Hmono.
    apply (session_stamps env fuel out maxd maxu w r w' s0 _ Hrun Hv).
    intros i Hi _. unfold stamp_ms. change 0%Z with (py_int 0). apply py_int_le.
    apply Qmult_le_0_compat; [ | discriminate ].
    unfold Qminus. rewrite <- Qle_minus_iff. apply Hmono. lia.
Qed.

Lemma timestamps_within_duration_witness :
  record_session steady 10 session_dir 3600 90 fresh
    = (Ret true, snd (record_session steady 10 session_dir 3600 90 fresh))
  /\ verified steady fresh = true
  /\ Forall (fun ts => (ts <= py_int (3600 * 1000))%Z)
       (frame_timestamps
          (stored_text
             (replay empty_storage
                (log (snd (record_session steady 10 session_dir 3600 90 fresh))))
             (poses_file session_dir)))
  /\ (clock_monotone steady ->
      Forall (fun ts => (0 <= ts)%Z)
        (frame_timestamps
           (stored_text
              (replay empty_storage
                 (log (snd (record_session steady 10 session_dir 3600 90 fresh))))
              (poses_file session_dir)))).
Proof.
  assert (record_session steady 10 session_dir 3600 90 fresh
          = (Ret true, snd (record_session steady 10 session_dir 3600 90 fresh))) as H
    by (vm_compute; reflexivity).
  assert (verified steady fresh = true) as Hv by reflexivity.
  split; [ exact H | ]. split; [ exact Hv | ].
  exact (timestamps_within_duration steady 10 session_dir 3600 90 fresh true _
           empty_storage H Hv).
Defined.

(** ** The life of the tracker *)

Lemma lifecycle_run_app env evs1 :
  forall s evs2,
    lifecycle_run env s (evs1 ++ evs2)
      = match lifecycle_run env s evs1 with
        | Some s' => lifecycle_run env s' evs2
        | None => None
        end.
Proof.
  induction evs1 as [ | ev evs1 IH ]; intros s evs2; [ reflexivity | ].
  cbn. destruct (lifecycle_step env s ev); [ apply IH | reflexivity ].
Qed.

Lemma lifecycle_run_then env s s' evs1 evs2 :
  lifecycle_run env s evs1 = Some s' ->
  lifecycle_run env s (evs1 ++ evs2) = lifecycle_run env s' evs2.
Proof. intros H. rewrite lifecycle_run_app, H. reflexivity. Qed.

Lemma lifecycle_idle env s evs :
  Forall (fun ev => idle ev = true) evs -> lifecycle_run env s evs = Some s.
Proof.
  induction 1 as [ | ev evs Hev _ IH ]; [ reflexivity | ].
  cbn. destruct ev; try discriminate Hev; exact IH.
Qed.

Lemma check_noise_idle out maxu n noise :
  check_noise out maxu n noise -> Forall (fun ev => idle ev = true) noise.
Proof. intros [ | usage H ]; repeat constructor. Qed.

Lemma frames_logged_lifecycle env out maxu start k0 c0 n c rows evs :
  frames_logged env out maxu start k0 c0 n c rows evs ->
  lifecycle_run env Live evs = Some Live.
Proof.
  induction 1 as [ | n c rows evs noise i img ok hands b hd bd Hfr IH Hnoise _ _ _ _ ];
    [ reflexivity | ].
  rewrite (lifecycle_run_then _ _ _ _ _ IH).
  rewrite (lifecycle_run_then _ _ _ _ _ (lifecycle_idle env Live _ (check_noise_idle _ _ _ _ Hnoise))).
  reflexivity.
Qed.

Lemma loop_exit_lifecycle env out maxd maxu start n k r last :
  loop_exit env out maxd maxu start n k r last -> lifecycle_run env Live last = Some Live.
Proof.
  intros [ | i H | usage H | noise e Hn H | noise hands b Hn H ]; try reflexivity;
    rewrite (lifecycle_run_then _ _ _ _ _
               (lifecycle_idle env Live _ (check_noise_idle _ _ _ _ Hn)));
    reflexivity.
Qed.

Lemma opening_lifecycle env out t s : lifecycle_run env s (opening_events out t) = Some s.
Proof.
  apply lifecycle_idle. unfold opening_events, folders_events, calibration_note.
  destruct (calibrated_intrinsics t); repeat constructor.
Qed.

Lemma aborted_opening_lifecycle env out t s evs :
  In evs (aborted_openings out t) -> lifecycle_run env s evs = Some s.
Proof.
  intros H. apply lifecycle_idle.
  unfold aborted_openings, aborted_write, write_events, folders_events, calibration_note in H.
  destruct (calibrated_intrinsics t); shapes H; repeat constructor.
Qed.

Lemma aborted_frame_lifecycle env out n k img ok line blk :
  In blk (aborted_frames out n k img ok line) -> lifecycle_run env Live blk = Some Live.
Proof. intros H. unfold aborted_frames, aborted_write in H. shapes H; reflexivity. Qed.

Lemma closing_lifecycle env out j now n tss :
  lifecycle_run env Live (closing_events out j now n tss) = Some Released.
Proof. unfold closing_events. destruct (0 <? n)%nat; reflexivity. Qed.

Lemma aborted_closing_lifecycle env out j now n tss evs :
  In evs (aborted_closings out j now n tss) -> lifecycle_run env Live evs = Some Released.
Proof. intros H. unfold aborted_closings, aborted_write in H. shapes H; reflexivity. Qed.

(** What a session that does not pass the gate logs. *)
Lemma gate_failure_log env fuel out maxd maxu w :
  verified env w = false ->
  (exists e,
     tracker_init env (n_init w) = inl e
     /\ log (snd (record_session env fuel out maxd maxu w))
        = log w ++ [ EPrint MsgInitializing; ETrackerInit (n_init w);
                     EPrint (MsgInitError e); EPrint MsgRetry; ESleep 5 ])
  \/ (exists t why,
        tracker_init env (n_init w) = inr t
        /\ (match next_frame env (n_frame w) with
            | inl e => why = MsgFirstFrameError e
            | inr _ => why = MsgCameraSilent
            end)
        /\ log (snd (record_session env fuel out maxd maxu w))
           = log w ++ [ EPrint MsgInitializing; ETrackerInit (n_init w);
                        EPrint MsgTesting; ENextFrame (n_frame w);
                        EPrint why; EPrint MsgRetry; ETrackerExit (n_exit w);
                        ESleep 5 ]).
Proof.
  intros Hv. unfold verified in Hv.
  destruct w as [rn lg ni nf ne nt nd ns nst nim nn]. cbn [n_init n_frame n_exit log] in *.
  unfold record_session, acquire, verify, back_off_after_release.
  unfold_monad.
  destruct (tracker_init env ni) as [ e | t ].
  - left. exists e. split; [ reflexivity | ]. tidy_log. reflexivity.
  - right. exists t.
    destruct (next_frame env nf) as [ e | [ [ [ img | ] hs ] b ] ];
      [ | discriminate Hv | ];
      destruct (tracker_exit env ne);
      (eexists; split; [ reflexivity | ]; split; [ reflexivity | ];
       tidy_log; reflexivity).
Qed.

(** What a session does to the tracker, from any state in which none is
    live. *)
Lemma session_lifecycle env fuel out maxd maxu w s :
  s <> Live ->
  exists evs final,
    log (snd (record_session env fuel out maxd maxu w)) = log w ++ evs
    /\ lifecycle_run env s evs = Some final
    /\ (forall r,
          fst (record_session env fuel out maxd maxu w) = Ret r ->
          final = match tracker_init env (n_init w) with
                  | inr _ => Released
                  | inl _ => s
                  end)
    /\ (forall e,
          fst (record_session env fuel out maxd maxu w) = Raise e ->
          (exists t, tracker_init env (n_init w) = inr t)
          /\ (final = Live \/ final = Released)).
Proof.
  intros Hs. destruct (verified env w) eqn:Hv.
  - destruct (record_session_spec env fuel out maxd maxu w Hv) as (t & Ht & H).
    destruct (record_session env fuel out maxd maxu w) as [ o w' ]. cbn [fst snd].
    assert (lifecycle_run env s (gate_events w) = Some Live) as Hgate.
    { unfold gate_events. cbn. rewrite Ht. destruct s; [ reflexivity | | reflexivity ].
      contradiction. }
    destruct H as (body & Hlog
                   & [ (e & -> & _ & Hin)
                     | (n & c & rows & frames & last & closing & Hfr & -> & Hend) ]).
    + exists (gate_events w ++ body), Live. split; [ exact Hlog | ].
      split; [ | split; [ discriminate | eauto ] ].
      rewrite (lifecycle_run_then _ _ _ _ _ Hgate).
      eapply aborted_opening_lifecycle. exact Hin.
    + assert (forall rest,
                lifecycle_run env s
                  (gate_events w ++ opening_events out t ++ frames ++ rest)
                = lifecycle_run env Live rest) as Hpre.
      { intros rest. rewrite (lifecycle_run_then _ _ _ _ _ Hgate).
        rewrite (lifecycle_run_then _ _ _ _ _ (opening_lifecycle env out t Live)).
        apply lifecycle_run_then. eapply frames_logged_lifecycle. exact Hfr. }
      inversion Hend as [ r0 r last' j now Hexit Hr
                        | e r noise img ok line blk Hcoop Hnoise Hin Hfrom
                        | e r r0 last' j now closing' Hf Hexit Hpos Hin
                        | r ]; subst;
        eexists; eexists; (split; [ exact Hlog | ]); rewrite Hpre, Ht.
      * rewrite (lifecycle_run_then _ _ _ _ _ (loop_exit_lifecycle _ _ _ _ _ _ _ _ _ Hexit)).
        rewrite closing_lifecycle. split; [ reflexivity | ].
        split; [ reflexivity | discriminate ].
      * rewrite app_nil_r.
        rewrite (lifecycle_run_then _ _ _ _ _
                   (lifecycle_idle env Live _ (check_noise_idle _ _ _ _ Hnoise))).
        rewrite (aborted_frame_lifecycle env _ _ _ _ _ _ _ Hin).
        split; [ reflexivity | ]. split; [ discriminate | eauto ].
      * rewrite (lifecycle_run_then _ _ _ _ _ (loop_exit_lifecycle _ _ _ _ _ _ _ _ _ Hexit)).
        rewrite (aborted_closing_lifecycle env _ _ _ _ _ _ Hin).
        split; [ reflexivity | ]. split; [ discriminate | eauto ].
      * split; [ reflexivity | ]. split; discriminate.
  - destruct (gate_failure env fuel out maxd maxu w Hv) as (evs0 & Hret & _).
    destruct (gate_failure_log env fuel out maxd maxu w Hv)
      as [ (e & Ht & Hlog) | (t & why & Ht & _ & Hlog) ];
      eexists; eexists; (split; [ exact Hlog | ]); rewrite Hret, Ht; cbn; rewrite Ht.
    + destruct s; try contradiction;
        (split; [ reflexivity | ]; split; [ reflexivity | discriminate ]).
    + destruct s; try contradiction;
        (split; [ reflexivity | ]; split; [ reflexivity | discriminate ]).
Qed.

(** X11.  The protocol of the tracker, over one session: whatever the session
    does and however it ends, it constructs a tracker only when none is
    live, pulls frames and releases only while one is live, and never
    releases twice.  When it returns, no tracker is left live: the one it
    constructed has been released.  An exception leaves [record_session]
    only after a tracker was constructed, and the tracker may then still
    be live. *)
Theorem tracker_protocol env fuel out maxd maxu w s :
  s <> Live ->
  exists evs final,
    log (snd (record_session env fuel out maxd maxu w)) = log w ++ evs
    /\ lifecycle_run env s evs = Some final
    /\ (forall r,
          fst (record_session env fuel out maxd maxu w) = Ret r ->
          final = match tracker_init env (n_init w) with
                  | inr _ => Released
                  | inl _ => s
                  end)
    /\ (forall e,
          fst (record_session env fuel out maxd maxu w) = Raise e ->
          (exists t, tracker_init env (n_init w) = inr t)
          /\ (final = Live \/ final = Released)).
Proof. apply session_lifecycle. Qed.

Lemma tracker_protocol_witness :
  NotBuilt <> Live
  /\ exists evs final,
       log (snd (record_session steady 10 session_dir 3600 90 fresh)) = log fresh ++ evs
       /\ lifecycle_run steady NotBuilt evs = Some final
       /\ (forall r,
             fst (record_session steady 10 session_dir 3600 90 fresh) = Ret r ->
             final = match tracker_init steady (n_init fresh) with
                     | inr _ => Released
                     | inl _ => NotBuilt
                     end)
       /\ (forall e,
             fst (record_session steady 10 session_dir 3600 90 fresh) = Raise e ->
             (exists t, tracker_init steady (n_init fresh) = inr t)
             /\ (final = Live \/ final = Released)).
Proof.
  assert (NotBuilt <> Live) as H by discriminate.
  split; [ exact H | ].
  exact (tracker_protocol steady 10 session_dir 3600 90 fresh NotBuilt H).
Defined.

Lemma session_loop_lifecycle env fuel args sessions :
  forall w s o w',
    session_loop env sessions fuel args w = (o, w') ->
    s <> Live ->
    exists evs final,
      log w' = log w ++ evs
      /\ lifecycle_run env s evs = Some final
      /\ (o = Ret tt -> final <> Live).
Proof.
  induction sessions as [ | sessions IH ]; intros w s o w' H Hs.
  - injection H as <- <-. exists [], s. rewrite app_nil_r. split; [ reflexivity | ].
    split; [ reflexivity | discriminate ].
  - cbn [session_loop] in H. unfold mbind, M_bind, bind in H.
    unfold read_running at 1 in H.
    destruct (running w && negb (signal_seen env (n_signal w))) eqn:Hr; cbn [negb] in H.
    + unfold now_datetime at 1 in H.
      match type of H with
      | context [record_session env fuel ?out ?d ?u ?w1] =>
          destruct (session_lifecycle env fuel out d u w1 s Hs)
            as (evs1 & final1 & Hlog1 & Hrun1 & Hret1 & _);
          destruct (record_session env fuel out d u w1) as [ [ [ | ] | e | ] w2 ]
      end; cbn [negb fst snd log bump_now bump_signal set_running_flag] in *.
      * assert (final1 <> Live) as Hs1.
        { rewrite (Hret1 true eq_refl). destruct (tracker_init env _); [ exact Hs | ].
          discriminate. }
        unfold print, sleep, emit in H.
        destruct (IH _ final1 _ _ H Hs1) as (evs2 & final2 & Hlog2 & Hrun2 & Hret2).
        cbn [log add_event] in Hlog2.
        exists (evs1 ++ [ EPrint MsgNewSession; ESleep 2 ] ++ evs2), final2.
        split; [ rewrite Hlog2, Hlog1; rewrite <- !app_assoc; reflexivity | ].
        split; [ | exact Hret2 ].
        rewrite (lifecycle_run_then _ _ _ _ _ Hrun1). exact Hrun2.
      * injection H as <- <-.
        exists evs1, final1. split; [ exact Hlog1 | ]. split; [ exact Hrun1 | ].
        intros _. rewrite (Hret1 false eq_refl).
        destruct (tracker_init env _); [ exact Hs | discriminate ].
      * injection H as <- <-.
        exists evs1, final1. split; [ exact Hlog1 | ]. split; [ exact Hrun1 | ].
        discriminate.
      * injection H as <- <-.
        exists evs1, final1. split; [ exact Hlog1 | ]. split; [ exact Hrun1 | ].
        discriminate.
    + injection H as <- <-. exists [], s. cbn. rewrite app_nil_r.
      split; [ reflexivity | ]. split; [ reflexivity | intros _; exact Hs ].
Qed.

(** X12.  The protocol of the tracker, over the whole program: across any
    number of sessions a tracker is constructed only when the previous
    one has been released or none was built, frames are pulled only from
    a live tracker, and when [main] returns no tracker is left live. *)
Theorem main_tracker_protocol env sessions fuel args w :
  exists evs final,
    log (snd (main env sessions fuel args w)) = log w ++ evs
    /\ lifecycle_run env NotBuilt evs = Some final
    /\ (fst (main env sessions fuel args w) = Ret tt -> final <> Live).
Proof.
  destruct w as [rn lg ni nf ne nt nd ns nst nim nn].
  unfold main. unfold_monad.
  destruct (storage_fault env nst).
  - exists [], NotBuilt. cbn. rewrite app_nil_r. split; [ reflexivity | ].
    split; [ reflexivity | discriminate ].
  - match goal with
    | |- context [session_loop env sessions fuel args ?w1] =>
        pose proof (fun o w' H =>
                      session_loop_lifecycle env fuel args sessions w1 NotBuilt o w' H
                        ltac:(discriminate)) as Hloop;
        destruct (session_loop env sessions fuel args w1) as [ [ [] | e | ] w2 ]
    end;
      destruct (Hloop _ _ eq_refl) as (evs & final & Hlog & Hrun & Hret);
      cbn [fst snd log] in *.
    + destruct w2 as [rn2 lg2 ni2 nf2 ne2 nt2 nd2 ns2 nst2 nim2 nn2].
      cbn [log] in *. subst lg2.
      eexists (_ :: _ :: _ :: _ :: _ :: _ :: _ :: _ :: _ :: evs ++ [ _ ]), final.
      split; [ rewrite <- !app_assoc; reflexivity | ].
      split; [ | intros _; apply Hret; reflexivity ].
      cbn [lifecycle_run lifecycle_step]. rewrite lifecycle_run_app, Hrun. reflexivity.
    + destruct w2 as [rn2 lg2 ni2 nf2 ne2 nt2 nd2 ns2 nst2 nim2 nn2].
      cbn [log] in *. subst lg2.
      eexists (_ :: _ :: _ :: _ :: _ :: _ :: _ :: _ :: _ :: evs), final.
      split; [ rewrite <- !app_assoc; reflexivity | ].
      split; [ exact Hrun | discriminate ].
    + destruct w2 as [rn2 lg2 ni2 nf2 ne2 nt2 nd2 ns2 nst2 nim2 nn2].
      cbn [log] in *. subst lg2.
      eexists (_ :: _ :: _ :: _ :: _ :: _ :: _ :: _ :: _ :: evs), final.
      split; [ rewrite <- !app_assoc; reflexivity | ].
      split; [ exact Hrun | discriminate ].
Qed.

(** ** A camera that never comes up *)

Lemma construction_failure env fuel out maxd maxu w e :
  tracker_init env (n_init w) = inl e ->
  record_session env fuel out maxd maxu w
    = (Ret (running w && negb (signal_seen env (n_signal w))),
       bump_signal
         (set_running_flag (running w && negb (signal_seen env (n_signal w)))
            (add_event (ESleep 5)
               (add_event (EPrint MsgRetry)
                  (add_event (EPrint (MsgInitError e))
                     (bump_init
                        (add_event (ETrackerInit (n_init w))
                           (add_event (EPrint MsgInitializing) w)))))))).
Proof.
  intros H. destruct w as [rn lg ni nf ne nt nd ns nst nim nn]. cbn [n_init] in H.
  unfold record_session, acquire. unfold_monad. rewrite H. reflexivity.
Qed.

Lemma retries_untouched env n :
  forall k, Forall (fun ev => touches_storage ev = false) (retries env k n).
Proof.
  induction n as [ | n IH ]; intros k; cbn; [ constructor | ].
  destruct (tracker_init env k); [ | constructor ].
  repeat (constructor; [ reflexivity | ]). apply IH.
Qed.

Lemma retries_sleeps env n :
  (forall k, exists e, tracker_init env k = inl e) ->
  forall k, List.map (fun ev => match ev with ESleep s => s | _ => 0%Z end)
              (List.filter is_sleep (retries env k n))
            = List.concat (repeat [ 5%Z; 2%Z ] n).
Proof.
  intros Hinit. induction n as [ | n IH ]; intros k; [ reflexivity | ].
  cbn [retries]. destruct (Hinit k) as [ e -> ]. cbn. rewrite IH. reflexivity.
Qed.

Lemma session_loop_retries env fuel args sessions :
  (forall k, exists e, tracker_init env k = inl e) ->
  (forall k, signal_seen env k = false) ->
  forall w,
    running w = true ->
    fst (session_loop env sessions fuel args w) = Timeout
    /\ log (snd (session_loop env sessions fuel args w))
       = log w ++ retries env (n_init w) sessions.
Proof.
  intros Hinit Hquiet. induction sessions as [ | sessions IH ]; intros w Hon.
  - cbn. rewrite app_nil_r. auto.
  - cbn [session_loop retries]. unfold mbind, M_bind, bind.
    unfold read_running at 1 2, now_datetime at 1 2.
    rewrite Hon, Hquiet. cbn [andb negb].
    destruct (Hinit (n_init w)) as [ e He ].
    rewrite construction_failure with (e := e)
      by (destruct w; cbn in *; exact He).
    rewrite He.
    cbn [running n_signal bump_now bump_signal set_running_flag add_event bump_init].
    rewrite Hquiet. cbn [andb negb]. unfold print, sleep, emit.
    match goal with
    | |- context [session_loop env sessions fuel args ?w3] =>
        destruct (IH w3 eq_refl) as [ Hout Hlog ]
    end.
    split; [ exact Hout | ]. rewrite Hlog.
    destruct w as [rn lg ni nf ne nt nd ns nst nim nn]. cbn. rewrite <- !app_assoc.
    reflexivity.
Qed.

(** X13.  When the tracker can never be constructed and no signal arrives, the
    program neither returns nor raises: whatever the bound on the number
    of turns of the session loop, it is still going when the bound is
    reached.  Each turn makes one attempt and sleeps five and then two
    seconds; apart from the recordings directory, created once at the
    start, nothing is ever put on storage. *)
Theorem unavailable_camera_is_retried_forever env sessions fuel args w :
  (forall k, exists e, tracker_init env k = inl e) ->
  (forall k, signal_seen env k = false) ->
  running w = true ->
  storage_fault env (n_storage w) = None ->
  fst (main env sessions fuel args w) = Timeout
  /\ log (snd (main env sessions fuel args w))
     = log w ++ EMkdir (recordings_dir args) true :: banner args
             ++ retries env (n_init w) sessions
  /\ (forall s0,
        files (replay s0 (log (snd (main env sessions fuel args w))))
        = files (replay s0 (log w)))
  /\ List.map (fun ev => match ev with ESleep s => s | _ => 0%Z end)
       (List.filter is_sleep (retries env (n_init w) sessions))
     = List.concat (repeat [ 5%Z; 2%Z ] sessions).
Proof.
  intros Hinit Hquiet Hon Hst.
  assert (fst (main env sessions fuel args w) = Timeout
          /\ log (snd (main env sessions fuel args w))
             = log w ++ EMkdir (recordings_dir args) true :: banner args
                     ++ retries env (n_init w) sessions) as [ Hout Hlog ].
  { destruct w as [rn lg ni nf ne nt nd ns nst nim nn]. cbn [n_storage running] in *.
    unfold main. unfold_monad. rewrite Hst.
    match goal with
    | |- context [session_loop env sessions fuel args ?w1] =>
        destruct (session_loop_retries env fuel args sessions Hinit Hquiet w1 Hon)
          as [ Ho Hl ];
        destruct (session_loop env sessions fuel args w1) as [ o w2 ]
    end.
    cbn [fst snd] in Ho, Hl. subst o.
    destruct w2 as [rn2 lg2 ni2 nf2 ne2 nt2 nd2 ns2 nst2 nim2 nn2].
    cbn [log n_init] in Hl. subst lg2. cbv beta iota.
    split; [ reflexivity | ]. unfold banner. rewrite <- !app_assoc.
    reflexivity. }
  split; [ exact Hout | ]. split; [ exact Hlog | ].
  split; [ | apply retries_sleeps; exact Hinit ].
  intros s0. rewrite Hlog, replay_app. cbn [replay fold_left apply_event].
  change (fold_left apply_event ?l ?s) with (replay s l).
  rewrite replay_untouched; [ reflexivity | ].
  apply List.Forall_app. split; [ repeat constructor | apply retries_untouched ].
Qed.

Lemma unavailable_camera_is_retried_forever_witness :
  (forall k, exists e, tracker_init unplugged k = inl e)
  /\ (forall k, signal_seen unplugged k = false)
  /\ running fresh = true
  /\ storage_fault unplugged (n_storage fresh) = None
  /\ fst (main unplugged 4 10 default_arguments fresh) = Timeout
  /\ log (snd (main unplugged 4 10 default_arguments fresh))
     = log fresh ++ EMkdir (recordings_dir default_arguments) true
         :: banner default_arguments ++ retries unplugged (n_init fresh) 4
  /\ (forall s0,
        files (replay s0 (log (snd (main unplugged 4 10 default_arguments fresh))))
        = files (replay s0 (log fresh)))
  /\ List.map (fun ev => match ev with ESleep s => s | _ => 0%Z end)
       (List.filter is_sleep (retries unplugged (n_init fresh) 4))
     = List.concat (repeat [ 5%Z; 2%Z ] 4).
Proof.
  assert (forall k, exists e, tracker_init unplugged k = inl e) as H1
    by (intros k; eexists; reflexivity).
  assert (forall k, signal_seen unplugged k = false) as H2 by reflexivity.
  assert (running fresh = true) as H3 by reflexivity.
  assert (storage_fault unplugged (n_storage fresh) = None) as H4 by reflexivity.
  split; [ exact H1 | ]. split; [ exact H2 | ]. split; [ exact H3 | ].
  split; [ exact H4 | ].
  exact (unavailable_camera_is_retried_forever unplugged 4 10 default_arguments fresh
           H1 H2 H3 H4).
Defined.

(** ** The session folder *)

Lemma dirs_replay_none evs :
  Forall (fun ev => is_mkdir ev = false) evs ->
  forall s, dirs (replay s evs) = dirs s.
Proof.
  unfold replay. induction 1 as [ | ev evs Hev _ IH ]; intros s; [ reflexivity | ].
  cbn [fold_left]. rewrite IH.
  destruct ev as [ | | | | | | | q [ | ] | q t | q | q img quality [ | ] ];
    try discriminate Hev; reflexivity.
Qed.

Lemma untouched_no_mkdir evs :
  Forall (fun ev => touches_storage ev = false) evs ->
  Forall (fun ev => is_mkdir ev = false) evs.
Proof.
  apply List.Forall_impl. intros ev H. destruct ev; try discriminate H; reflexivity.
Qed.

Lemma frames_logged_no_mkdir env out maxu start k0 c0 n c rows evs :
  frames_logged env out maxu start k0 c0 n c rows evs ->
  Forall (fun ev => is_mkdir ev = false) evs.
Proof.
  induction 1 as [ | n c rows evs noise i img ok hands b hd bd Hfr IH Hnoise _ _ _ _ ];
    [ constructor | ].
  apply List.Forall_app. split; [ exact IH | ].
  apply List.Forall_app. split.
  - apply untouched_no_mkdir. eapply check_noise_untouched. exact Hnoise.
  - repeat constructor.
Qed.

Lemma closing_no_mkdir out j now n tss :
  Forall (fun ev => is_mkdir ev = false) (closing_events out j now n tss).
Proof. unfold closing_events. destruct (0 <? n)%nat; repeat constructor. Qed.

(** The directories after a session that returned past the gate. *)
Lemma returned_session_dirs out t w frames last j now n rows env maxu start k0 c0 c
    maxd r0 s0 lg lg' :
  frames_logged env out maxu start k0 c0 n c rows frames ->
  loop_exit env out maxd maxu start n (k0 + n) r0 last ->
  lg' = lg ++ gate_events w ++ opening_events out t ++ frames ++ last
           ++ closing_events out j now n (List.map row_ts rows) ->
  dirs (replay s0 lg')
    = dirs (replay s0 lg) ∪ list_to_set (ancestors out) ∪ {[ rgb_dir out ]}.
Proof.
  intros Hfr Hexit ->. unfold opening_events, folders_events.
  rewrite replay_app. rewrite (replay_app _ (gate_events w)).
  rewrite (replay_untouched _ (gate_events w)) by repeat constructor.
  cbn [app]. unfold replay at 1. cbn [fold_left]. fold (replay).
  change (fold_left apply_event ?l ?s) with (replay s l).
  rewrite dirs_replay_none; [ reflexivity | ].
  apply List.Forall_app. split.
  { apply List.Forall_app. split.
    - apply untouched_no_mkdir, calibration_note_untouched.
    - repeat constructor. }
  apply List.Forall_app. split; [ eapply frames_logged_no_mkdir; exact Hfr | ].
  apply List.Forall_app. split; [ | apply closing_no_mkdir ].
  apply untouched_no_mkdir. eapply loop_exit_untouched. exact Hexit.
Qed.

Lemma opening_camera_info out t v :
  fold_left (local_event (camera_info_file out)) (opening_events out t) v
    = (Some (Text [ camera_info_text t ]), None).
Proof.
  unfold opening_events, write_events. rewrite !fold_left_app, folders_view.
  cbn [fold_left local_event]. paths. reflexivity.
Qed.

Lemma ancestors_self (p : path) : p <> [] -> In p (ancestors p).
Proof.
  induction p as [ | c p IH ]; intros H; [ contradiction | ].
  cbn. destruct p as [ | d p ]; [ left; reflexivity | ].
  right. apply in_map. apply IH. discriminate.
Qed.

(** X14.  The folder a returned session leaves, past the gate: the output
    directory with its missing parents and [rgb_frames] in it have been
    created and no other directory; [camera_info.json] holds one
    document, whose intrinsics are the ones in the header line of the
    pose stream.  They are the calibration's whenever it could be read,
    and then the width and height are 1920 and 1080 whatever the
    tracker's resolution; otherwise the fallback was announced on the
    console and they are estimated from the tracker's resolution. *)
Theorem session_folder_layout env fuel out maxd maxu w r w' s0 :
  record_session env fuel out maxd maxu w = (Ret r, w') ->
  verified env w = true ->
  exists t intrinsics,
    tracker_init env (n_init w) = inr t
    /\ dirs (replay s0 (log w'))
       = dirs (replay s0 (log w)) ∪ list_to_set (ancestors out) ∪ {[ rgb_dir out ]}
    /\ (out <> [] -> out ∈ dirs (replay s0 (log w')))
    /\ files (replay s0 (log w')) !! camera_info_file out
       = Some (Text [ JsonDoc 2 (JObj [ ("intrinsics", intrinsics) ]) ])
    /\ (exists h rest,
          stored_text (replay s0 (log w')) (poses_file out) = JsonLine h :: rest
          /\ field "intrinsics" h = Some intrinsics)
    /\ (forall j,
          calibrated_intrinsics t = inr j ->
          intrinsics = j
          /\ field "width" j = Some (JInt 1920) /\ field "height" j = Some (JInt 1080))
    /\ (forall e,
          calibrated_intrinsics t = inl e ->
          intrinsics = estimated_intrinsics t
          /\ field "width" intrinsics = Some (JInt (fst (resolution t)))
          /\ field "height" intrinsics = Some (JInt (snd (resolution t)))
          /\ In (EPrint (MsgNoCalibration e)) (log w')).
Proof.
  intros Hrun Hv.
  destruct (returned_session env fuel out maxd maxu w r w' Hv Hrun)
    as (t & n & c & rows & frames & r0 & last & j & now & Ht & Hfr & Hexit & _ & _ & Hlog).
  destruct (returned_session_files out t w frames last j now n rows env maxu _ _ _ c
              maxd r0 s0 (log w) (log w') Hfr Hexit Hlog) as (Hposes & _ & _).
  pose proof (returned_session_dirs out t w frames last j now n rows env maxu _ _ _ c
                maxd r0 s0 (log w) (log w') Hfr Hexit Hlog) as Hdirs.
  exists t, (session_intrinsics t). split; [ exact Ht | ]. split; [ exact Hdirs | ].
  split; [ | split; [ | split; [ | split ] ] ].
  - intros Hout. rewrite Hdirs. apply elem_of_union_l, elem_of_union_r.
    apply elem_of_list_to_set, list_elem_of_In, ancestors_self. exact Hout.
  - pose proof (view_after (camera_info_file out) s0 (log w)
                  (gate_events w ++ opening_events out t ++ frames ++ last
                     ++ closing_events out j now n (List.map row_ts rows))) as Hview.
    rewrite <- Hlog, !fold_left_app, gate_view, opening_camera_info in Hview.
    rewrite (frames_logged_elsewhere _ _ _ _ _ _ _ _ _ _ _ Hfr) in Hview
      by (intros; paths; reflexivity).
    rewrite (fold_local_untouched _ _ (loop_exit_untouched _ _ _ _ _ _ _ _ _ Hexit))
      in Hview.
    rewrite closing_view in Hview by (paths; reflexivity).
    apply (f_equal fst) in Hview. exact Hview.
  - unfold stored_text. rewrite Hposes. eexists; eexists. split; reflexivity.
  - intros j' Hj. unfold session_intrinsics. rewrite Hj. split; [ reflexivity | ].
    unfold calibrated_intrinsics in Hj.
    destruct (calibration t) as [ | m ]; [ discriminate Hj | ].
    destruct (entry m 0 0), (entry m 1 1), (entry m 0 2), (entry m 1 2);
      try discriminate Hj.
    injection Hj as <-. split; reflexivity.
  - intros e He. unfold session_intrinsics. rewrite He.
    split; [ reflexivity | ]. unfold estimated_intrinsics.
    destruct (resolution t) as [ wd ht ]. split; [ reflexivity | ].
    split; [ reflexivity | ].
    rewrite Hlog. apply in_or_app. right. apply in_or_app. right.
    apply in_or_app. left. unfold opening_events, folders_events, calibration_note.
    rewrite He. cbn. auto.
Qed.

Lemma session_folder_layout_witness :
  record_session calibrated 10 session_dir 3600 90 fresh
    = (Ret true, snd (record_session calibrated 10 session_dir 3600 90 fresh))
  /\ verified calibrated fresh = true
  /\ exists t intrinsics,
       tracker_init calibrated (n_init fresh) = inr t
       /\ dirs (replay empty_storage
                  (log (snd (record_session calibrated 10 session_dir 3600 90 fresh))))
          = dirs (replay empty_storage (log fresh)) ∪ list_to_set (ancestors session_dir)
              ∪ {[ rgb_dir session_dir ]}
       /\ (session_dir <> [] ->
           session_dir
             ∈ dirs (replay empty_storage
                       (log (snd (record_session calibrated 10 session_dir 3600 90
                                    fresh)))))
       /\ files (replay empty_storage
                   (log (snd (record_session calibrated 10 session_dir 3600 90 fresh))))
            !! camera_info_file session_dir
          = Some (Text [ JsonDoc 2 (JObj [ ("intrinsics", intrinsics) ]) ])
       /\ (exists h rest,
             stored_text
               (replay empty_storage
                  (log (snd (record_session calibrated 10 session_dir 3600 90 fresh))))
               (poses_file session_dir)
             = JsonLine h :: rest
             /\ field "intrinsics" h = Some intrinsics)
       /\ (forall j,
             calibrated_intrinsics t = inr j ->
             intrinsics = j
             /\ field "width" j = Some (JInt 1920) /\ field "height" j = Some (JInt 1080))
       /\ (forall e,
             calibrated_intrinsics t = inl e ->
             intrinsics = estimated_intrinsics t
             /\ field "width" intrinsics = Some (JInt (fst (resolution t)))
             /\ field "height" intrinsics = Some (JInt (snd (resolution t)))
             /\ In (EPrint (MsgNoCalibration e))
                  (log (snd (record_session calibrated 10 session_dir 3600 90 fresh)))).
Proof.
  assert (record_session calibrated 10 session_dir 3600 90 fresh
          = (Ret true, snd (record_session calibrated 10 session_dir 3600 90 fresh))) as H
    by (vm_compute; reflexivity).
  assert (verified calibrated fresh = true) as Hv by reflexivity.
  split; [ exact H | ]. split; [ exact Hv | ].
  exact (session_folder_layout calibrated 10 session_dir 3600 90 fresh true _
           empty_storage H Hv).
Defined.

(** ** Detections, one by one *)

(** X15.  The [hands] list of a Frame Record has one entry per detected hand,
    in the order of detection, each built from its own hand alone; and
    the loop over the hands raises exactly what the first hand that
    cannot be normalised raises, every hand before it having been
    normalised. *)
Theorem hands_entries_pointwise (hands : list hand) :
  (forall ds,
     hands_entries hands = inr ds
     <-> Forall2 (fun h d => hand_entry h = inr d) hands ds)
  /\ (forall e,
        hands_entries hands = inl e
        <-> exists before h after,
              hands = before ++ h :: after
              /\ hand_entry h = inl e
              /\ Forall (fun h' => exists d, hand_entry h' = inr d) before).
Proof.
  induction hands as [ | h hands [ IHok IHerr ] ]; split.
  - intros ds. split.
    + intros H. injection H as <-. constructor.
    + intros H. inversion H. reflexivity.
  - intros e. split; [ discriminate | ].
    intros (before & h & after & H & _). destruct before; discriminate H.
  - intros ds. cbn [hands_entries]. split.
    + destruct (hand_entry h) as [ e | d ] eqn:Hh; [ discriminate | ].
      destruct (hands_entries hands) as [ e | ds' ]; [ discriminate | ].
      intros H. injection H as <-. constructor; [ exact Hh | ].
      apply IHok. reflexivity.
    + intros H. inversion H as [ | h0 d hs ds' Hh Hrest ]; subst.
      rewrite Hh. apply IHok in Hrest. rewrite Hrest. reflexivity.
  - intros e. cbn [hands_entries]. split.
    + destruct (hand_entry h) as [ e' | d ] eqn:Hh.
      * intros H. injection H as ->. exists [], h, hands. auto.
      * destruct (hands_entries hands) as [ e' | ds' ]; [ | discriminate ].
        intros H. injection H as ->.
        destruct (proj1 (IHerr e) eq_refl) as (before & h' & after & -> & Hh' & Hb).
        exists (h :: before), h', after. split; [ reflexivity | ].
        split; [ exact Hh' | ]. constructor; [ eauto | exact Hb ].
    + intros (before & h' & after & Heq & Hh' & Hb).
      destruct before as [ | b before ]; cbn in Heq; injection Heq as <- ->.
      * rewrite Hh'. reflexivity.
      * apply List.Forall_cons_iff in Hb as [ [ d Hd ] Hb ]. rewrite Hd.
        assert (hands_entries (before ++ h' :: after) = inl e) as ->; [ | reflexivity ].
        apply IHerr. exists before, h', after. auto.
Qed.

(** X16.  The [body] field of a Frame Record is [null] or an object with
    exactly the keys [keypoints_2d] and [scores], neither of them
    [null]; it is [null] whenever the bag is [None] or empty, has no
    ["body"] entry or a [None] one, or the body has no [keypoints]
    attribute; and normalising the body raises only when [keypoints] or
    [scores] is there and [None]. *)
Theorem body_record_shape (b : bag) :
  (forall d,
     body_entry b = inr d ->
     d = JNull
     \/ exists k s,
          d = JObj [ ("keypoints_2d", k); ("scores", s) ] /\ k <> JNull /\ s <> JNull)
  /\ (bag_body b = None -> body_entry b = inr JNull)
  /\ (forall bd,
        bag_body b = Some bd ->
        (keypoints bd = Missing -> body_entry b = inr JNull)
        /\ (forall e,
              body_entry b = inl e ->
              keypoints bd = IsNone
              \/ (exists k, keypoints bd = Has k) /\ scores bd = IsNone)).
Proof.
  unfold body_entry. destruct (bag_body b) as [ bd | ].
  - split; [ | split; [ discriminate | ] ].
    + intros d. destruct (keypoints bd) as [ | | k ]; cbn [hasattr].
      * intros H. injection H as <-. auto.
      * discriminate.
      * destruct (scores bd) as [ | | s ]; intros H; try discriminate H;
          injection H as <-; right; do 2 eexists;
          (split; [ reflexivity | ]); split; try apply tolist_not_null; discriminate.
    + intros bd' H. injection H as <-. split.
      * intros ->. reflexivity.
      * intros e. destruct (keypoints bd) as [ | | k ]; cbn [hasattr].
        -- discriminate.
        -- auto.
        -- destruct (scores bd); try discriminate; intros _; right; eauto.
  - split; [ intros d H; injection H as <-; auto | ].
    split; [ reflexivity | discriminate ].
Qed.

(** ** Truncation *)

Lemma Qnum_nonneg q : (0 <= q)%Q <-> (0 <= Qnum q)%Z.
Proof. unfold Qle. cbn. lia. Qed.

(** X17.  [int(elapsed * 1000)] truncates towards zero: the stamp of a frame
    is the whole number of milliseconds elapsed, never more than the
    time elapsed and less than a millisecond short of it (when the time
    elapsed is negative, because the clock stepped back, never less and
    less than a millisecond above); a whole number of milliseconds is
    kept as it is. *)
Theorem timestamp_truncates (q : Q) :
  ((0 <= q)%Q -> (inject_Z (py_int q) <= q)%Q /\ (q < inject_Z (py_int q + 1))%Q)
  /\ ((q <= 0)%Q -> (q <= inject_Z (py_int q))%Q /\ (inject_Z (py_int q - 1) < q)%Q)
  /\ (forall z, py_int (inject_Z z) = z)
  /\ (forall env start i,
        (0 <= time_time env i - start)%Q ->
        (inject_Z (stamp_ms env start i) <= (time_time env i - start) * 1000)%Q
        /\ ((time_time env i - start) * 1000 < inject_Z (stamp_ms env start i + 1))%Q).
Proof.
  assert (forall x, (0 <= x)%Q ->
            (inject_Z (py_int x) <= x)%Q /\ (x < inject_Z (py_int x + 1))%Q) as Hpos.
  { intros x Hx. rewrite py_int_nonneg by (apply Qnum_nonneg; exact Hx).
    split; [ apply Qfloor_le | apply Qlt_floor ]. }
  split; [ apply Hpos | ]. split; [ | split ].
  - intros Hq. destruct (Z_lt_le_dec (Qnum q) 0) as [ Hneg | Hzero ].
    + rewrite py_int_neg by exact Hneg. split; [ apply Qle_ceiling | apply Qceiling_lt ].
    + assert (q == 0)%Q as H0.
      { apply Qle_antisym; [ exact Hq | apply Qnum_nonneg; exact Hzero ]. }
      assert (py_int q = 0%Z) as ->.
      { destruct q as [ a d ]. unfold Qeq in H0. cbn in H0.
        assert (a = 0%Z) as -> by lia. reflexivity. }
      rewrite H0. split; [ apply Qle_refl | reflexivity ].
  - intros z. unfold py_int. cbn. apply Z.quot_1_r.
  - intros env start i H. unfold stamp_ms. apply Hpos.
    apply Qmult_le_0_compat; [ exact H | discriminate ].
Qed.

Lemma timestamp_truncates_witness :
  (0 <= 2999 # 2)%Q
  /\ (inject_Z (py_int (2999 # 2)) <= 2999 # 2)%Q
  /\ (2999 # 2 < inject_Z (py_int (2999 # 2) + 1))%Q.
Proof.
  assert (0 <= 2999 # 2)%Q as H by discriminate.
  split; [ exact H | ].
  exact (proj1 (timestamp_truncates (2999 # 2)) H).
Defined.

(** ** The width of frame names *)

Lemma digits_rev_length_le k :
  forall fuel n, (0 < k)%nat -> (n < 10 ^ k)%nat -> (length (digits_rev fuel n) <= k)%nat.
Proof.
  induction k as [ | k IH ]; intros fuel n Hk Hn; [ lia | ].
  destruct fuel as [ | fuel ]; cbn [digits_rev]; [ cbn; lia | ].
  destruct (Nat.ltb_spec n 10) as [ Hlt | Hge ]; [ cbn; lia | ].
  cbn [length]. apply le_n_S.
  destruct k as [ | k ]; [ cbn in Hn; lia | ].
  apply IH; [ lia | ].
  apply Nat.Div0.div_lt_upper_bound. rewrite Nat.pow_succ_r' in Hn. exact Hn.
Qed.

Lemma digits_rev_length_ge k :
  forall fuel n, (n < fuel)%nat -> (10 ^ k <= n)%nat ->
                 (k < length (digits_rev fuel n))%nat.
Proof.
  induction k as [ | k IH ]; intros fuel n Hf Hn.
  - destruct fuel as [ | fuel ]; [ lia | ]. cbn [digits_rev].
    destruct (n <? 10)%nat; cbn; lia.
  - destruct fuel as [ | fuel ]; [ lia | ]. cbn [digits_rev].
    rewrite Nat.pow_succ_r' in Hn.
    destruct (Nat.ltb_spec n 10) as [ Hlt | Hge ].
    + assert (1 <= 10 ^ k)%nat by (apply Nat.neq_0_lt_0, Nat.pow_nonzero; lia). lia.
    + cbn [length]. apply -> Nat.succ_lt_mono. apply IH.
      * assert (n / 10 < n)%nat by (apply Nat.div_lt; lia). lia.
      * apply Nat.div_le_lower_bound; lia.
Qed.

Lemma string_of_list_length (l : list ascii) :
  String.length (string_of_list_ascii l) = length l.
Proof. induction l as [ | c l IH ]; cbn; [ reflexivity | rewrite IH; reflexivity ]. Qed.

(** X18.  A frame name is twelve characters long, [frame_] and six digits,
    exactly as long as the frame count is below a million; from the
    millionth frame on the names get longer. *)
Theorem frame_name_width (n : nat) :
  ((n < 10 ^ 6)%nat -> String.length (frame_name n) = 12%nat)
  /\ ((10 ^ 6 <= n)%nat -> (12 < String.length (frame_name n))%nat).
Proof.
  assert (String.length (frame_name n) = (6 + String.length (fmt_06d n))%nat) as ->
    by reflexivity.
  unfold fmt_06d, decimal. rewrite string_of_list_length, List.length_app, repeat_length.
  rewrite length_rev. split; intros H.
  - pose proof (digits_rev_length_le 6 (S n) n ltac:(lia) H). lia.
  - pose proof (digits_rev_length_ge 6 (S n) n ltac:(lia) H). lia.
Qed.

Lemma frame_name_width_witness :
  (4321 < 10 ^ 6)%nat /\ String.length (frame_name 4321) = 12%nat.
Proof.
  assert (4321 < 10 ^ 6)%nat as H by (apply Nat.ltb_lt; vm_compute; reflexivity).
  split; [ exact H | ].
  exact (proj1 (frame_name_width 4321) H).
Defined.

(** ** Rotation of sessions *)

(** Without a signal and without a disk sample above the threshold a
    session leaves the flag as it found it. *)
Lemma flag_kept env fuel out maxd maxu w o w' evs :
  record_session env fuel out maxd maxu w = (o, w') ->
  log w' = log w ++ evs ->
  quiet env (n_signal w) (n_signal w') ->
  Forall (fun ev => tripped maxu ev = false) evs ->
  running w' = running w.
Proof.
  intros Hrun Hlog Hquiet Hdisk.
  pose proof (flag_record_session env fuel out maxd maxu w) as H.
  rewrite Hrun in H. cbn [snd] in H. destruct H as (evs' & Hlog' & _ & Hset & Hclr).
  rewrite Hlog in Hlog'. apply app_inv_head in Hlog'. subst evs'.
  destruct (running w') eqn:Hon.
  - destruct (Hset eq_refl) as [ -> _ ]. reflexivity.
  - destruct (running w) eqn:Hw; [ | reflexivity ].
    destruct (Hclr eq_refl eq_refl) as [ (k & Hk & Hs) | Hex ].
    + rewrite (Hquiet k Hk) in Hs. discriminate Hs.
    + exfalso. apply List.Exists_exists in Hex as (ev & Hin & Hev).
      rewrite List.Forall_forall in Hdisk. rewrite (Hdisk ev Hin) in Hev. discriminate Hev.
Qed.

(** X20.  Take a turn of the session loop that finds the run flag set.  If the
    session it starts returns, none of the session's reads of the flag
    saw a signal and no disk sample was above the threshold, then the
    session returns [True] for whatever reason it ended (the gate was not
    passed, the duration limit was reached, a pull raised or delivered
    no frame), and the session loop prints its line, sleeps two seconds
    and goes on to its next turn. *)
Theorem session_loop_rotates env sessions fuel args w r w2 evs :
  running w && negb (signal_seen env (n_signal w)) = true ->
  let out := fst (next_session env args w) in
  let w1 := snd (next_session env args w) in
  record_session env fuel out (session_duration args) (max_disk_usage_arg args) w1
    = (Ret r, w2) ->
  log w2 = log w1 ++ evs ->
  quiet env (n_signal w1) (n_signal w2) ->
  Forall (fun ev => tripped (max_disk_usage_arg args) ev = false) evs ->
  r = true
  /\ session_loop env (S sessions) fuel args w
     = session_loop env sessions fuel args
         (add_event (ESleep 2) (add_event (EPrint MsgNewSession) w2)).
Proof.
  intros Hflag. unfold next_session. cbn [fst snd]. intros Hrun Hlog Hquiet Hdisk.
  assert (r = true) as ->.
  { rewrite (returned_flag _ _ _ _ _ _ _ _ Hrun).
    rewrite (flag_kept _ _ _ _ _ _ _ _ _ Hrun Hlog Hquiet Hdisk).
    destruct w; cbn in *. exact Hflag. }
  split; [ reflexivity | ].
  cbn [session_loop]. unfold mbind, M_bind, bind.
  unfold read_running at 1, now_datetime at 1.
  rewrite Hflag in *.
  cbn [negb n_now bump_signal bump_now set_running_flag running log n_init n_frame n_exit
         n_time n_disk n_signal n_storage n_imwrite] in *.
  rewrite Hrun. reflexivity.
Qed.


Lemma session_loop_rotates_witness :
  running fresh && negb (signal_seen steady (n_signal fresh)) = true
  /\ let out := fst (next_session steady default_arguments fresh) in
     let w1 := snd (next_session steady default_arguments fresh) in
     let w2 := snd (record_session steady 10 out (session_duration default_arguments)
                      (max_disk_usage_arg default_arguments) w1) in
     record_session steady 10 out (session_duration default_arguments)
       (max_disk_usage_arg default_arguments) w1
       = (Ret true, w2)
     /\ log w2 = log w1 ++ log w2
     /\ quiet steady (n_signal w1) (n_signal w2)
     /\ Forall (fun ev => tripped (max_disk_usage_arg default_arguments) ev = false)
          (log w2)
     /\ true = true
     /\ session_loop steady 3 10 default_arguments fresh
        = session_loop steady 2 10 default_arguments
            (add_event (ESleep 2) (add_event (EPrint MsgNewSession) w2)).
Proof.
  assert (running fresh && negb (signal_seen steady (n_signal fresh)) = true) as Hf
    by reflexivity.
  split; [ exact Hf | ]. intros out w1 w2.
  assert (record_session steady 10 out (session_duration default_arguments)
            (max_disk_usage_arg default_arguments) w1 = (Ret true, w2)) as Hrun
    by (vm_compute; reflexivity).
  assert (log w2 = log w1 ++ log w2) as Hlog by (vm_compute; reflexivity).
  assert (quiet steady (n_signal w1) (n_signal w2)) as Hq by (intros k _; reflexivity).
  assert (Forall (fun ev => tripped (max_disk_usage_arg default_arguments) ev = false)
            (log w2)) as Hd.
  { assert (forallb (fun ev => negb (tripped (max_disk_usage_arg default_arguments) ev))
              (log w2) = true) as Hb by (vm_compute; reflexivity).
    apply List.Forall_forall. intros ev Hin.
    apply negb_true_iff. revert ev Hin. apply forallb_forall. exact Hb. }
  split; [ exact Hrun | ]. split; [ exact Hlog | ]. split; [ exact Hq | ].
  split; [ exact Hd | ].
  pose proof (session_loop_rotates steady 2 10 default_arguments fresh true w2 (log w2)
           Hf Hrun Hlog Hq Hd) as H.
  exact H.
Defined.

(** ** The handle of the pose stream *)



(** ** What is caught and what is not *)

(** When normalising a detection raises. *)
Lemma hand_entry_ok h : hand_ok h <-> exists d, hand_entry h = inr d.
Proof.
  unfold hand_ok, hand_entry. split.
  - intros [ [ s -> ] [ x -> ] ]. eexists. reflexivity.
  - intros [ d H ]. destruct (label h) as [ | | s ]; try discriminate H.
    destruct (lm_score h) as [ | | x ]; try discriminate H. eauto.
Qed.

Lemma hands_entries_ok hands :
  Forall hand_ok hands <-> exists ds, hands_entries hands = inr ds.
Proof.
  induction hands as [ | h hands IH ]; cbn [hands_entries].
  - split; [ eauto | constructor ].
  - split.
    + intros H. apply List.Forall_cons_iff in H as [ Hh Hrest ].
      apply hand_entry_ok in Hh as [ d -> ]. apply IH in Hrest as [ ds -> ]. eauto.
    + intros [ ds H ]. destruct (hand_entry h) as [ | d ] eqn:Hh; [ discriminate H | ].
      destruct (hands_entries hands) as [ | ds' ]; [ discriminate H | ].
      constructor; [ apply hand_entry_ok; eauto | apply IH; eauto ].
Qed.

Lemma body_entry_ok b : body_ok b <-> exists d, body_entry b = inr d.
Proof.
  unfold body_ok, body_entry. destruct (bag_body b) as [ bd | ].
  - split.
    + intros H. destruct (H bd eq_refl) as [ Hk Hs ].
      destruct (keypoints bd) as [ | | k ]; cbn [hasattr]; [ eauto | contradiction | ].
      destruct Hs as [ Hs | Hs ]; [ discriminate Hs | ].
      destruct (scores bd); [ eauto | contradiction | eauto ].
    + intros [ d H ] bd' Hbd. injection Hbd as <-.
      destruct (keypoints bd) as [ | | k ]; cbn [hasattr] in H.
      * split; [ discriminate | auto ].
      * discriminate H.
      * split; [ discriminate | ]. right.
        destruct (scores bd); [ discriminate | discriminate H | discriminate ].
  - split; [ eauto | intros _ bd H; discriminate H ].
Qed.

Lemma cooperative_intro env :
  (forall k, storage_fault env k = None) ->
  (forall k, exists ok, imwrite_result env k = inr ok) ->
  (forall k, exists total used free,
      disk_usage env k = inr (total, used, free) /\ total <> 0%Z) ->
  (forall k img hands b,
      next_frame env k = inr (Some img, hands, b) -> Forall hand_ok hands /\ body_ok b) ->
  cooperative env.
Proof.
  intros Hs Hi Hd Hn. split; [ exact Hs | ]. split; [ exact Hi | ]. split; [ exact Hd | ].
  intros k img hands b H. destruct (Hn k img hands b H) as [ Hh Hb ].
  split; [ apply hands_entries_ok; exact Hh | apply body_entry_ok; exact Hb ].
Qed.


(** ** Faults that are not the tracker's *)

Lemma same_counters_refl w : same_counters w w.
Proof. repeat split. Qed.

Lemma same_counters_trans w1 w2 w3 :
  same_counters w1 w2 -> same_counters w2 w3 -> same_counters w1 w3.
Proof. unfold same_counters. intros (-> & -> & ->) (-> & -> & ->). auto. Qed.

Ltac idle :=
  intros [rn lg ni nf ne nt nd ns nst nim nn]; unfold_monad;
  repeat split_match; unfold_monad; cbn [snd]; repeat split.

Lemma idle_emit ev : respects same_counters (emit ev).
Proof. idle. Qed.

Lemma idle_print m : respects same_counters (print m).
Proof. idle. Qed.

Lemma idle_sleep s : respects same_counters (sleep s).
Proof. idle. Qed.

Lemma idle_HandTracker env : respects same_counters (HandTracker env).
Proof. idle. Qed.

Lemma idle_pull_frame env : respects same_counters (pull_frame env).
Proof. idle. Qed.

Lemma idle_exit_tracker env : respects same_counters (exit_tracker env).
Proof. idle. Qed.

Lemma idle_release env : respects same_counters (release env).
Proof. unfold release, exit_tracker. idle. Qed.

Lemma idle_now_seconds env : respects same_counters (now_seconds env).
Proof. idle. Qed.

Lemma idle_now_datetime env : respects same_counters (now_datetime env).
Proof. idle. Qed.

Lemma idle_read_running env : respects same_counters (read_running env).
Proof. idle. Qed.

Lemma idle_clear_running : respects same_counters clear_running.
Proof. idle. Qed.

Create HintDb idle.

#[local] Hint Resolve idle_emit idle_print idle_sleep idle_HandTracker idle_pull_frame
  idle_exit_tracker idle_release idle_now_seconds idle_now_datetime idle_read_running
  idle_clear_running : idle.

Ltac idle_steps :=
  respecting constr:(same_counters_refl) constr:(same_counters_trans) ltac:(auto with idle).

Lemma met_no_fault_same env w w' : same_counters w w' -> met_no_fault env w w'.
Proof.
  intros (Hs & Hi & Hd). unfold met_no_fault. rewrite Hs, Hi, Hd.
  repeat split; try lia; intros k Hk; lia.
Qed.

Lemma met_no_fault_trans env w1 w2 w3 :
  met_no_fault env w1 w2 -> met_no_fault env w2 w3 -> met_no_fault env w1 w3.
Proof.
  intros ((Hs1 & Fs1) & (Hi1 & Fi1) & (Hd1 & Fd1)) ((Hs2 & Fs2) & (Hi2 & Fi2) & (Hd2 & Fd2)).
  repeat split; try lia; intros k Hk.
  - destruct (Nat.lt_ge_cases k (n_storage w2)); [ apply Fs1 | apply Fs2 ]; lia.
  - destruct (Nat.lt_ge_cases k (n_imwrite w2)); [ apply Fi1 | apply Fi2 ]; lia.
  - destruct (Nat.lt_ge_cases k (n_disk w2)); [ apply Fd1 | apply Fd2 ]; lia.
Qed.

Lemma faultless_idle {A} env (m : M A) : respects same_counters m -> faultless env m.
Proof.
  intros H w. specialize (H w). destruct (m w) as [ [ a | e | ] w' ]; try exact I.
  apply met_no_fault_same. exact H.
Qed.

Lemma faultless_ret {A} env (a : A) : faultless env (mret a).
Proof. intros w. apply met_no_fault_same, same_counters_refl. Qed.

Lemma faultless_raise {A} env e : faultless env (@raise A e).
Proof. intros w. exact I. Qed.

Lemma faultless_out_of_fuel {A} env : faultless env (@out_of_fuel A).
Proof. intros w. exact I. Qed.

Lemma faultless_lift {A} env (r : exn + A) : faultless env (lift r).
Proof. destruct r; [ apply faultless_raise | apply (faultless_ret env) ]. Qed.

Lemma faultless_bind {A B} env (m : M A) (k : A -> M B) :
  faultless env m -> (forall a, faultless env (k a)) -> faultless env (m ≫= k).
Proof.
  intros Hm Hk w. unfold mbind, M_bind, bind. specialize (Hm w).
  destruct (m w) as [ [ a | e | ] w1 ]; try exact I.
  specialize (Hk a w1). destruct (k a w1) as [ [ b | e | ] w2 ]; try exact I.
  eapply met_no_fault_trans; eassumption.
Qed.

(** The body of every [try] of the program only calls the tracker and
    the console: what its handler goes on to do is not hidden by it. *)
Lemma faultless_try {A} env (m : M A) (h : exn -> M A) :
  respects same_counters m -> (forall e, faultless env (h e)) ->
  faultless env (try_except m h).
Proof.
  intros Hm Hh w. unfold try_except. specialize (Hm w).
  destruct (m w) as [ [ a | e | ] w1 ]; cbn [snd] in Hm; try exact I.
  - apply met_no_fault_same. exact Hm.
  - specialize (Hh e w1). destruct (h e w1) as [ [ b | e' | ] w2 ]; try exact I.
    eapply met_no_fault_trans; [ apply met_no_fault_same; exact Hm | exact Hh ].
Qed.

Lemma faultless_finally {A} env (m : M A) (cleanup : M unit) :
  faultless env m -> faultless env cleanup -> faultless env (finally m cleanup).
Proof.
  intros Hm Hc w. unfold finally, bind. specialize (Hm w).
  destruct (m w) as [ [ a | e | ] w1 ]; try exact I; specialize (Hc w1);
    destruct (cleanup w1) as [ [ [] | e' | ] w2 ]; try exact I.
  eapply met_no_fault_trans; eassumption.
Qed.

Lemma faultless_storage_op env ev : faultless env (storage_op env ev).
Proof.
  intros [rn lg ni nf ne nt nd ns nst nim nn]. unfold storage_op. cbn [n_storage].
  destruct (storage_fault env nst) eqn:E; [ exact I | ].
  unfold met_no_fault. cbn. repeat split; try lia; intros k Hk; try lia.
  assert (k = nst) as -> by lia. exact E.
Qed.

Lemma faultless_imwrite env p img q : faultless env (imwrite env p img q).
Proof.
  intros [rn lg ni nf ne nt nd ns nst nim nn]. unfold imwrite. cbn [n_imwrite].
  destruct (imwrite_result env nim) as [ e | ok ] eqn:E; [ exact I | ].
  unfold met_no_fault. cbn. repeat split; try lia; intros k Hk; try lia.
  assert (k = nim) as -> by lia. eauto.
Qed.

Lemma faultless_disk_usage env p : faultless env (get_disk_usage_percent env p).
Proof.
  intros [rn lg ni nf ne nt nd ns nst nim nn]. unfold get_disk_usage_percent.
  cbn [n_disk].
  destruct (disk_usage env nd) as [ e | [ [ total used ] free ] ] eqn:E; [ exact I | ].
  destruct (Z.eqb_spec total 0) as [ | Hne ]; [ exact I | ].
  unfold met_no_fault. cbn. repeat split; try lia; intros k Hk; try lia.
  assert (k = nd) as -> by lia. eauto.
Qed.

Create HintDb faultless.

#[local] Hint Resolve faultless_storage_op faultless_imwrite faultless_disk_usage
  : faultless.

Ltac faultless_steps env :=
  unfold mkdir, write, with_open;
  repeat first
    [ solve [ auto with faultless ]
    | solve [ apply faultless_idle; auto with idle ]
    | apply (faultless_ret env)
    | apply faultless_raise
    | apply faultless_out_of_fuel
    | apply faultless_lift
    | apply faultless_try; [ solve [ idle_steps ] | intros ]
    | apply faultless_finally
    | apply faultless_bind; [ | intros ]
    | progress cbv zeta
    | match goal with
      | |- faultless _ (match ?x with _ => _ end) => destruct x
      end ].

Lemma faultless_frame_step env out maxd maxu start st :
  faultless env (frame_step env out maxd maxu start st).
Proof. unfold frame_step, disk_check, persist_frame. faultless_steps env. Qed.

Lemma faultless_frame_loop env out maxd maxu start fuel :
  forall st, faultless env (frame_loop env fuel out maxd maxu start st).
Proof.
  induction fuel as [ | fuel IH ]; intros st; cbn [frame_loop].
  - apply faultless_out_of_fuel.
  - pose proof (faultless_frame_step env out maxd maxu start) as Hstep.
    faultless_steps env.
Qed.

Lemma faultless_record_session env fuel out maxd maxu :
  faultless env (record_session env fuel out maxd maxu).
Proof.
  pose proof (faultless_frame_loop env out maxd maxu) as Hloop.
  unfold record_session, acquire, verify, back_off_after_release, open_session, close_session.
  faultless_steps env.
Qed.

(** The pulls among the recorded frames are the pulls of the rows. *)
Lemma frames_logged_pull_events env out maxu start k0 c0 n c rows evs k :
  frames_logged env out maxu start k0 c0 n c rows evs ->
  In (ENextFrame k) evs ->
  exists i r, k = (k0 + i)%nat /\ rows !! i = Some r.
Proof.
  induction 1 as [ | n c rows evs noise i img ok hands b hd bd Hfr IH Hnoise _ _ _ _ ];
    intros Hin; [ destruct Hin | ].
  pose proof (frames_logged_length _ _ _ _ _ _ _ _ _ _ Hfr) as Hlen.
  apply in_app_or in Hin as [ Hin | Hin ].
  - destruct (IH Hin) as (j & r & -> & Hj). exists j, r. split; [ reflexivity | ].
    apply lookup_app_l_Some. exact Hj.
  - apply in_app_or in Hin as [ Hin | Hin ].
    + exfalso. destruct Hnoise; cbn in Hin; intuition discriminate.
    + unfold frame_events, write_events in Hin. cbn in Hin.
      destruct Hin as [ E | [ E | [ E | [ E | [ E | [] ] ] ] ] ]; try discriminate E.
      injection E as <-. eexists n, _. split; [ reflexivity | ].
      rewrite lookup_app_r by lia. rewrite Hlen, Nat.sub_diag. reflexivity.
Qed.

(** Every frame a returned session was delivered in its loop could be
    normalised. *)
Lemma returned_session_detections env fuel out maxd maxu w r w' evs k img hands b :
  record_session env fuel out maxd maxu w = (Ret r, w') ->
  log w' = log w ++ evs ->
  In (ENextFrame k) evs ->
  k <> n_frame w ->
  next_frame env k = inr (Some img, hands, b) ->
  Forall hand_ok hands /\ body_ok b.
Proof.
  intros Hrun Hlog Hin Hk Hpull. destruct (verified env w) eqn:Hv.
  - destruct (returned_session env fuel out maxd maxu w r w' Hv Hrun)
      as (t & n & c & rows & frames & r0 & last & j & now & _ & Hfr & Hexit & _ & _ & Hlog').
    rewrite Hlog' in Hlog. apply app_inv_head in Hlog. subst evs.
    apply in_app_or in Hin as [ Hin | Hin ].
    { exfalso. cbn in Hin. intuition (try discriminate). congruence. }
    apply in_app_or in Hin as [ Hin | Hin ].
    { exfalso. unfold opening_events, folders_events, write_events, calibration_note in Hin.
      destruct (calibrated_intrinsics t); cbn in Hin; intuition discriminate. }
    apply in_app_or in Hin as [ Hin | Hin ].
    { destruct (frames_logged_pull_events _ _ _ _ _ _ _ _ _ _ k Hfr Hin) as (i & row & -> & Hi).
      destruct (frames_logged_pulls _ _ _ _ _ _ _ _ _ _ Hfr i row Hi)
        as (hands' & b' & Hp & Hh & Hb).
      rewrite Hp in Hpull. injection Hpull as _ <- <-.
      split; [ apply hands_entries_ok | apply body_entry_ok ]; eauto. }
    apply in_app_or in Hin as [ Hin | Hin ].
    { exfalso.
      destruct Hexit as [ | i H | usage H | noise e Hn H | noise hands' b' Hn H ];
        cbn in Hin; try (intuition discriminate);
        apply in_app_or in Hin as [ Hin | Hin ];
        try (destruct Hn; cbn in Hin; intuition discriminate);
        cbn in Hin; destruct Hin as [ E | [ E | [] ] ]; try discriminate E;
        injection E as E; cbn [Nat.add] in H; rewrite <- E, H in Hpull;
        discriminate Hpull. }
    exfalso. unfold closing_events, write_events in Hin.
    destruct (0 <? n)%nat; cbn in Hin; intuition discriminate.
  - exfalso.
    destruct (gate_failure_log env fuel out maxd maxu w Hv)
      as [ (e & _ & Hlog') | (t & why & _ & _ & Hlog') ];
      rewrite Hrun in Hlog'; cbn [snd] in Hlog'; rewrite Hlog' in Hlog;
      apply app_inv_head in Hlog; subst evs; cbn in Hin;
      intuition (try discriminate); congruence.
Qed.

(** C4 (as amended).  The exceptions of the Pose Source (construction, the
    verification pull, the calibration read, a frame pull, the release)
    never leave [record_session].  Whatever the tracker does: as long as
    no storage operation raises, [cv2.imwrite] does not raise, the disk
    can be sampled (and is not of size zero) and every detection
    delivered with a frame can be normalised (each hand has a [label] and
    an [lm_score] that are not [None]; a body has no [None] for
    [keypoints], nor for [scores] beside existing keypoints), no exception
    propagates, and once the clock is past the duration limit the caller
    gets a boolean, the run flag.  The exceptions of those other
    operations are not caught: a session that returns a boolean has met
    none of them, every storage operation, image encoding and disk sample
    it made having succeeded and every frame it was delivered in its loop
    having been normalised. *)
Theorem only_tracker_failures_are_swallowed env fuel out maxd maxu w :
  ((forall k, storage_fault env k = None) ->
   (forall k, exists ok, imwrite_result env k = inr ok) ->
   (forall k, exists total used free,
       disk_usage env k = inr (total, used, free) /\ total <> 0%Z) ->
   (forall k img hands b,
       next_frame env k = inr (Some img, hands, b) -> Forall hand_ok hands /\ body_ok b) ->
   (forall e, fst (record_session env fuel out maxd maxu w) <> Raise e)
   /\ forall N,
        (forall i, (N <= i)%nat ->
                   Qgt_bool (time_time env i - time_time env (n_time w)) maxd = true) ->
        (0 < fuel)%nat -> (N <= n_time w + fuel)%nat ->
        exists r,
          fst (record_session env fuel out maxd maxu w) = Ret r
          /\ r = running (snd (record_session env fuel out maxd maxu w)))
  /\ (forall r,
        fst (record_session env fuel out maxd maxu w) = Ret r ->
        met_no_fault env w (snd (record_session env fuel out maxd maxu w))
        /\ forall evs k img hands b,
             log (snd (record_session env fuel out maxd maxu w)) = log w ++ evs ->
             In (ENextFrame k) evs ->
             k <> n_frame w ->
             next_frame env k = inr (Some img, hands, b) ->
             Forall hand_ok hands /\ body_ok b).
Proof.
  split.
  - intros Hs Hi Hd Hn. pose proof (cooperative_intro env Hs Hi Hd Hn) as Hcoop.
    split; [ apply cooperative_never_raises; exact Hcoop | ].
    intros N Hlimit Hpos Hfuel.
    pose proof (cooperative_never_raises env fuel out maxd maxu w Hcoop) as Hno.
    pose proof (record_session_terminates env fuel out maxd maxu w N Hlimit Hpos Hfuel)
      as Hto.
    destruct (record_session env fuel out maxd maxu w) as [ [ r | e | ] w' ] eqn:Hrun.
    + exists r. split; [ reflexivity | ]. eapply returned_flag; exact Hrun.
    + destruct (Hno e eq_refl).
    + destruct (Hto eq_refl).
  - intros r Hret.
    pose proof (faultless_record_session env fuel out maxd maxu w) as Hf.
    destruct (record_session env fuel out maxd maxu w) as [ o w' ] eqn:Hrun.
    cbn [fst snd] in *. subst o. split; [ exact Hf | ].
    intros evs k img hands b Hlog Hin Hk Hpull.
    exact (returned_session_detections env fuel out maxd maxu w r w' evs k img hands b
             Hrun Hlog Hin Hk Hpull).
Qed.

Lemma steady_detections k img hands b :
  next_frame steady k = inr (Some img, hands, b) -> Forall hand_ok hands /\ body_ok b.
Proof.
  cbv beta iota delta [steady next_frame]. destruct (k <? 4)%nat; [ | discriminate ].
  intros H. injection H as _ <- <-. split.
  - repeat constructor; eexists; reflexivity.
  - intros bd Hbd. discriminate Hbd.
Qed.

Lemma steady_past_limit i :
  (3 <= i)%nat -> Qgt_bool (time_time steady i - time_time steady (n_time fresh)) 2 = true.
Proof.
  intros Hi. cbn [steady time_time n_time fresh]. unfold Qgt_bool.
  apply negb_true_iff, not_true_is_false. intros H. apply Qle_bool_iff in H.
  unfold Qle, Qminus, Qplus, Qopp, inject_Z in H. cbn in H. lia.
Qed.

(** The steady camera under a limit of two seconds: nothing but the
    tracker can raise, the fourth reading of the clock is past the limit,
    and the session returns the flag. *)
Lemma only_tracker_failures_are_swallowed_witness :
  (forall k, storage_fault steady k = None)
  /\ (forall k, exists ok, imwrite_result steady k = inr ok)
  /\ (forall k, exists total used free,
         disk_usage steady k = inr (total, used, free) /\ total <> 0%Z)
  /\ (forall k img hands b,
         next_frame steady k = inr (Some img, hands, b) ->
         Forall hand_ok hands /\ body_ok b)
  /\ (forall i, (3 <= i)%nat ->
                Qgt_bool (time_time steady i - time_time steady (n_time fresh)) 2 = true)
  /\ (0 < 10)%nat /\ (3 <= n_time fresh + 10)%nat
  /\ (forall e, fst (record_session steady 10 session_dir 2 90 fresh) <> Raise e)
  /\ exists r,
       fst (record_session steady 10 session_dir 2 90 fresh) = Ret r
       /\ r = running (snd (record_session steady 10 session_dir 2 90 fresh)).
Proof.
  assert (forall k, storage_fault steady k = None) as Hs by reflexivity.
  assert (forall k, exists ok, imwrite_result steady k = inr ok) as Hi
    by (intros k; exists true; reflexivity).
  assert (forall k, exists total used free,
            disk_usage steady k = inr (total, used, free) /\ total <> 0%Z) as Hd
    by (intros k; exists 100%Z, 50%Z, 50%Z; split; [ reflexivity | discriminate ]).
  assert (0 < 10)%nat as Hpos by lia.
  assert (3 <= n_time fresh + 10)%nat as Hfuel by (cbn; lia).
  destruct (proj1 (only_tracker_failures_are_swallowed steady 10 session_dir 2 90 fresh)
              Hs Hi Hd steady_detections) as [ Hno Hret ].
  split; [ exact Hs | ]. split; [ exact Hi | ]. split; [ exact Hd | ].
  split; [ exact steady_detections | ]. split; [ exact steady_past_limit | ].
  split; [ exact Hpos | ]. split; [ exact Hfuel | ]. split; [ exact Hno | ].
  exact (Hret 3%nat steady_past_limit Hpos Hfuel).
Defined.

(** C4, as the specification states it, fails: when the flush of a frame
    record raises [OSError] (the disk is full), the exception leaves
    [record_session]; the caller observes no boolean. *)
Lemma storage_error_propagates :
  fst (record_session disk_full 10 session_dir 3600 90 fresh)
    = Raise (OSError "No space left on device")
  /\ ~ exists r, fst (record_session disk_full 10 session_dir 3600 90 fresh) = Ret r.
Proof.
  assert (fst (record_session disk_full 10 session_dir 3600 90 fresh)
          = Raise (OSError "No space left on device")) as E by (vm_compute; reflexivity).
  split; [ exact E | ]. intros [ r H ]. rewrite E in H. discriminate H.
Qed.

